(** * UMEBOT backend: a shallow embedding of the orchestration fabric

    The development follows the Python sources under [backend-python/]:
    - [motion/MotionGamePad.py] and [MotionManager.py] (motion arbiter),
    - [tabletserver/Messages.py], [tabletserver/Endpoints.py] and
      [TabletInterface.py] (tablet gateway),
    - [audio/MicLocal.py] (local microphone intake queue),
    - [ConversationManager.py] and [Init_System.py] (conversation core and
      orchestrator).

    Conventions.
    - Python floats are idealised as rationals ([Q]); the literals of the
      source ([0.08], [0.001], [0.35], ...) are the corresponding fractions.
    - Python [str] is a list of Unicode code points ([N]); ASCII literals are
      injected with [py].
    - Calls on collaborators (robot hardware, speech controller, web sockets,
      persistence) are recorded in output traces, in call order.
    - Code between two blocking calls of a thread is one atomic step; the
      worker thread of [MotionGamePad] is a small program counter that
      suspends at [Event.wait] and [time.sleep].  A coroutine of the
      orchestrator's event loop runs to its end as one step: its awaits are
      not interleaved with other coroutines.
    - Python exceptions appear where the source handles them ([ValueError]
      in the message validation, the [try] statements of the conversation
      path); the body of the gamepad loop raises on no validated payload,
      so its [except] clause is left out. *)

From Stdlib Require Import ZArith QArith Qabs List String Ascii Bool Lia Lqa.
From Stdlib Require ListSet Permutation.
Import ListNotations.

Set Implicit Arguments.

(** ** Python helpers *)

Module Py.

Definition Qltb (a b : Q) : bool := negb (Qle_bool b a).
Definition Qgtb (a b : Q) : bool := Qltb b a.

(** [min(a, b)] and [max(a, b)] of Python: the first argument wins ties. *)
Definition min (a b : Q) : Q := if Qltb b a then b else a.
Definition max (a b : Q) : Q := if Qgtb b a then b else a.

(** Truthiness of an optional string ([None] and [""] are falsy). *)
Definition truthy (o : option string) : bool :=
  match o with
  | Some s => negb (String.eqb s EmptyString)
  | None => false
  end.

Fixpoint assoc {A : Type} (k : Z) (l : list (Z * A)) : option A :=
  match l with
  | [] => None
  | (k', v) :: tl => if Z.eqb k k' then Some v else assoc k tl
  end.

End Py.

(** ** motion/MotionGamePad.py *)

Module MotionGamePad.

Definition DEFAULT_SPEED_MODIFIER_INIT : Q := 5 # 10.
Definition MIN_SPEED_MODIFIER_LIMIT : Q := 1 # 10.
Definition MAX_SPEED_MODIFIER_LIMIT : Q := 1.
Definition SPEED_MODIFIER_INCREMENT_STEP : Q := 1 # 10.
Definition JOYSTICK_DEADZONE : Q := 8 # 100.
(** The literal [0.001] of the velocity comparisons. *)
Definition VELOCITY_EPSILON : Q := 1 # 1000.

(** The gamepad payload, as validated by [Messages.deserialize_client_message]. *)
Record stick := { x : Q; y : Q }.
Record dpad := { up : bool; down : bool; left : bool; right : bool }.
Record buttons := { btn_a : bool; btn_b : bool; btn_x : bool; btn_y : bool }.
Record stick_buttons := { l3_pressed : bool; r3_pressed : bool }.
Record payload := {
  left_stick : stick;
  right_stick : stick;
  dpad_events : dpad;
  action_button_events : buttons;
  stick_button_states : stick_buttons
}.

Record velocities := { vx : Q; vy : Q; vtheta : Q }.
Definition zero_velocities : velocities := {| vx := 0; vy := 0; vtheta := 0 |}.

(** Calls on the [RobotHardwareController] and on the
    [AnimationSpeechController]. *)
Inductive call :=
| set_base_velocities (v : velocities)
| trigger_hardware_emergency_stop
| initialize_robot
| release_robot
| play_local_animation_by_category (category : string) (name : option string)
| play_standard_animation_by_tag (tag : string)
| say_text_with_embedded_standard_animations (text : string).

(** A call together with the value of [_emergency_stop_active_flag] at the
    moment it is made. *)
Record emission := { at_estop_flag : bool; made : call }.

(** One entry of [gamepad_anim_config[layer][button]]: the keys read by
    [_process_action_button_events].  A dict with none of them is falsy. *)
Record action_config := {
  cfg_type : option string;
  cfg_category : option string;
  cfg_name : option string;
  cfg_tag : option string;
  cfg_text : option string
}.

Inductive button_key := key_a | key_b | key_x | key_y.

Definition layer_config := list (button_key * action_config).

Definition button_key_eqb (k1 k2 : button_key) : bool :=
  match k1, k2 with
  | key_a, key_a | key_b, key_b | key_x, key_x | key_y, key_y => true
  | _, _ => false
  end.

Fixpoint layer_get (k : button_key) (l : layer_config) : option action_config :=
  match l with
  | [] => None
  | (k', c) :: tl => if button_key_eqb k k' then Some c else layer_get k tl
  end.

(** Program counter of the worker thread running [_processing_loop]. *)
Inductive loop_pc :=
| at_loop_head      (* about to test [_run_processing_flag] *)
| waiting_for_data. (* blocked in [_new_data_event.wait(timeout=...)] *)

Record t := {
  asc_available : bool;
  gamepad_anim_config : list (Z * layer_config);
  latest_gamepad_payload : option payload;
  new_data_event : bool;
  processing_thread : option loop_pc;
  run_processing_flag : bool;
  emergency_stop_active_flag : bool;
  current_speed_modifier : Q;
  num_animation_layers : Z;
  current_animation_layer : Z;
  prev_dpad_events : dpad;
  prev_action_button_events : buttons;
  last_sent_velocities : velocities
}.

Definition set_payload (p : option payload) (s : t) : t :=
  {| asc_available := asc_available s;
     gamepad_anim_config := gamepad_anim_config s;
     latest_gamepad_payload := p;
     new_data_event := new_data_event s;
     processing_thread := processing_thread s;
     run_processing_flag := run_processing_flag s;
     emergency_stop_active_flag := emergency_stop_active_flag s;
     current_speed_modifier := current_speed_modifier s;
     num_animation_layers := num_animation_layers s;
     current_animation_layer := current_animation_layer s;
     prev_dpad_events := prev_dpad_events s;
     prev_action_button_events := prev_action_button_events s;
     last_sent_velocities := last_sent_velocities s |}.

Definition set_event (b : bool) (s : t) : t :=
  {| asc_available := asc_available s;
     gamepad_anim_config := gamepad_anim_config s;
     latest_gamepad_payload := latest_gamepad_payload s;
     new_data_event := b;
     processing_thread := processing_thread s;
     run_processing_flag := run_processing_flag s;
     emergency_stop_active_flag := emergency_stop_active_flag s;
     current_speed_modifier := current_speed_modifier s;
     num_animation_layers := num_animation_layers s;
     current_animation_layer := current_animation_layer s;
     prev_dpad_events := prev_dpad_events s;
     prev_action_button_events := prev_action_button_events s;
     last_sent_velocities := last_sent_velocities s |}.

Definition set_thread (th : option loop_pc) (s : t) : t :=
  {| asc_available := asc_available s;
     gamepad_anim_config := gamepad_anim_config s;
     latest_gamepad_payload := latest_gamepad_payload s;
     new_data_event := new_data_event s;
     processing_thread := th;
     run_processing_flag := run_processing_flag s;
     emergency_stop_active_flag := emergency_stop_active_flag s;
     current_speed_modifier := current_speed_modifier s;
     num_animation_layers := num_animation_layers s;
     current_animation_layer := current_animation_layer s;
     prev_dpad_events := prev_dpad_events s;
     prev_action_button_events := prev_action_button_events s;
     last_sent_velocities := last_sent_velocities s |}.

Definition set_run (b : bool) (s : t) : t :=
  {| asc_available := asc_available s;
     gamepad_anim_config := gamepad_anim_config s;
     latest_gamepad_payload := latest_gamepad_payload s;
     new_data_event := new_data_event s;
     processing_thread := processing_thread s;
     run_processing_flag := b;
     emergency_stop_active_flag := emergency_stop_active_flag s;
     current_speed_modifier := current_speed_modifier s;
     num_animation_layers := num_animation_layers s;
     current_animation_layer := current_animation_layer s;
     prev_dpad_events := prev_dpad_events s;
     prev_action_button_events := prev_action_button_events s;
     last_sent_velocities := last_sent_velocities s |}.

Definition set_estop (b : bool) (s : t) : t :=
  {| asc_available := asc_available s;
     gamepad_anim_config := gamepad_anim_config s;
     latest_gamepad_payload := latest_gamepad_payload s;
     new_data_event := new_data_event s;
     processing_thread := processing_thread s;
     run_processing_flag := run_processing_flag s;
     emergency_stop_active_flag := b;
     current_speed_modifier := current_speed_modifier s;
     num_animation_layers := num_animation_layers s;
     current_animation_layer := current_animation_layer s;
     prev_dpad_events := prev_dpad_events s;
     prev_action_button_events := prev_action_button_events s;
     last_sent_velocities := last_sent_velocities s |}.

Definition set_speed (m : Q) (s : t) : t :=
  {| asc_available := asc_available s;
     gamepad_anim_config := gamepad_anim_config s;
     latest_gamepad_payload := latest_gamepad_payload s;
     new_data_event := new_data_event s;
     processing_thread := processing_thread s;
     run_processing_flag := run_processing_flag s;
     emergency_stop_active_flag := emergency_stop_active_flag s;
     current_speed_modifier := m;
     num_animation_layers := num_animation_layers s;
     current_animation_layer := current_animation_layer s;
     prev_dpad_events := prev_dpad_events s;
     prev_action_button_events := prev_action_button_events s;
     last_sent_velocities := last_sent_velocities s |}.

Definition set_layer (l : Z) (s : t) : t :=
  {| asc_available := asc_available s;
     gamepad_anim_config := gamepad_anim_config s;
     latest_gamepad_payload := latest_gamepad_payload s;
     new_data_event := new_data_event s;
     processing_thread := processing_thread s;
     run_processing_flag := run_processing_flag s;
     emergency_stop_active_flag := emergency_stop_active_flag s;
     current_speed_modifier := current_speed_modifier s;
     num_animation_layers := num_animation_layers s;
     current_animation_layer := l;
     prev_dpad_events := prev_dpad_events s;
     prev_action_button_events := prev_action_button_events s;
     last_sent_velocities := last_sent_velocities s |}.

Definition set_prev_dpad (d : dpad) (s : t) : t :=
  {| asc_available := asc_available s;
     gamepad_anim_config := gamepad_anim_config s;
     latest_gamepad_payload := latest_gamepad_payload s;
     new_data_event := new_data_event s;
     processing_thread := processing_thread s;
     run_processing_flag := run_processing_flag s;
     emergency_stop_active_flag := emergency_stop_active_flag s;
     current_speed_modifier := current_speed_modifier s;
     num_animation_layers := num_animation_layers s;
     current_animation_layer := current_animation_layer s;
     prev_dpad_events := d;
     prev_action_button_events := prev_action_button_events s;
     last_sent_velocities := last_sent_velocities s |}.

Definition set_prev_actions (b : buttons) (s : t) : t :=
  {| asc_available := asc_available s;
     gamepad_anim_config := gamepad_anim_config s;
     latest_gamepad_payload := latest_gamepad_payload s;
     new_data_event := new_data_event s;
     processing_thread := processing_thread s;
     run_processing_flag := run_processing_flag s;
     emergency_stop_active_flag := emergency_stop_active_flag s;
     current_speed_modifier := current_speed_modifier s;
     num_animation_layers := num_animation_layers s;
     current_animation_layer := current_animation_layer s;
     prev_dpad_events := prev_dpad_events s;
     prev_action_button_events := b;
     last_sent_velocities := last_sent_velocities s |}.

Definition set_last_sent (v : velocities) (s : t) : t :=
  {| asc_available := asc_available s;
     gamepad_anim_config := gamepad_anim_config s;
     latest_gamepad_payload := latest_gamepad_payload s;
     new_data_event := new_data_event s;
     processing_thread := processing_thread s;
     run_processing_flag := run_processing_flag s;
     emergency_stop_active_flag := emergency_stop_active_flag s;
     current_speed_modifier := current_speed_modifier s;
     num_animation_layers := num_animation_layers s;
     current_animation_layer := current_animation_layer s;
     prev_dpad_events := prev_dpad_events s;
     prev_action_button_events := prev_action_button_events s;
     last_sent_velocities := v |}.

(** A call made in state [s], stamped with the flag it sees. *)
Definition emit (s : t) (c : call) : emission :=
  {| at_estop_flag := emergency_stop_active_flag s; made := c |}.

Definition clamp_speed (m : Q) : Q :=
  Py.max MIN_SPEED_MODIFIER_LIMIT (Py.min MAX_SPEED_MODIFIER_LIMIT m).

(** [__init__] *)
Definition init (asc : bool) (config : list (Z * layer_config))
    (default_animation_layer : Z) (initial_speed_modifier : Q) : t :=
  let n := Z.of_nat (List.length config) in
  {| asc_available := asc;
     gamepad_anim_config := config;
     latest_gamepad_payload := None;
     new_data_event := false;
     processing_thread := None;
     run_processing_flag := false;
     emergency_stop_active_flag := false;
     current_speed_modifier := clamp_speed initial_speed_modifier;
     num_animation_layers := n;
     current_animation_layer :=
       if Z.eqb n 0 then 0%Z
       else if (0 <=? default_animation_layer)%Z && (default_animation_layer <? n)%Z
            then default_animation_layer else 0%Z;
     prev_dpad_events := {| up := false; down := false; left := false; right := false |};
     prev_action_button_events :=
       {| btn_a := false; btn_b := false; btn_x := false; btn_y := false |};
     last_sent_velocities := zero_velocities |}.

(** [update_gamepad_state] *)
Definition update_gamepad_state (gamepad_payload : payload) (s : t) : t :=
  if emergency_stop_active_flag s then s
  else set_event true (set_payload (Some gamepad_payload) s).

(** [trigger_emergency_stop] *)
Definition trigger_emergency_stop (s : t) : t * list emission :=
  let s1 := set_estop true s in
  let s2 := set_payload None s1 in
  let s3 := set_event true s2 in
  let e1 := emit s3 trigger_hardware_emergency_stop in
  let s4 := set_last_sent zero_velocities s3 in
  let e2 := emit s4 (set_base_velocities zero_velocities) in
  (s4, [e1; e2]).

(** [clear_emergency_stop] *)
Definition clear_emergency_stop (s : t) : t :=
  set_event false (set_payload None (set_estop false s)).

(** [update_speed_factor_from_global] *)
Definition update_speed_factor_from_global (global_speed_factor : Q) (s : t) : t :=
  set_speed (clamp_speed global_speed_factor) s.

(** Rising edge of one button against the previously stored state. *)
Definition rising (now before : bool) : bool := now && negb before.

(** [_process_dpad_events] *)
Definition process_dpad_events (d : dpad) (s : t) : t :=
  let prev := prev_dpad_events s in
  let s1 :=
    if rising (up d) (up prev)
    then set_speed (Py.min MAX_SPEED_MODIFIER_LIMIT
                      (current_speed_modifier s + SPEED_MODIFIER_INCREMENT_STEP)) s
    else s in
  let s2 :=
    if rising (down d) (down prev)
    then set_speed (Py.max MIN_SPEED_MODIFIER_LIMIT
                      (current_speed_modifier s1 - SPEED_MODIFIER_INCREMENT_STEP)) s1
    else s1 in
  let n := num_animation_layers s2 in
  let s3 :=
    if (0 <? n)%Z then
      let s_l :=
        if rising (left d) (left prev)
        then set_layer ((current_animation_layer s2 - 1 + n) mod n)%Z s2
        else s2 in
      if rising (right d) (right prev)
      then set_layer ((current_animation_layer s_l + 1) mod n)%Z s_l
      else s_l
    else s2 in
  set_prev_dpad d s3.

Definition is_none_type (c : action_config) : bool :=
  match cfg_type c with
  | Some ty => String.eqb ty "none"
  | None => false
  end.

Definition type_is (c : action_config) (name : string) : bool :=
  match cfg_type c with
  | Some ty => String.eqb ty name
  | None => false
  end.

Definition empty_dict (c : action_config) : bool :=
  match cfg_type c, cfg_category c, cfg_name c, cfg_tag c, cfg_text c with
  | None, None, None, None, None => true
  | _, _, _, _, _ => false
  end.

(** The body of the [for btn_key in ["a", "b", "x", "y"]] loop for a button
    whose rising edge was detected. *)
Definition dispatch_action (c : option action_config) : list call :=
  match c with
  | None => []
  | Some cfg =>
      if empty_dict cfg then []
      else if is_none_type cfg then []
      else if type_is cfg "local_anim" then
        match cfg_category cfg with
        | Some cat => if Py.truthy (Some cat)
                      then [play_local_animation_by_category cat (cfg_name cfg)]
                      else []
        | None => []
        end
      else if type_is cfg "standard_tag" then
        match cfg_tag cfg with
        | Some tag => if Py.truthy (Some tag)
                      then [play_standard_animation_by_tag tag] else []
        | None => []
        end
      else if type_is cfg "speak_annotated" then
        match cfg_text cfg with
        | Some txt => if Py.truthy (Some txt)
                      then [say_text_with_embedded_standard_animations txt] else []
        | None => []
        end
      else []
  end.

Definition pressed (k : button_key) (b : buttons) : bool :=
  match k with
  | key_a => btn_a b
  | key_b => btn_b b
  | key_x => btn_x b
  | key_y => btn_y b
  end.

(** [_process_action_button_events] *)
Definition process_action_button_events (b : buttons) (s : t) : t * list emission :=
  let done := set_prev_actions b s in
  if negb (asc_available s) then (done, [])
  else if match gamepad_anim_config s with [] => true | _ => false end
          || Z.eqb (num_animation_layers s) 0 then (done, [])
  else
    match Py.assoc (current_animation_layer s) (gamepad_anim_config s) with
    | None => (done, [])
    | Some [] => (done, [])
    | Some current_layer_config =>
        let calls :=
          flat_map
            (fun k =>
               if rising (pressed k b) (pressed k (prev_action_button_events s))
               then dispatch_action (layer_get k current_layer_config)
               else [])
            [key_a; key_b; key_x; key_y] in
        (done, map (emit s) calls)
    end.

Definition above_eps (q : Q) : bool := Py.Qgtb (Qabs q) VELOCITY_EPSILON.
Definition below_eps (q : Q) : bool := Py.Qltb (Qabs q) VELOCITY_EPSILON.

(** [any(abs(v) > 0.001 for v in self._last_sent_velocities.values())] *)
Definition any_above_eps (v : velocities) : bool :=
  above_eps (vx v) || above_eps (vy v) || above_eps (vtheta v).

(** [all(abs(v) < 0.001 for v in self._last_sent_velocities.values())] *)
Definition all_below_eps (v : velocities) : bool :=
  below_eps (vx v) && below_eps (vy v) && below_eps (vtheta v).

Definition apply_deadzone (value raw : Q) : Q :=
  if Py.Qgtb (Qabs raw) JOYSTICK_DEADZONE then value else 0.

(** The velocity triple computed from the sticks of a payload. *)
Definition target_velocities (p : payload) (speed : Q) : velocities :=
  let raw_ly := y (left_stick p) in
  let raw_lx := x (left_stick p) in
  let raw_rx := x (right_stick p) in
  let vx_in := raw_ly in
  let vy_in := - raw_lx in
  let vtheta_in := - raw_rx in
  {| vx := apply_deadzone vx_in raw_ly * speed;
     vy := apply_deadzone vy_in raw_lx * speed;
     vtheta := apply_deadzone vtheta_in raw_rx * speed |}.

Definition should_send_velocities (target last : velocities) : bool :=
  if above_eps (vx target - vx last)
     || above_eps (vy target - vy last)
     || above_eps (vtheta target - vtheta last)
  then true
  else any_above_eps target && all_below_eps last.

(** The [if current_payload:] branch of [_processing_loop]. *)
Definition process_payload (p : payload) (s : t) : t * list emission :=
  let s1 := process_dpad_events (dpad_events p) s in
  let (s2, asc_calls) := process_action_button_events (action_button_events p) s1 in
  let target := target_velocities p (current_speed_modifier s2) in
  if should_send_velocities target (last_sent_velocities s2)
  then (set_last_sent target s2, asc_calls ++ [emit s2 (set_base_velocities target)])
  else (s2, asc_calls).

(** The [else] branch of [_processing_loop]: no payload to process. *)
Definition dead_man (s : t) : t * list emission :=
  if negb (emergency_stop_active_flag s) && any_above_eps (last_sent_velocities s)
  then (set_last_sent zero_velocities s, [emit s (set_base_velocities zero_velocities)])
  else (s, []).

(** One atomic step of the worker thread running [_processing_loop].
    [timeout_elapsed] says whether [GAMEPAD_DATA_TIMEOUT_SEC] has passed
    since the thread started waiting; it is only consulted when the event
    is not set. *)
Definition loop_step (timeout_elapsed : bool) (s : t) : t * list emission :=
  match processing_thread s with
  | None => (s, [])
  | Some at_loop_head =>
      if negb (run_processing_flag s) then
        (set_thread None s,
         if emergency_stop_active_flag s then []
         else [emit s (set_base_velocities zero_velocities)])
      else if emergency_stop_active_flag s then
        if any_above_eps (last_sent_velocities s)
        then (set_last_sent zero_velocities s,
              [emit s (set_base_velocities zero_velocities)])
        else (s, [])
      else (set_thread (Some waiting_for_data) s, [])
  | Some waiting_for_data =>
      if new_data_event s then
        let current_payload := latest_gamepad_payload s in
        let s1 := set_thread (Some at_loop_head)
                    (set_payload None (set_event false s)) in
        match current_payload with
        | Some p => process_payload p s1
        | None => dead_man s1
        end
      else if timeout_elapsed then dead_man (set_thread (Some at_loop_head) s)
      else (s, [])
  end.

(** [start_processing]; [init_ok] is the result of
    [robot_hw.initialize_robot()]. *)
Definition start_processing (init_ok : bool) (s : t) : t * list emission * bool :=
  match processing_thread s with
  | Some _ => (s, [], true)
  | None =>
      let e := emit s initialize_robot in
      if negb init_ok then (s, [e], false)
      else
        let s1 := set_run true s in
        let s2 := set_estop false s1 in
        let s3 := set_event false s2 in
        let s4 := set_payload None s3 in
        (set_thread (Some at_loop_head) s4, [e], true)
  end.

(** [_processing_thread.join(...)]: the worker runs until it leaves the loop. *)
Definition join (s : t) : t * list emission :=
  match processing_thread s with
  | None => (s, [])
  | Some at_loop_head => loop_step false s
  | Some waiting_for_data =>
      let (s1, e1) := loop_step false s in
      let (s2, e2) := loop_step false s1 in
      (s2, e1 ++ e2)
  end.

(** [stop_processing] *)
Definition stop_processing (emergency_stop_invoked : bool) (s : t) : t * list emission :=
  let s1 := set_event true (set_run false s) in
  let (s2, e) := join s1 in
  let s3 := set_thread None s2 in
  if negb emergency_stop_invoked then (s3, e ++ [emit s3 release_robot])
  else (s3, e).

End MotionGamePad.

(** ** MotionManager.py *)

Module MotionManager.

Inductive control_mode := idle | gamepad | emergency_stopped.

Definition mode_eqb (m1 m2 : control_mode) : bool :=
  match m1, m2 with
  | idle, idle | gamepad, gamepad | emergency_stopped, emergency_stopped => true
  | _, _ => false
  end.

Record t := {
  gamepad_controller : MotionGamePad.t;
  global_speed_factor : Q;
  current_control_mode : control_mode
}.

(** A collaborator call stamped with [_current_control_mode] at call time. *)
Record emission := { at_mode : control_mode; sent : MotionGamePad.emission }.

Definition stamp (m : control_mode) (l : list MotionGamePad.emission) : list emission :=
  map (fun e => {| at_mode := m; sent := e |}) l.

Definition set_mode (m : control_mode) (s : t) : t :=
  {| gamepad_controller := gamepad_controller s;
     global_speed_factor := global_speed_factor s;
     current_control_mode := m |}.

Definition set_controller (c : MotionGamePad.t) (s : t) : t :=
  {| gamepad_controller := c;
     global_speed_factor := global_speed_factor s;
     current_control_mode := current_control_mode s |}.

(** [__init__] *)
Definition init (asc : bool) (config : list (Z * MotionGamePad.layer_config))
    (default_gamepad_animation_layer : Z) (initial_gamepad_speed_modifier : Q) : t :=
  {| gamepad_controller :=
       MotionGamePad.init asc config default_gamepad_animation_layer
         initial_gamepad_speed_modifier;
     global_speed_factor := 1;
     current_control_mode := idle |}.

(** [set_global_speed_factor] *)
Definition set_global_speed_factor (factor : Q) (s : t) : t :=
  if Qle_bool (1 # 10) factor && Qle_bool factor 1 then
    {| gamepad_controller :=
         MotionGamePad.update_speed_factor_from_global factor (gamepad_controller s);
       global_speed_factor := factor;
       current_control_mode := current_control_mode s |}
  else s.

(** [activate_gamepad_control] *)
Definition activate_gamepad_control (init_ok : bool) (s : t) : t * list emission * bool :=
  if mode_eqb (current_control_mode s) gamepad then (s, [], true)
  else
    let c1 := MotionGamePad.clear_emergency_stop (gamepad_controller s) in
    let '(c2, out, started) := MotionGamePad.start_processing init_ok c1 in
    let s2 := set_controller c2 s in
    if started then (set_mode gamepad s2, stamp (current_control_mode s) out, true)
    else (set_mode idle s2, stamp (current_control_mode s) out, false).

(** [deactivate_gamepad_control] *)
Definition deactivate_gamepad_control (called_by_emergency_stop : bool) (s : t)
  : t * list emission :=
  if mode_eqb (current_control_mode s) gamepad
     || mode_eqb (current_control_mode s) emergency_stopped then
    let (c, out) :=
      MotionGamePad.stop_processing called_by_emergency_stop (gamepad_controller s) in
    let s1 := set_controller c s in
    let s2 :=
      if negb (called_by_emergency_stop
               && mode_eqb (current_control_mode s1) emergency_stopped)
      then set_mode idle s1 else s1 in
    (s2, stamp (current_control_mode s) out)
  else (s, []).

(** [_trigger_internal_emergency_stop] *)
Definition trigger_internal_emergency_stop (s : t) : t * list emission :=
  if negb (mode_eqb (current_control_mode s) emergency_stopped) then
    let s1 := set_mode emergency_stopped s in
    let (c, out) := MotionGamePad.trigger_emergency_stop (gamepad_controller s1) in
    (set_controller c s1, stamp (current_control_mode s1) out)
  else (s, []).

(** [_clear_internal_emergency_stop] *)
Definition clear_internal_emergency_stop (s : t) : t :=
  if mode_eqb (current_control_mode s) emergency_stopped then
    set_mode gamepad
      (set_controller (MotionGamePad.clear_emergency_stop (gamepad_controller s)) s)
  else s.

(** [_handle_gamepad_payload_from_tablet] *)
Definition handle_gamepad_payload_from_tablet (p : MotionGamePad.payload) (s : t)
  : t * list emission :=
  let l3_pressed := MotionGamePad.l3_pressed (MotionGamePad.stick_button_states p) in
  let r3_pressed := MotionGamePad.r3_pressed (MotionGamePad.stick_button_states p) in
  if (l3_pressed || r3_pressed)
     && negb (mode_eqb (current_control_mode s) emergency_stopped)
  then trigger_internal_emergency_stop s
  else
    let s1 :=
      if mode_eqb (current_control_mode s) emergency_stopped
         && negb (l3_pressed || r3_pressed)
      then clear_internal_emergency_stop s else s in
    if mode_eqb (current_control_mode s1) gamepad then
      (set_controller (MotionGamePad.update_gamepad_state p (gamepad_controller s1)) s1,
       [])
    else (s1, []).

(** [_handle_gamepad_emergency_stop_event] *)
Definition handle_gamepad_emergency_stop_event (s : t) : t * list emission :=
  trigger_internal_emergency_stop s.

(** What can happen to the motion subsystem: calls of the orchestrator and
    the tablet gateway, and steps of the worker thread. *)
Inductive event :=
| Payload (p : MotionGamePad.payload)
| EmergencyStopEvent
| Activate (init_ok : bool)
| Deactivate (called_by_emergency_stop : bool)
| SetGlobalSpeedFactor (factor : Q)
| WorkerStep (timeout_elapsed : bool).

Definition step (ev : event) (s : t) : t * list emission :=
  match ev with
  | Payload p => handle_gamepad_payload_from_tablet p s
  | EmergencyStopEvent => handle_gamepad_emergency_stop_event s
  | Activate init_ok =>
      let '(s', out, _) := activate_gamepad_control init_ok s in (s', out)
  | Deactivate by_estop => deactivate_gamepad_control by_estop s
  | SetGlobalSpeedFactor f => (set_global_speed_factor f s, [])
  | WorkerStep timeout_elapsed =>
      let (c, out) := MotionGamePad.loop_step timeout_elapsed (gamepad_controller s) in
      (set_controller c s, stamp (current_control_mode s) out)
  end.

Fixpoint run (evs : list event) (s : t) : t * list emission :=
  match evs with
  | [] => (s, [])
  | ev :: rest =>
      let (s1, out1) := step ev s in
      let (s2, out2) := run rest s1 in
      (s2, out1 ++ out2)
  end.

(** The velocity triples sent to the hardware controller, in order. *)
Definition emitted_velocities (out : list emission) : list MotionGamePad.velocities :=
  flat_map (fun e => match MotionGamePad.made (sent e) with
                     | MotionGamePad.set_base_velocities v => [v]
                     | _ => []
                     end) out.

End MotionManager.

(** ** tabletserver/Messages.py *)

Module Messages.

Local Open Scope string_scope.

(** A value produced by [json.loads].  Objects are Python dicts: the list
    holds their items, one per key. *)
#[local] Unset Elimination Schemes.
Inductive json :=
| JNull
| JBool (b : bool)
| JInt (n : Z)
| JFloat (q : Q)
| JStr (s : string)
| JArr (items : list json)
| JObj (fields : list (string * json)).
#[local] Set Elimination Schemes.

Definition dict := list (string * json).

Definition MSG_TYPE_INPUT := "input".
Definition MSG_TYPE_OUTPUT := "output".
Definition MSG_TYPE_SYSTEM := "system".
Definition MSG_TYPE_CONFIG := "config".
Definition MSG_TYPE_CURRENT_CONFIGURATION := "currentConfiguration".
Definition MSG_TYPE_CONFIG_CONFIRMATION := "config_confirmation".
Definition MSG_TYPE_PARTIAL_STT_RESULT := "partial_stt_result".
Definition MSG_TYPE_GAMEPAD_STATE := "gamepad_state".

(** [d.get(key)] *)
Fixpoint get (key : string) (d : dict) : option json :=
  match d with
  | [] => None
  | (k, v) :: tl => if String.eqb key k then Some v else get key tl
  end.

(** [key in d] *)
Definition contains (key : string) (d : dict) : bool :=
  match get key d with Some _ => true | None => false end.

Definition isinstance_str (v : option json) : bool :=
  match v with Some (JStr _) => true | _ => false end.

(** [isinstance(v, (int, float))]; [bool] is a subclass of [int]. *)
Definition isinstance_number (v : option json) : bool :=
  match v with
  | Some (JInt _) | Some (JFloat _) | Some (JBool _) => true
  | _ => false
  end.

Definition isinstance_bool (v : option json) : bool :=
  match v with Some (JBool _) => true | _ => false end.

(** The outcome of a function that raises [ValueError]. *)
Inductive checked (A : Type) :=
| Ok (a : A)
| ValueError (message : string).
Arguments Ok {A} a.
Arguments ValueError {A} message.

Definition bind {A B : Type} (c : checked A) (k : A -> checked B) : checked B :=
  match c with
  | Ok a => k a
  | ValueError m => ValueError m
  end.

Notation "'do' x <- c ;; k" := (bind c (fun x => k))
  (at level 10, x name, c at level 100, k at level 200).

(** [str(l)] for a list of strings, as an f-string prints it. *)
Fixpoint repr_items (l : list string) : string :=
  match l with
  | [] => ""
  | [k] => "'" ++ k ++ "'"
  | k :: tl => "'" ++ k ++ "', " ++ repr_items tl
  end.

Definition repr_list (l : list string) : string := "[" ++ repr_items l ++ "]".

(** [_is_valid_joystick_object] *)
Definition is_valid_joystick_object (stick_obj : option json) (stick_name : string)
  : checked bool :=
  match stick_obj with
  | Some (JObj d) =>
      if negb (forallb (fun key => contains key d) ["x"; "y"])
      then ValueError ("'" ++ stick_name ++ "' debe contener las claves 'x' e 'y'.")
      else if negb (isinstance_number (get "x" d))
              || negb (isinstance_number (get "y" d))
      then ValueError ("Los valores 'x' e 'y' de '" ++ stick_name
                       ++ "' deben ser numericos.")
      else Ok true
  | _ => ValueError ("'" ++ stick_name ++ "' debe ser un objeto (diccionario).")
  end.

(** [_is_valid_button_object] *)
Definition is_valid_button_object (button_obj : option json)
    (button_group_name : string) (expected_keys : list string) : checked bool :=
  match button_obj with
  | Some (JObj d) =>
      if negb (forallb (fun key => contains key d) expected_keys) then
        let missing_keys := filter (fun k => negb (contains k d)) expected_keys in
        ValueError ("A '" ++ button_group_name ++ "' le faltan las claves: "
                    ++ repr_list missing_keys ++ ".")
      else if negb (forallb (fun key => isinstance_bool (get key d)) expected_keys) then
        let non_bool_keys :=
          filter (fun k => negb (isinstance_bool (get k d))) expected_keys in
        ValueError ("Los valores en '" ++ button_group_name
                    ++ "' deben ser booleanos. Claves no booleanas: "
                    ++ repr_list non_bool_keys ++ ".")
      else Ok true
  | _ => ValueError ("'" ++ button_group_name ++ "' debe ser un objeto (diccionario).")
  end.

(** The [for key in required_top_level_keys] loop. *)
Fixpoint check_required_keys (keys : list string) (payload : dict) : checked unit :=
  match keys with
  | [] => Ok tt
  | key :: rest =>
      if negb (contains key payload)
      then ValueError ("Mensaje '" ++ MSG_TYPE_GAMEPAD_STATE
                       ++ "' invalido: 'payload." ++ key ++ "' es faltante.")
      else check_required_keys rest payload
  end.

(** The [try] block of the gamepad validation with its [except ValueError]. *)
Definition validate_gamepad_groups (payload : dict) : checked unit :=
  let body :=
    do _ <- is_valid_joystick_object (get "left_stick" payload) "payload.left_stick" ;;
    do _ <- is_valid_joystick_object (get "right_stick" payload) "payload.right_stick" ;;
    do _ <- is_valid_button_object (get "dpad_events" payload) "payload.dpad_events"
              ["up"; "down"; "left"; "right"] ;;
    do _ <- is_valid_button_object (get "action_button_events" payload)
              "payload.action_button_events" ["a"; "b"; "x"; "y"] ;;
    do _ <- is_valid_button_object (get "stick_button_states" payload)
              "payload.stick_button_states" ["l3_pressed"; "r3_pressed"] ;;
    Ok tt in
  match body with
  | Ok u => Ok u
  | ValueError e_val =>
      ValueError ("El payload del mensaje '" ++ MSG_TYPE_GAMEPAD_STATE
                  ++ "' es invalido: " ++ e_val)
  end.

(** What [json.loads] did with the text frame. *)
Inductive loaded :=
| JSONDecodeError (e : string)
| Loaded (message : json).

Definition needs_dict_payload (msg_type : string) : bool :=
  String.eqb msg_type MSG_TYPE_INPUT
  || String.eqb msg_type MSG_TYPE_CONFIG
  || String.eqb msg_type MSG_TYPE_GAMEPAD_STATE.

(** The check that [payload] is a dict, made for the three types that need
    one; the result is the dict read by the type-specific checks. *)
Definition check_payload (msg_type : string) (payload : option json) : checked dict :=
  if needs_dict_payload msg_type then
    match payload with
    | None | Some JNull =>
        ValueError ("El mensaje JSON es invalido: 'payload' es faltante para el tipo '"
                    ++ msg_type ++ "'.")
    | Some (JObj d) => Ok d
    | Some _ =>
        ValueError ("El mensaje JSON es invalido: 'payload' no es un objeto "
                    ++ "(diccionario) para el tipo '" ++ msg_type ++ "'.")
    end
  else Ok [].

(** [deserialize_client_message], applied to the result of [json.loads]. *)
Definition deserialize_client_message (json_string : loaded) : checked dict :=
  match json_string with
  | JSONDecodeError e =>
      ValueError ("El mensaje recibido no es un JSON valido: " ++ e)
  | Loaded (JObj message) =>
      let msg_type := get "type" message in
      let payload := get "payload" message in
      match msg_type with
      | Some (JStr ty) =>
          if String.eqb ty "" then
            ValueError "El mensaje JSON es invalido: la clave 'type' es faltante o no es un string."
          else
            do d <- check_payload ty payload ;;
            if String.eqb ty MSG_TYPE_INPUT then
              if negb (contains "text" d) || negb (isinstance_str (get "text" d))
              then ValueError ("Mensaje '" ++ MSG_TYPE_INPUT
                               ++ "' invalido: 'payload.text' es faltante o no es un string.")
              else Ok message
            else if String.eqb ty MSG_TYPE_CONFIG then
              if negb (contains "config_item" d)
                 || negb (isinstance_str (get "config_item" d))
              then ValueError ("Mensaje '" ++ MSG_TYPE_CONFIG
                               ++ "' invalido: 'payload.config_item' es faltante o no es un string.")
              else if negb (contains "value" d)
              then ValueError ("Mensaje '" ++ MSG_TYPE_CONFIG
                               ++ "' invalido: 'payload.value' es faltante.")
              else Ok message
            else if String.eqb ty MSG_TYPE_GAMEPAD_STATE then
              do _ <- check_required_keys
                        ["left_stick"; "right_stick"; "dpad_events";
                         "action_button_events"; "stick_button_states"] d ;;
              do _ <- validate_gamepad_groups d ;;
              Ok message
            else Ok message
      | _ =>
          ValueError "El mensaje JSON es invalido: la clave 'type' es faltante o no es un string."
      end
  | Loaded _ => ValueError "El mensaje JSON debe ser un objeto (diccionario)."
  end.

(** A frame built by one of the [craft_*] functions (the timestamp, read
    from the clock, is left out). *)
Inductive server_frame :=
| system_message (sender_name level text : string)
| other_frame (msg_type : string).

(** [craft_system_message] *)
Definition craft_system_message (sender_name level text : string) : server_frame :=
  system_message sender_name level text.

End Messages.

(** ** TabletInterface.py and tabletserver/Endpoints.py *)

Module TabletInterface.

Local Open Scope string_scope.

(** A connected web socket. *)
Definition client := nat.

(** What the gateway does in response to a frame: text sent on one web
    socket, and tasks created for the installed callbacks. *)
Inductive action :=
| send_text (to : client) (frame : Messages.server_frame)
| on_input_received (payload : option Messages.json)
| on_config_received (payload : option Messages.json)
| on_gamepad_payload_received (payload : option Messages.json)
| on_gamepad_emergency_stop.

(** Which callbacks the orchestrator has installed. *)
Record t := {
  has_on_input_received : bool;
  has_on_config_received : bool;
  has_on_gamepad_payload_received : bool;
  has_on_gamepad_emergency_stop : bool
}.

(** [stick_buttons.get(name, False)], as a truth value. *)
Definition button_asserted (name : string) (stick_buttons : Messages.dict) : bool :=
  match Messages.get name stick_buttons with
  | None => false
  | Some (Messages.JBool b) => b
  | Some Messages.JNull => false
  | Some (Messages.JInt n) => negb (Z.eqb n 0)
  | Some (Messages.JFloat q) => negb (Qeq_bool q 0)
  | Some (Messages.JStr s) => negb (String.eqb s "")
  | Some (Messages.JArr l) => match l with [] => false | _ => true end
  | Some (Messages.JObj d) => match d with [] => false | _ => true end
  end.

(** [payload.get("stick_button_states", {})] *)
Definition stick_buttons_of (payload : option Messages.json) : Messages.dict :=
  match payload with
  | Some (Messages.JObj d) =>
      match Messages.get "stick_button_states" d with
      | Some (Messages.JObj b) => b
      | _ => []
      end
  | _ => []
  end.

(** [handle_client_message] *)
Definition handle_client_message (s : t) (message_type : option Messages.json)
    (payload : option Messages.json) (websocket : client) : list action :=
  match message_type with
  | Some (Messages.JStr ty) =>
      if String.eqb ty Messages.MSG_TYPE_INPUT then
        if has_on_input_received s then [on_input_received payload] else []
      else if String.eqb ty Messages.MSG_TYPE_CONFIG then
        if has_on_config_received s then [on_config_received payload] else []
      else if String.eqb ty Messages.MSG_TYPE_GAMEPAD_STATE then
        let stick_buttons := stick_buttons_of payload in
        if button_asserted "l3_pressed" stick_buttons
           || button_asserted "r3_pressed" stick_buttons
        then if has_on_gamepad_emergency_stop s then [on_gamepad_emergency_stop] else []
        else if has_on_gamepad_payload_received s
             then [on_gamepad_payload_received payload] else []
      else []
  | _ => []
  end.

(** One iteration of the receive loop of [websocket_bidirectional_endpoint]:
    [data_from_client_text] has been received from [websocket]. *)
Definition websocket_receive (s : t) (websocket : client)
    (data_from_client_text : Messages.loaded) : list action :=
  match Messages.deserialize_client_message data_from_client_text with
  | Messages.Ok client_msg_dict =>
      handle_client_message s
        (Messages.get "type" client_msg_dict)
        (Messages.get "payload" client_msg_dict)
        websocket
  | Messages.ValueError e_val =>
      [send_text websocket
         (Messages.craft_system_message "Servidor" "error"
            ("Mensaje con formato invalido: " ++ e_val))]
  end.

(** Reading a validated gamepad payload into the record consumed by the
    motion arbiter. *)
Definition number_of (v : option Messages.json) : Q :=
  match v with
  | Some (Messages.JInt n) => inject_Z n
  | Some (Messages.JFloat q) => q
  | Some (Messages.JBool b) => if b then 1 else 0
  | _ => 0
  end.

Definition bool_of (v : option Messages.json) : bool :=
  match v with
  | Some (Messages.JBool b) => b
  | _ => false
  end.

Definition group (name : string) (payload : Messages.dict) : Messages.dict :=
  match Messages.get name payload with
  | Some (Messages.JObj d) => d
  | _ => []
  end.

Definition gamepad_payload (payload : option Messages.json) : MotionGamePad.payload :=
  let d := match payload with Some (Messages.JObj d) => d | _ => [] end in
  let stick name :=
    {| MotionGamePad.x := number_of (Messages.get "x" (group name d));
       MotionGamePad.y := number_of (Messages.get "y" (group name d)) |} in
  let flag g k := bool_of (Messages.get k (group g d)) in
  {| MotionGamePad.left_stick := stick "left_stick";
     MotionGamePad.right_stick := stick "right_stick";
     MotionGamePad.dpad_events :=
       {| MotionGamePad.up := flag "dpad_events" "up";
          MotionGamePad.down := flag "dpad_events" "down";
          MotionGamePad.left := flag "dpad_events" "left";
          MotionGamePad.right := flag "dpad_events" "right" |};
     MotionGamePad.action_button_events :=
       {| MotionGamePad.btn_a := flag "action_button_events" "a";
          MotionGamePad.btn_b := flag "action_button_events" "b";
          MotionGamePad.btn_x := flag "action_button_events" "x";
          MotionGamePad.btn_y := flag "action_button_events" "y" |};
     MotionGamePad.stick_button_states :=
       {| MotionGamePad.l3_pressed := flag "stick_button_states" "l3_pressed";
          MotionGamePad.r3_pressed := flag "stick_button_states" "r3_pressed" |} |}.

(** The effect of the gateway's actions on the motion arbiter, with the
    callbacks wired as in [SystemComposer._setup_main_callbacks]. *)
Definition deliver (a : action) (m : MotionManager.t)
  : MotionManager.t * list MotionManager.emission :=
  match a with
  | on_gamepad_payload_received payload =>
      MotionManager.handle_gamepad_payload_from_tablet (gamepad_payload payload) m
  | on_gamepad_emergency_stop => MotionManager.handle_gamepad_emergency_stop_event m
  | _ => (m, [])
  end.

Fixpoint deliver_all (l : list action) (m : MotionManager.t)
  : MotionManager.t * list MotionManager.emission :=
  match l with
  | [] => (m, [])
  | a :: rest =>
      let (m1, out1) := deliver a m in
      let (m2, out2) := deliver_all rest m1 in
      (m2, (out1 ++ out2)%list)
  end.

End TabletInterface.

(** ** audio/MicLocal.py *)

Module MicLocal.

Local Open Scope string_scope.

(** [queue.Queue(maxsize)]: items in FIFO order, oldest first.  A
    non-positive [maxsize] means no bound. *)
Record queue (A : Type) := { maxsize : Z; items : list A }.
Arguments maxsize {A} q.
Arguments items {A} q.

Definition full {A : Type} (q : queue A) : bool :=
  (0 <? maxsize q)%Z && (maxsize q <=? Z.of_nat (List.length (items q)))%Z.

(** [put_nowait]: [None] stands for the [queue.Full] exception. *)
Definition put_nowait {A : Type} (item : A) (q : queue A) : option (queue A) :=
  if full q then None
  else Some {| maxsize := maxsize q; items := (items q ++ [item])%list |}.

(** [sd.CallbackFlags]; the object is truthy when some flag is raised. *)
Record callback_flags := { input_overflow : bool; other_flags : bool }.

Inductive log_level := DEBUG | ERROR.
Definition log_record := (log_level * string)%type.

Section Handler.
Variable frame : Type.

Record t := {
  capture_active_flag : bool;
  raw_audio_queue : queue frame
}.

(** [_audio_callback] *)
Definition audio_callback (indata : frame) (status : callback_flags) (s : t)
  : t * list log_record :=
  let log1 :=
    if (input_overflow status || other_flags status) && input_overflow status
    then [(ERROR, "SOBREFLUJO DE ENTRADA DETECTADO EN EL STREAM DE AUDIO")]
    else [] in
  if negb (capture_active_flag s) then (s, log1)
  else
    match put_nowait indata (raw_audio_queue s) with
    | Some q => ({| capture_active_flag := capture_active_flag s;
                    raw_audio_queue := q |}, log1)
    | None =>
        (s, (log1 ++ [(DEBUG, "Cola de audio crudo (_raw_audio_queue) llena, descartando frame.")])%list)
    end.

End Handler.

End MicLocal.

(** ** Python [str] and the fragment of [re] used by the orchestrator *)

Module Re.

(** A character is a Unicode code point. *)
Definition char := N.
Definition str := list char.

(** An ASCII literal of the source as a [str]. *)
Definition py (s : string) : str := map N_of_ascii (list_ascii_of_string s).

Definition between (lo hi c : N) : bool := (lo <=? c)%N && (c <=? hi)%N.

(** [str.isspace] on one character; it is also the class [\s] of [re] for
    [str] patterns. *)
Definition isspace (c : char) : bool :=
  between 9 13 c || between 28 31 c || N.eqb c 32 || N.eqb c 133
  || N.eqb c 160 || N.eqb c 5760 || between 8192 8202 c || N.eqb c 8232
  || N.eqb c 8233 || N.eqb c 8239 || N.eqb c 8287 || N.eqb c 12288.

(** Patterns.  The patterns of the source only repeat character classes,
    so the star is restricted to them. *)
Inductive regex :=
| Eps
| Chr (c : char)
| Cls (p : char -> bool)
| StarCls (p : char -> bool)
| Seq (r1 r2 : regex)
| Alt (r1 r2 : regex).
Arguments Chr c%_N.

(** The literal [s] followed by [k]. *)
Definition lit_then (s : str) (k : regex) : regex :=
  fold_right (fun c r => Seq (Chr c) r) k s.


(** Greedy [p*]: the longest run first, then shorter ones. *)
Fixpoint star_matches (p : char -> bool) (s : str) : list str :=
  match s with
  | [] => [[]]
  | c :: t => if p c then star_matches p t ++ [s] else [s]
  end.

(** All ways in which [r] matches a prefix of [s], as the text left after
    the match, in the order a backtracking matcher tries them. *)
Fixpoint matches (r : regex) (s : str) : list str :=
  match r with
  | Eps => [s]
  | Chr c => match s with
             | c' :: t => if N.eqb c c' then [t] else []
             | [] => []
             end
  | Cls p => match s with
             | c' :: t => if p c' then [t] else []
             | [] => []
             end
  | StarCls p => star_matches p s
  | Seq r1 r2 => flat_map (matches r2) (matches r1 s)
  | Alt r1 r2 => matches r1 s ++ matches r2 s
  end.

(** The match found at the start of [s], if any. *)
Definition match_here (r : regex) (s : str) : option str := hd_error (matches r s).

(** [re.sub(r, repl, s)], scanning from the left.  [fuel] bounds the number
    of positions visited. *)
Fixpoint sub_from (fuel : nat) (r : regex) (repl : str) (s : str) : str :=
  match fuel with
  | O => s
  | S fuel' =>
      let advance :=
        match s with
        | [] => []
        | c :: t => c :: sub_from fuel' r repl t
        end in
      match match_here r s with
      | Some rest =>
          if (List.length rest <? List.length s)%nat
          then repl ++ sub_from fuel' r repl rest
          else repl ++ advance
      | None => advance
      end
  end.

Definition sub (r : regex) (repl : str) (s : str) : str :=
  sub_from (S (List.length s)) r repl s.

Fixpoint lstrip (s : str) : str :=
  match s with
  | c :: t => if isspace c then lstrip t else s
  | [] => []
  end.

Definition rstrip (s : str) : str := rev (lstrip (rev s)).

(** [s.strip()] *)
Definition strip (s : str) : str := rstrip (lstrip s).

End Re.

(** ** ConversationManager.py *)

Module ConversationManager.

Import Re.

Inductive backend_type := openai_gpt | local_gguf | none.

Definition backend_name (b : backend_type) : str :=
  match b with
  | openai_gpt => py "openai_gpt"
  | local_gguf => py "local_gguf"
  | none => py "none"
  end.

Inductive ai_client :=
| GPTAPIClient (default_model : str)
| LocalLlamaClient (model_path_basename : str).

Record t := {
  current_conversation_id : option Z;
  prompt_builder : bool;
  active_ai_client : option ai_client;
  current_ai_backend_type : backend_type
}.

Inductive role := user | assistant | system.

(** The JSON document stored with an interaction (without its timestamp). *)
Record content := {
  content_type : str;
  text : str;
  source : option str;
  image_info_count : option nat;
  model_used : option str
}.

Record interaction := {
  conversation_id : Z;
  interaction_role : role;
  interaction_content : content
}.

(** Python exceptions: those caught by [except Exception] and the others
    (such as [asyncio.CancelledError]). *)
Inductive exn := Exception | BaseException.

Inductive outcome (A : Type) :=
| returns (a : A)
| raises (e : exn).
Arguments returns {A} a.
Arguments raises {A} e.

(** What the collaborators do during one call of [get_ai_response]. *)
Record env := {
  build_messages_for_chat_api : outcome unit;
  user_interaction_stored : bool;
  generate_response : outcome (option str);
  assistant_interaction_stored : bool
}.

Definition model_info (c : option ai_client) : str :=
  match c with
  | Some (GPTAPIClient m) => m
  | Some (LocalLlamaClient p) => p
  | None => py "Unknown"
  end.

Definition user_content (user_input src : str) (images : list str) : content :=
  {| content_type := py "input";
     text := user_input;
     source := Some src;
     image_info_count :=
       match images with [] => None | _ => Some (List.length images) end;
     model_used := None |}.

Definition assistant_content (reply used : str) : content :=
  {| content_type := py "output";
     text := reply;
     source := None;
     image_info_count := None;
     model_used := Some used |}.

Definition stored (ok : bool) (i : interaction) : list interaction :=
  if ok then [i] else [].

(** [get_ai_response]: the value returned (or the exception raised) and
    the interactions added to the database, in order. *)
Definition get_ai_response (s : t) (e : env) (user_input src : str)
    (images : list str) : outcome str * list interaction :=
  match current_conversation_id s with
  | None => (returns (py "^runTag(error)Error: No hay una conversacion activa."), [])
  | Some conv =>
      if negb (prompt_builder s) then
        (returns (py "^runTag(error)Error: La personalidad no esta configurada correctamente."), [])
      else
        match active_ai_client s, current_ai_backend_type s with
        | None, openai_gpt | None, local_gguf =>
            (returns (py "^runTag(error)Error: El motor de IA no esta inicializado."), [])
        | None, none | Some _, none =>
            (returns (py "El modo de IA esta desactivado."), [])
        | Some client, backend =>
            match build_messages_for_chat_api e with
            | raises Exception =>
                (returns (py "^runTag(embarrassed)Tuve un problema preparando el contexto de mi respuesta."), [])
            | raises BaseException => (raises BaseException, [])
            | returns _ =>
                let saved_user :=
                  stored (user_interaction_stored e)
                    {| conversation_id := conv;
                       interaction_role := user;
                       interaction_content := user_content user_input src images |} in
                match
                  match generate_response e with
                  | returns r => returns r
                  | raises Exception =>
                      returns (Some (py "^runTag(sad)Tuve un problema con mi IA ("
                                     ++ backend_name backend ++ py ")."))
                  | raises BaseException => raises BaseException
                  end
                with
                | raises x => (raises x, saved_user)
                | returns raw_ai_response =>
                    match raw_ai_response with
                    | Some (c :: rest) =>
                        let reply := c :: rest in
                        (returns reply,
                         saved_user ++
                         stored (assistant_interaction_stored e)
                           {| conversation_id := conv;
                              interaction_role := assistant;
                              interaction_content :=
                                assistant_content reply
                                  (backend_name backend ++ py "_"
                                   ++ model_info (Some client)) |})
                    | _ =>
                        let reply := py "^runTag(confused)No estoy seguro de que responder." in
                        (returns reply,
                         saved_user ++
                         stored (assistant_interaction_stored e)
                           {| conversation_id := conv;
                              interaction_role := assistant;
                              interaction_content :=
                                assistant_content reply (py "fallback_empty") |})
                    end
                end
            end
        end
  end.

End ConversationManager.

(** ** Init_System.py *)

Module SystemComposer.

Import Re.
Import ConversationManager.

Definition not_rparen (c : char) : bool := negb (N.eqb c 41).
(* 41 is the code point of the closing parenthesis, 94 of the caret *)

(** [[^)]*\)\s*], the end of every animation tag. *)
Definition tag_tail : regex :=
  Seq (StarCls not_rparen) (Seq (Chr 41%N) (StarCls isspace)).

(** [\s*\^<keyword>Tag\([^)]*\)\s*] *)
Definition tag (keyword : string) : regex :=
  Seq (StarCls isspace) (lit_then (py "^" ++ py keyword ++ py "Tag(") tag_tail).

(** The pattern of [_strip_animation_tags]:
    [\s*\^runTag\([^)]*\)\s*|\s*\^startTag\([^)]*\)\s*|\s*\^waitTag\([^)]*\)\s*] *)
Definition animation_tag_pattern : regex :=
  Alt (tag "run") (Alt (tag "start") (tag "wait")).

(** [\s+] *)
Definition whitespace_run : regex := Seq (Cls isspace) (StarCls isspace).

(** [_strip_animation_tags] *)
Definition strip_animation_tags (text_with_tags : str) : str :=
  match text_with_tags with
  | [] => []
  | _ =>
      let cleaned_text := sub animation_tag_pattern (py " ") text_with_tags in
      strip (sub whitespace_run (py " ") cleaned_text)
  end.


(** Collapsed white space, as the specification's words are read here:
    every run of white space becomes one space ([in_run] tells that the
    previous character was white space), and none is left at the ends. *)
Fixpoint squeeze (in_run : bool) (s : str) : str :=
  match s with
  | [] => []
  | c :: t =>
      if isspace c
      then if in_run then squeeze true t else 32%N :: squeeze true t
      else c :: squeeze false t
  end.

Definition collapse_whitespace (s : str) : str := strip (squeeze false s).


(** Calls on the tablet gateway, the speech controller, the recognition
    system and the database, in the order they are made. *)
Inductive action :=
| send_system_message (sender_name level message : str)
| send_output (sender_name message original_input_source : str)
| send_partial_stt_result (partial_text : str) (is_final : bool)
| say_text_with_embedded_standard_animations (annotated : str) (wait : bool)
| stt_stop
| stt_start
| add_interaction (i : interaction).

Record t := {
  conversation_manager : option ConversationManager.t;
  tablet_interface : bool;
  animation_speech_controller : bool;
  (** [None]: no recognition system; [Some b]: its [is_running()]. *)
  stt_system : option bool;
  (** The [asyncio.Event]: set when the robot is free. *)
  robot_is_processing_or_replying : bool
}.

Definition set_busy_event (b : bool) (s : t) : t :=
  {| conversation_manager := conversation_manager s;
     tablet_interface := tablet_interface s;
     animation_speech_controller := animation_speech_controller s;
     stt_system := stt_system s;
     robot_is_processing_or_replying := b |}.

Definition set_stt (r : option bool) (s : t) : t :=
  {| conversation_manager := conversation_manager s;
     tablet_interface := tablet_interface s;
     animation_speech_controller := animation_speech_controller s;
     stt_system := r;
     robot_is_processing_or_replying := robot_is_processing_or_replying s |}.

(** What the collaborators do during one call of
    [_process_input_for_conversation]. *)
Record env := {
  conversation : ConversationManager.env;
  send_output_result : outcome unit;
  say_result : outcome unit;
  send_system_message_result : outcome unit;
  (** whether [stt_system.start()] brings recognition up *)
  stt_start_ok : bool
}.

Definition when (b : bool) (a : action) : list action := if b then [a] else [].

(** The [try] block of [_process_input_for_conversation]. *)
Definition try_block (s : t) (cm : ConversationManager.t) (e : env)
    (user_text src : str) (images_b64 : list str) : outcome unit * list action :=
  let (response, saved) := get_ai_response cm (conversation e) user_text src images_b64 in
  let db := map add_interaction saved in
  match response with
  | raises x => (raises x, db)
  | returns (c :: rest) =>
      let ai_response_with_tags := c :: rest in
      let ai_response_for_ui := strip_animation_tags ai_response_with_tags in
      let out := when (tablet_interface s)
                   (send_output (py "Umebot") ai_response_for_ui src) in
      match (if tablet_interface s then send_output_result e else returns tt) with
      | raises x => (raises x, db ++ out)
      | returns _ =>
          if animation_speech_controller s then
            let spoken :=
              [say_text_with_embedded_standard_animations ai_response_with_tags true] in
            match say_result e with
            | raises BaseException => (raises BaseException, db ++ out ++ spoken)
            | _ => (returns tt, db ++ out ++ spoken)
            end
          else (returns tt, db ++ out)
      end
  | returns [] =>
      let out := when (tablet_interface s)
                   (send_output (py "Umebot")
                      (py "No estoy seguro de como responder a eso.") src) in
      match (if tablet_interface s then send_output_result e else returns tt) with
      | raises x => (raises x, db ++ out)
      | returns _ => (returns tt, db ++ out)
      end
  end.

(** The [except Exception] clause. *)
Definition except_clause (s : t) (e : env) (r : outcome unit) : outcome unit * list action :=
  match r with
  | raises Exception =>
      if tablet_interface s then
        (send_system_message_result e,
         [send_system_message (py "SystemError") (py "error")
            (py "Hubo un problema al procesar el mensaje.")])
      else (returns tt, [])
  | other => (other, [])
  end.

(** The [finally] clause. *)
Definition finally_clause (s : t) (e : env) (was_stt_running : bool) : t * list action :=
  let s1 := set_busy_event true s in
  match stt_system s1 with
  | Some running =>
      if was_stt_running && negb running
      then (set_stt (Some (stt_start_ok e)) s1, [stt_start])
      else (s1, [])
  | None => (s1, [])
  end.

Definition is_empty {A : Type} (l : list A) : bool :=
  match l with [] => true | _ => false end.

(** [_process_input_for_conversation] from the point where the input has
    been accepted: recognition is paused, the busy event cleared, and the
    [try] statement run. *)
Definition respond (s : t) (cm : ConversationManager.t) (e : env)
    (user_text src : str) (images_b64 : list str) : t * outcome unit * list action :=
  let was_stt_running :=
    match stt_system s with Some true => true | _ => false end in
  let paused := if was_stt_running then [stt_stop] else [] in
  let s1 := if was_stt_running then set_stt (Some false) s else s in
  let s2 := set_busy_event false s1 in
  let (r1, body) := try_block s2 cm e user_text src images_b64 in
  let (r2, handler) := except_clause s2 e r1 in
  let (s3, restore) := finally_clause s2 e was_stt_running in
  (s3, r2, paused ++ body ++ handler ++ restore).

(** [_process_input_for_conversation] *)
Definition process_input_for_conversation (s : t) (e : env)
    (user_text src : str) (images_b64 : list str) : t * outcome unit * list action :=
  if is_empty user_text && is_empty images_b64 then (s, returns tt, [])
  else
    match conversation_manager s with
    | None =>
        if tablet_interface s then
          (s, send_system_message_result e,
           [send_system_message (py "SystemError") (py "error")
              (py "Error interno: Gestor de conversacion no disponible.")])
        else (s, returns tt, [])
    | Some cm =>
        if negb (robot_is_processing_or_replying s) then
          if tablet_interface s then
            (s, send_system_message_result e,
             [send_system_message (py "Umebot") (py "info")
                (py "Estoy procesando otra solicitud en este momento...")])
          else (s, returns tt, [])
        else respond s cm e user_text src images_b64
    end.

(** [_handle_final_stt_segment] *)
Definition handle_final_stt_segment (s : t) (recognized_text : str) : list action :=
  if negb (tablet_interface s) then []
  else if robot_is_processing_or_replying s
       then [send_partial_stt_result recognized_text true]
       else [].

(** [_handle_partial_stt_result] *)
Definition handle_partial_stt_result (s : t) (partial_text : str) : list action :=
  if tablet_interface s && robot_is_processing_or_replying s
  then [send_partial_stt_result partial_text false]
  else [].

(** [_adapter_gui_input_to_conversation]: [payload.get("text", "")],
    [payload.get("images")] and [payload.get("source", "gui_unknown")]. *)
Definition adapter_gui_input_to_conversation (s : t) (e : env)
    (payload_text : option str) (payload_source : option str)
    (payload_images : list str) : t * outcome unit * list action :=
  process_input_for_conversation s e
    (match payload_text with Some x => x | None => [] end)
    (match payload_source with Some x => x | None => py "gui_unknown" end)
    payload_images.

(** The callback installed on the recognition system for final
    transcripts by [_setup_main_callbacks]; nothing is installed unless
    both the recognition system and the tablet gateway exist. *)
Definition external_text_callback (s : t) (recognized : str) : option (list action) :=
  match stt_system s with
  | Some _ =>
      if tablet_interface s then Some (handle_final_stt_segment s recognized)
      else None
  | None => None
  end.

End SystemComposer.

(** ** tabletserver/Messages.py: payloads prepared by the Python test client *)

Module ClientPayloads.

Import Messages.
Local Open Scope string_scope.

(** [prepare_client_input_payload] *)
Definition prepare_client_input_payload (text : string) (source : option string) : json :=
  let payload_data :=
    ("text", JStr text)
    :: (if Py.truthy source
        then match source with Some src => [("source", JStr src)] | None => [] end
        else []) in
  JObj [("type", JStr MSG_TYPE_INPUT); ("payload", JObj payload_data)].

(** [prepare_client_config_payload] *)
Definition prepare_client_config_payload (config_item : string) (value : json) : json :=
  JObj [("type", JStr MSG_TYPE_CONFIG);
        ("payload", JObj [("config_item", JStr config_item); ("value", value)])].

End ClientPayloads.

(** ** TabletInterface.py: the set of active connections *)

Module Connections.

Import ConversationManager.

Definition client := TabletInterface.client.

(** [_active_connections], a Python set of web sockets. *)
Definition connections := ListSet.set client.

(** [register_client_connection]: [self._active_connections.add(websocket)] *)
Definition register_client_connection (websocket : client) (active : connections)
  : connections :=
  ListSet.set_add Nat.eq_dec websocket active.

(** [unregister_client_connection]:
    [self._active_connections.discard(websocket)] *)
Definition unregister_client_connection (websocket : client) (active : connections)
  : connections :=
  ListSet.set_remove Nat.eq_dec websocket active.

(** [isinstance(result, Exception)] on an entry of the list returned by
    [asyncio.gather(..., return_exceptions=True)]. *)
Definition is_exception (result : outcome unit) : bool :=
  match result with
  | raises Exception => true
  | _ => false
  end.

(** The clients of the copy whose [send_text] ended in an [Exception]:
    [[current_connections[i] for i, result in enumerate(results)
      if isinstance(result, Exception)]] *)
Definition disconnected_during_send (current_connections : list client)
    (results : list (outcome unit)) : list client :=
  flat_map (fun '(ws, result) => if is_exception result then [ws] else [])
    (combine current_connections results).

(** The end of [_broadcast_message], after [asyncio.gather] has returned:
    the failed clients are discarded from the set as it is by then. *)
Definition broadcast_cleanup (current_connections : list client)
    (results : list (outcome unit)) (active : connections) : connections :=
  fold_left (fun acc ws_to_remove => ListSet.set_remove Nat.eq_dec ws_to_remove acc)
    (disconnected_during_send current_connections results) active.

(** [_broadcast_message]: the [send_text] calls made, and the set left.
    [send_text] gives the outcome of the call on each web socket. *)
Definition broadcast_message {frame : Type} (message_str : frame)
    (send_text : client -> outcome unit) (active : connections)
  : list (client * frame) * connections :=
  match active with
  | [] => ([], active)
  | _ =>
      let current_connections := active in
      let results := map send_text current_connections in
      (map (fun ws => (ws, message_str)) current_connections,
       broadcast_cleanup current_connections results active)
  end.

(** What happens to the set: connections opened and closed by the web
    socket endpoint, and broadcasts. *)
Inductive event :=
| Register (websocket : client)
| Unregister (websocket : client)
| Broadcast (send_text : client -> outcome unit).

Definition step (ev : event) (active : connections) : connections :=
  match ev with
  | Register ws => register_client_connection ws active
  | Unregister ws => unregister_client_connection ws active
  | Broadcast send_text => snd (broadcast_message tt send_text active)
  end.

Definition run (evs : list event) (active : connections) : connections :=
  fold_left (fun acc ev => step ev acc) evs active.

End Connections.

(** ** audio/MicLocal.py: from the capture callback to [get_mono_chunk] *)

Module MicPipeline.

Import MicLocal.

(** [queue.get]: the oldest item and the queue left; [None] stands for the
    [queue.Empty] exception (raised at once by [get_nowait], after the
    timeout by [get(timeout=...)]). *)
Definition get {A : Type} (q : queue A) : option (A * queue A) :=
  match items q with
  | [] => None
  | item :: rest => Some (item, {| maxsize := maxsize q; items := rest |})
  end.

Section Pipeline.

(** A block of samples delivered by the stream, and a chunk of bytes. *)
Variable ndarray : Type.
Variable bytes : Type.

(** The conversion made by the processing thread on one block (mono,
    resampling to the target rate, [int16], [tobytes]); [None] when it
    raises an exception. *)
Variable convert : ndarray -> option bytes.

(** The items of [_raw_audio_queue] are blocks, or the [None] that
    [stop_capture] puts to end the processing thread. *)
Record t := {
  handler : MicLocal.t (option ndarray);
  audio_queue : queue bytes;
  stop_event : bool;
  is_shutting_down_for_test : bool
}.

Definition set_handler (h : MicLocal.t (option ndarray)) (s : t) : t :=
  {| handler := h;
     audio_queue := audio_queue s;
     stop_event := stop_event s;
     is_shutting_down_for_test := is_shutting_down_for_test s |}.

Definition set_raw_audio_queue (q : queue (option ndarray)) (s : t) : t :=
  set_handler {| capture_active_flag := capture_active_flag (handler s);
                 raw_audio_queue := q |} s.

Definition set_audio_queue (q : queue bytes) (s : t) : t :=
  {| handler := handler s;
     audio_queue := q;
     stop_event := stop_event s;
     is_shutting_down_for_test := is_shutting_down_for_test s |}.

(** [__init__], as far as the queues and flags go. *)
Definition init (queue_size raw_queue_size : Z) : t :=
  {| handler := {| capture_active_flag := false;
                   raw_audio_queue := {| maxsize := raw_queue_size; items := [] |} |};
     audio_queue := {| maxsize := queue_size; items := [] |};
     stop_event := false;
     is_shutting_down_for_test := false |}.

(** The stream calls [_audio_callback] with a new block. *)
Definition captured (indata : ndarray) (status : callback_flags) (s : t) : t :=
  set_handler (fst (audio_callback (Some indata) status (handler s))) s.

(** One iteration of the loop of [_resample_and_process_thread_func]; the
    boolean tells whether the loop goes on. *)
Definition resample_iteration (s : t) : t * bool :=
  match get (raw_audio_queue (handler s)) with
  | None => (s, negb (stop_event s))
  | Some (None, q) => (set_raw_audio_queue q s, false)
  | Some (Some raw_audio_f32_chunk, q) =>
      let s1 := set_raw_audio_queue q s in
      match convert raw_audio_f32_chunk with
      | None => (s1, true)
      | Some final_audio_i16 =>
          match put_nowait final_audio_i16 (audio_queue s1) with
          | Some q2 => (set_audio_queue q2 s1, true)
          | None => (s1, true)
          end
      end
  end.

(** [_is_running_or_has_data_for_test] *)
Definition is_running_or_has_data_for_test (s : t) : bool :=
  if capture_active_flag (handler s) then true
  else is_shutting_down_for_test s
       && negb (match items (audio_queue s) with [] => true | _ => false end).

(** [get_mono_chunk] *)
Definition get_mono_chunk (s : t) : option bytes * t :=
  if negb (is_running_or_has_data_for_test s) then (None, s)
  else
    match get (audio_queue s) with
    | Some (chunk, q) => (Some chunk, set_audio_queue q s)
    | None => (None, s)
    end.

(** The capture thread sets and clears [_capture_active_flag]. *)
Definition set_capture_active (b : bool) (s : t) : t :=
  set_handler {| capture_active_flag := b;
                 raw_audio_queue := raw_audio_queue (handler s) |} s.

Inductive event :=
| Captured (indata : ndarray) (status : callback_flags)
| ResampleIteration
| GetMonoChunk
| CaptureActive (b : bool).

(** The state after an event and the chunk handed to the caller of
    [get_mono_chunk], if any. *)
Definition step (ev : event) (s : t) : t * list bytes :=
  match ev with
  | Captured indata status => (captured indata status s, [])
  | ResampleIteration => (fst (resample_iteration s), [])
  | GetMonoChunk =>
      let (chunk, s1) := get_mono_chunk s in
      (s1, match chunk with Some c => [c] | None => [] end)
  | CaptureActive b => (set_capture_active b s, [])
  end.

Fixpoint run (evs : list event) (s : t) : t * list bytes :=
  match evs with
  | [] => (s, [])
  | ev :: rest =>
      let (s1, out1) := step ev s in
      let (s2, out2) := run rest s1 in
      (s2, out1 ++ out2)
  end.

(** The blocks given to the callback, in order. *)
Definition blocks (evs : list event) : list ndarray :=
  flat_map (fun ev => match ev with Captured indata _ => [indata] | _ => [] end) evs.

End Pipeline.

(** The sample rates tried for the capture, in order
    ([sr_options_to_try] of [_find_and_configure_device_params]). *)
Definition sr_options_to_try (preferred_capture_sr : option Z)
    (target_sample_rate dev_default_sr : Z) : list Z :=
  let truthy := match preferred_capture_sr with
                | Some sr => negb (Z.eqb sr 0)
                | None => false
                end in
  let mem (sr : Z) (l : list Z) := existsb (Z.eqb sr) l in
  let o1 := match preferred_capture_sr with
            | Some sr => if truthy then [sr] else []
            | None => []
            end in
  let o2 :=
    if negb (mem target_sample_rate o1) then
      if truthy
         && negb (match preferred_capture_sr with
                  | Some sr => Z.eqb sr target_sample_rate
                  | None => false
                  end)
      then firstn 1 o1 ++ [target_sample_rate] ++ skipn 1 o1
      else if negb truthy then o1 ++ [target_sample_rate] else o1
    else o1 in
  let o3 := if negb (mem dev_default_sr o2) then o2 ++ [dev_default_sr] else o2 in
  let o4 := if negb (mem 48000%Z o3) then o3 ++ [48000%Z] else o3 in
  if negb (mem 44100%Z o4) then o4 ++ [44100%Z] else o4.

(** The rate selected: the first one of the list that
    [_check_sr_support] accepts, the default rate of the device
    otherwise. *)
Definition actual_capture_sr (check_sr_support : Z -> bool)
    (preferred_capture_sr : option Z) (target_sample_rate dev_default_sr : Z) : Z :=
  match find check_sr_support
          (sr_options_to_try preferred_capture_sr target_sample_rate dev_default_sr)
  with
  | Some sr_to_try => sr_to_try
  | None => dev_default_sr
  end.

End MicPipeline.

(** ** audio/vosk_helper.py and audio/ManagerProcessAudio.py *)

Module AudioProcessor.

Import Re.

(** Python [bytes]. *)
Definition bytes := list Byte.byte.

(** [a == b] on [str]. *)
Fixpoint str_eqb (a b : str) : bool :=
  match a, b with
  | [], [] => true
  | c :: a', d :: b' => N.eqb c d && str_eqb a' b'
  | _, _ => false
  end.

(** Truthiness of a [str] and of [bytes]. *)
Definition nonempty {A : Type} (l : list A) : bool :=
  match l with [] => false | _ => true end.

(** What the Kaldi recognizer answers while one chunk is processed:
    the value of [AcceptWaveform], and the [partial] and [text] fields of
    the JSON documents given by [PartialResult] and [Result].  [None]
    stands for an exception (or, for a field, its absence). *)
Record answers := {
  AcceptWaveform : option bool;
  PartialResult : option str;
  Result : option str
}.

(** [VoskHelper.process_audio_chunk] *)
Definition process_audio_chunk (audio_chunk_bytes : bytes) (a : answers) : bool :=
  if negb (nonempty audio_chunk_bytes) then false
  else match AcceptWaveform a with
       | Some accepted => accepted
       | None => false
       end.

(** [data.get(field, "").strip()], and [""] after an exception: the body
    of [get_partial_result], [get_current_segment_text] and
    [get_final_result]. *)
Definition stripped_field (field : option str) : str :=
  match field with
  | Some text => strip text
  | None => []
  end.

(** [VoskHelper.get_partial_result] *)
Definition get_partial_result (a : answers) : str := stripped_field (PartialResult a).

(** [VoskHelper.get_current_segment_text] *)
Definition get_current_segment_text (a : answers) : str := stripped_field (Result a).

(** [VoskHelper.get_final_result]; [FinalResult] is the [text] field of
    the recognizer's final JSON document. *)
Definition get_final_result (FinalResult : option str) : str :=
  stripped_field FinalResult.

Section Callbacks.

(** What the callbacks do is recorded as a list of [A]. *)
Variable A : Type.

(** A callback applied to a text: whether it returned ([false]: it raised
    an [Exception]) and what it did. *)
Definition callback := str -> bool * list A.

Record t := {
  vosk_helper : bool;
  has_final_text_segment_callback : bool;
  has_partial_text_callback : bool;
  last_sent_partial : str
}.

Definition set_last_sent_partial (text : str) (s : t) : t :=
  {| vosk_helper := vosk_helper s;
     has_final_text_segment_callback := has_final_text_segment_callback s;
     has_partial_text_callback := has_partial_text_callback s;
     last_sent_partial := text |}.

(** [__init__], once [VoskHelper] has been created. *)
Definition init (text_recognized_callback partial_text_callback : bool) : t :=
  {| vosk_helper := true;
     has_final_text_segment_callback := text_recognized_callback;
     has_partial_text_callback := partial_text_callback;
     last_sent_partial := [] |}.

(** The callbacks as they behave when they are called. *)
Variable final_text_segment_callback : callback.
Variable partial_text_callback : callback.

(** The part of [process_chunk] that deals with partial results. *)
Definition send_partial (a : answers) (s : t) : t * list A :=
  if has_partial_text_callback s then
    let current_partial := get_partial_result a in
    if (nonempty current_partial
        && negb (str_eqb current_partial (last_sent_partial s)))
       || (negb (nonempty current_partial) && nonempty (last_sent_partial s))
    then
      let sent := if nonempty current_partial then current_partial else [] in
      let (returned, done) := partial_text_callback sent in
      (if returned then set_last_sent_partial sent s else s, done)
    else (s, [])
  else (s, []).

(** [process_chunk] *)
Definition process_chunk (chunk : bytes) (a : answers) (s : t) : t * list A :=
  if negb (vosk_helper s) then (s, [])
  else if negb (nonempty chunk) then (s, [])
  else
    let is_final_segment_from_vosk := process_audio_chunk chunk a in
    let (s1, out1) := send_partial a s in
    if is_final_segment_from_vosk then
      let final_text_segment := get_current_segment_text a in
      let out2 :=
        if nonempty final_text_segment && has_final_text_segment_callback s1
        then snd (final_text_segment_callback final_text_segment)
        else [] in
      (set_last_sent_partial [] s1, out1 ++ out2)
    else (s1, out1).

(** [finalize_recognition] *)
Definition finalize_recognition (FinalResult : option str) (s : t) : t * list A :=
  if negb (vosk_helper s) then (s, [])
  else
    let final_text := get_final_result FinalResult in
    let out :=
      if has_final_text_segment_callback s
      then if nonempty final_text
           then snd (final_text_segment_callback final_text) else []
      else [] in
    (set_last_sent_partial [] s, out).

(** [reset_recognizer] *)
Definition reset_recognizer (s : t) : t :=
  if vosk_helper s then set_last_sent_partial [] s else s.

End Callbacks.

End AudioProcessor.

(** ** STT_System.py *)

Module SpeechToTextSystem.

Import Re.
Import AudioProcessor.
Local Open Scope string_scope.

(** Calls made on the callbacks given by the orchestrator, on the VAD and
    on the local microphone handler.  The callbacks of the orchestrator are
    taken to return normally. *)
Inductive call :=
| external_partial_text_callback (partial_text : str)
| external_text_callback (final_text : str)
| external_speech_state_callback (is_speaking : bool)
| vad_is_speech (frame : bytes)
| start_capture
| stop_capture.

Record t := {
  local_mic_handler : bool;
  robot_audio_queue : bool;
  has_external_text_callback : bool;
  has_external_speech_state_callback : bool;
  has_external_partial_text_callback : bool;
  audio_processor : option AudioProcessor.t;
  vad : bool;
  vad_frame_bytes : Z;
  active_source : string;
  is_running : bool;
  stop_event : bool;
  (** the thread running [_stt_loop] is alive *)
  processing_thread : bool;
  is_currently_speaking_vad : bool;
  vad_buffer : bytes
}.

Definition set_audio_processor (p : option AudioProcessor.t) (s : t) : t :=
  {| local_mic_handler := local_mic_handler s;
     robot_audio_queue := robot_audio_queue s;
     has_external_text_callback := has_external_text_callback s;
     has_external_speech_state_callback := has_external_speech_state_callback s;
     has_external_partial_text_callback := has_external_partial_text_callback s;
     audio_processor := p;
     vad := vad s;
     vad_frame_bytes := vad_frame_bytes s;
     active_source := active_source s;
     is_running := is_running s;
     stop_event := stop_event s;
     processing_thread := processing_thread s;
     is_currently_speaking_vad := is_currently_speaking_vad s;
     vad_buffer := vad_buffer s |}.

Definition set_active_source (name : string) (s : t) : t :=
  {| local_mic_handler := local_mic_handler s;
     robot_audio_queue := robot_audio_queue s;
     has_external_text_callback := has_external_text_callback s;
     has_external_speech_state_callback := has_external_speech_state_callback s;
     has_external_partial_text_callback := has_external_partial_text_callback s;
     audio_processor := audio_processor s;
     vad := vad s;
     vad_frame_bytes := vad_frame_bytes s;
     active_source := name;
     is_running := is_running s;
     stop_event := stop_event s;
     processing_thread := processing_thread s;
     is_currently_speaking_vad := is_currently_speaking_vad s;
     vad_buffer := vad_buffer s |}.

(** [_is_running], [_stop_event] and the thread, set together by [start]
    and [stop]. *)
Definition set_running (running stop alive : bool) (s : t) : t :=
  {| local_mic_handler := local_mic_handler s;
     robot_audio_queue := robot_audio_queue s;
     has_external_text_callback := has_external_text_callback s;
     has_external_speech_state_callback := has_external_speech_state_callback s;
     has_external_partial_text_callback := has_external_partial_text_callback s;
     audio_processor := audio_processor s;
     vad := vad s;
     vad_frame_bytes := vad_frame_bytes s;
     active_source := active_source s;
     is_running := running;
     stop_event := stop;
     processing_thread := alive;
     is_currently_speaking_vad := is_currently_speaking_vad s;
     vad_buffer := vad_buffer s |}.

Definition set_speaking (b : bool) (s : t) : t :=
  {| local_mic_handler := local_mic_handler s;
     robot_audio_queue := robot_audio_queue s;
     has_external_text_callback := has_external_text_callback s;
     has_external_speech_state_callback := has_external_speech_state_callback s;
     has_external_partial_text_callback := has_external_partial_text_callback s;
     audio_processor := audio_processor s;
     vad := vad s;
     vad_frame_bytes := vad_frame_bytes s;
     active_source := active_source s;
     is_running := is_running s;
     stop_event := stop_event s;
     processing_thread := processing_thread s;
     is_currently_speaking_vad := b;
     vad_buffer := vad_buffer s |}.

Definition set_vad_buffer (buffer : bytes) (s : t) : t :=
  {| local_mic_handler := local_mic_handler s;
     robot_audio_queue := robot_audio_queue s;
     has_external_text_callback := has_external_text_callback s;
     has_external_speech_state_callback := has_external_speech_state_callback s;
     has_external_partial_text_callback := has_external_partial_text_callback s;
     audio_processor := audio_processor s;
     vad := vad s;
     vad_frame_bytes := vad_frame_bytes s;
     active_source := active_source s;
     is_running := is_running s;
     stop_event := stop_event s;
     processing_thread := processing_thread s;
     is_currently_speaking_vad := is_currently_speaking_vad s;
     vad_buffer := buffer |}.

(** [_internal_partial_text_callback]: an exception of the external
    callback is caught, so the call always returns. *)
Definition internal_partial_text_callback (s : t) : callback call :=
  fun partial_text =>
    (true,
     if has_external_partial_text_callback s
     then [external_partial_text_callback partial_text] else []).

(** [_internal_text_callback] *)
Definition internal_text_callback (s : t) : callback call :=
  fun recognized_text =>
    if negb (nonempty recognized_text) then (true, [])
    else
      let final_text := strip recognized_text in
      if negb (nonempty final_text) then (true, [])
      else (true,
            if has_external_text_callback s
            then [external_text_callback final_text] else []).

(** [_set_initial_source] *)
Definition set_initial_source (source_name : string) (s : t) : t :=
  if String.eqb source_name "robot" then
    if robot_audio_queue s then set_active_source "robot" s
    else set_active_source "none" s
  else if String.eqb source_name "local" then
    if local_mic_handler s then set_active_source "local" s
    else set_active_source "none" s
  else set_active_source "none" s.

(** [__init__], once the audio processor exists; [vad_frame_bytes] is the
    value computed from the sample rate and the frame duration (0 without
    the VAD). *)
Definition init (text_recognized_callback : bool)
    (local_mic_handler_instance robot_audio_feed_queue : bool)
    (speech_state_callback partial_text_recognized_callback : bool)
    (default_source : string) (with_vad : bool) (frame_bytes : Z) : t :=
  set_initial_source default_source
    {| local_mic_handler := local_mic_handler_instance;
       robot_audio_queue := robot_audio_feed_queue;
       has_external_text_callback := text_recognized_callback;
       has_external_speech_state_callback := speech_state_callback;
       has_external_partial_text_callback := partial_text_recognized_callback;
       audio_processor := Some (AudioProcessor.init true true);
       vad := with_vad;
       vad_frame_bytes := if with_vad then frame_bytes else 0%Z;
       active_source := "none";
       is_running := false;
       stop_event := false;
       processing_thread := false;
       is_currently_speaking_vad := false;
       vad_buffer := [] |}.

(** What [get_mic_info] and [start_capture] of the microphone handler
    answer during one activation. *)
Record mic_answers := {
  is_capture_thread_alive : bool;
  is_stream_active : bool;
  start_capture_result : bool;
  is_stream_active_after_start : bool
}.

(** [_activate_current_source_if_needed] *)
Definition activate_current_source_if_needed (m : mic_answers) (s : t)
  : bool * list call :=
  if String.eqb (active_source s) "local" then
    if local_mic_handler s then
      if negb (is_capture_thread_alive m) then
        if start_capture_result m
        then (is_stream_active_after_start m, [start_capture])
        else (false, [start_capture])
      else (is_stream_active m, [])
    else (false, [])
  else if String.eqb (active_source s) "robot" then
    if robot_audio_queue s then (true, []) else (false, [])
  else if String.eqb (active_source s) "none" then (true, [])
  else (false, []).

(** [_deactivate_current_source_if_needed] *)
Definition deactivate_current_source_if_needed (m : mic_answers) (s : t) : list call :=
  if String.eqb (active_source s) "local" && local_mic_handler s then
    if is_capture_thread_alive m || is_stream_active m then [stop_capture] else []
  else [].

(** [audio_processor.finalize_recognition()] where the processor exists. *)
Definition finalize (FinalResult : option str) (s : t) : t * list call :=
  match audio_processor s with
  | Some p =>
      let (p', out) :=
        finalize_recognition (internal_text_callback s) FinalResult p in
      (set_audio_processor (Some p') s, out)
  | None => (s, [])
  end.

(** The notification that speech has ended, made where the loop and
    [set_audio_source] give up the current utterance. *)
Definition end_of_speech (s : t) : t * list call :=
  if is_currently_speaking_vad s then
    (set_speaking false s,
     if has_external_speech_state_callback s
     then [external_speech_state_callback false] else [])
  else (s, []).

(** [set_audio_source] *)
Definition set_audio_source (new_source_name : string) (m_old m_new : mic_answers)
    (FinalResult : option str) (s : t) : t * list call :=
  if negb (String.eqb new_source_name "local" || String.eqb new_source_name "robot"
           || String.eqb new_source_name "none") then (s, [])
  else if String.eqb new_source_name (active_source s) then (s, [])
  else
    let can_switch :=
      if String.eqb new_source_name "local" then local_mic_handler s
      else if String.eqb new_source_name "robot" then robot_audio_queue s
      else if String.eqb new_source_name "none" then true
      else false in
    if negb can_switch then (s, [])
    else
      let was_running := is_running s in
      let out1 := if was_running then deactivate_current_source_if_needed m_old s
                  else [] in
      let s1 := set_vad_buffer [] s in
      let (s2, out2) := end_of_speech s1 in
      let (s3, out3) := finalize FinalResult s2 in
      let s4 :=
        match audio_processor s3 with
        | Some p => set_audio_processor (Some (reset_recognizer p)) s3
        | None => s3
        end in
      let s5 := set_active_source new_source_name s4 in
      let (activated_ok, out4) :=
        if was_running && negb (String.eqb (active_source s5) "none")
        then activate_current_source_if_needed m_new s5
        else (true, []) in
      (if activated_ok then s5 else set_active_source "none" s5,
       (out1 ++ out2 ++ out3 ++ out4)%list).


(** An item taken from the queue fed by the audio server. *)
Inductive robot_queue_item :=
| item_tuple (chunk : bytes)
| item_bytes (chunk : bytes)
| item_none
| item_other.

(** What the collaborators answer during one iteration of [_stt_loop]:
    the queue of the robot ([None]: [queue.Empty]), the microphone handler,
    the recognizer, the VAD ([None]: it raised an exception), and whether
    the time since the last voice activity exceeds the silence timeout. *)
Record loop_answers := {
  robot_queue_get : option robot_queue_item;
  get_mono_chunk : option bytes;
  recognizer : answers;
  FinalResult : option str;
  is_speech : bytes -> option bool;
  silence_timeout_exceeded : bool
}.

(** The [while len(self._vad_buffer) >= self.vad_frame_bytes] loop; [fuel]
    bounds the number of frames. *)
Fixpoint vad_frames (fuel : nat) (speech : bytes -> option bool) (s : t)
  : t * list call :=
  match fuel with
  | O => (s, [])
  | S fuel' =>
      if (vad_frame_bytes s <=? Z.of_nat (List.length (vad_buffer s)))%Z then
        let n := Z.to_nat (vad_frame_bytes s) in
        let frame_to_vad := firstn n (vad_buffer s) in
        let s1 := set_vad_buffer (skipn n (vad_buffer s)) s in
        let (s2, out) :=
          match speech frame_to_vad with
          | Some is_speech =>
              if negb (Bool.eqb is_speech (is_currently_speaking_vad s1)) then
                (set_speaking is_speech s1,
                 if has_external_speech_state_callback s1
                 then [external_speech_state_callback is_speech] else [])
              else (s1, [])
          | None => (s1, [])
          end in
        let (s3, rest) := vad_frames fuel' speech s2 in
        (s3, (vad_is_speech frame_to_vad :: out ++ rest)%list)
      else (s, [])
  end.

(** [audio_processor.process_chunk(chunk)] where the processor exists. *)
Definition process (chunk : bytes) (a : answers) (s : t) : t * list call :=
  match audio_processor s with
  | Some p =>
      let (p', out) :=
        process_chunk (internal_text_callback s) (internal_partial_text_callback s)
          chunk a p in
      (set_audio_processor (Some p') s, out)
  | None => (s, [])
  end.

(** The chunk obtained from the active source: [None] when the iteration
    is given up ([continue]), [Some None] when no chunk was obtained. *)
Definition fetch (w : loop_answers) (s : t) : option (option bytes) :=
  if String.eqb (active_source s) "robot" then
    if robot_audio_queue s then
      Some match robot_queue_get w with
           | Some (item_tuple chunk) => Some chunk
           | Some (item_bytes chunk) => Some chunk
           | Some item_none => Some []
           | Some item_other => None
           | None => None
           end
    else None
  else if String.eqb (active_source s) "local" then
    Some (if local_mic_handler s then get_mono_chunk w else None)
  else if String.eqb (active_source s) "none" then None
  else Some None.

(** One iteration of the [while] loop of [_stt_loop]. *)
Definition stt_loop_iteration (w : loop_answers) (s : t) : t * list call :=
  let current_source_locked := active_source s in
  match fetch w s with
  | None => (s, [])
  | Some audio_chunk_for_stt =>
      let (s1, out1) :=
        match audio_chunk_for_stt with
        | Some chunk =>
            let (sa, outa) := process chunk (recognizer w) s in
            if vad sa && (0 <? vad_frame_bytes sa)%Z then
              let sb := set_vad_buffer (vad_buffer sa ++ chunk)%list sa in
              let (sc, outc) :=
                vad_frames (S (List.length (vad_buffer sb))) (is_speech w) sb in
              (sc, (outa ++ outc)%list)
            else (sa, outa)
        | None => (s, [])
        end in
      let is_timeout_condition :=
        match audio_chunk_for_stt with
        | None => true
        | Some chunk => negb (nonempty chunk)
        end in
      if is_timeout_condition && negb (String.eqb current_source_locked "none") then
        let should_finalize_due_to_silence :=
          (vad s1 && is_currently_speaking_vad s1 && silence_timeout_exceeded w)
          || (negb (vad s1) && silence_timeout_exceeded w) in
        if should_finalize_due_to_silence then
          let (s2, out2) := finalize (FinalResult w) s1 in
          let (s3, out3) := end_of_speech s2 in
          (set_vad_buffer [] s3, (out1 ++ out2 ++ out3)%list)
        else (s1, out1)
      else (s1, out1)
  end.

(** The end of [_stt_loop], after its [while] loop. *)
Definition stt_loop_exit (final_result : option str) (s : t) : t * list call :=
  let (s1, out1) := finalize final_result s in
  let (s2, out2) := end_of_speech s1 in
  (set_vad_buffer [] s2, (out1 ++ out2)%list).

(** [start] *)
Definition start (m : mic_answers) (s : t) : t * list call * bool :=
  if is_running s then (s, [], true)
  else
    match audio_processor s with
    | None => (s, [], false)
    | Some _ =>
        let (activated, out) :=
          if negb (String.eqb (active_source s) "none")
          then activate_current_source_if_needed m s
          else (true, []) in
        if negb activated then (s, out, false)
        else (set_running true false true s, out, true)
    end.

(** [stop]; the thread leaves its loop and ends within the [join]. *)
Definition stop (m : mic_answers) (loop_final_result stop_final_result : option str)
    (s : t) : t * list call :=
  if negb (is_running s) then (s, [])
  else
    let s1 := set_running false true (processing_thread s) s in
    let (s2, out2) :=
      if processing_thread s1 then stt_loop_exit loop_final_result s1
      else (s1, []) in
    let s3 := set_running false true false s2 in
    let out3 := deactivate_current_source_if_needed m s3 in
    let (s4, out4) := finalize stop_final_result s3 in
    (s4, (out2 ++ out3 ++ out4)%list).

(** [is_running] *)
Definition get_is_running (s : t) : bool := is_running s.

(** What happens to the recognition system: calls of the orchestrator,
    and iterations of the processing thread, each taken as one step. *)
Inductive event :=
| SetAudioSource (new_source_name : string) (m_old m_new : mic_answers)
    (final_result : option str)
| Start (m : mic_answers)
| Stop (m : mic_answers) (loop_final_result stop_final_result : option str)
| LoopIteration (w : loop_answers).

Definition step (ev : event) (s : t) : t * list call :=
  match ev with
  | SetAudioSource name m_old m_new final_result =>
      set_audio_source name m_old m_new final_result s
  | Start m => fst (start m s)
  | Stop m f1 f2 => stop m f1 f2 s
  | LoopIteration w =>
      if processing_thread s && is_running s && negb (stop_event s)
      then stt_loop_iteration w s else (s, [])
  end.

Fixpoint run (evs : list event) (s : t) : t * list call :=
  match evs with
  | [] => (s, [])
  | ev :: rest =>
      let (s1, out1) := step ev s in
      let (s2, out2) := run rest s1 in
      (s2, (out1 ++ out2)%list)
  end.

End SpeechToTextSystem.

(** ** ConversationManager.py: the constructor and the control methods *)

Module ConversationControl.

Import Re.
Import ConversationManager.

Definition set_backend (client : option ai_client) (backend : backend_type) (s : t) : t :=
  {| current_conversation_id := current_conversation_id s;
     prompt_builder := prompt_builder s;
     active_ai_client := client;
     current_ai_backend_type := backend |}.

Definition set_prompt_builder (built : bool) (s : t) : t :=
  {| current_conversation_id := current_conversation_id s;
     prompt_builder := built;
     active_ai_client := active_ai_client s;
     current_ai_backend_type := current_ai_backend_type s |}.

Definition set_conversation (conv : option Z) (s : t) : t :=
  {| current_conversation_id := conv;
     prompt_builder := prompt_builder s;
     active_ai_client := active_ai_client s;
     current_ai_backend_type := current_ai_backend_type s |}.

(** What [config] leads to in [set_active_ai_model]: whether
    [model_gguf_path] is given and exists, and what building the client
    gives, either the client's model ([default_model] of a [GPTAPIClient],
    the base name of the model path of a [LocalLlamaClient]) or the
    exception raised by its constructor. *)
Record model_config := {
  model_gguf_path_exists : bool;
  client_built : outcome str
}.

(** [set_active_ai_model] *)
Definition set_active_ai_model (model_type : string) (config : model_config) (s : t)
  : t * outcome bool :=
  if String.eqb model_type "openai_gpt" then
    match client_built config with
    | returns model => (set_backend (Some (GPTAPIClient model)) openai_gpt s, returns true)
    | raises Exception => (set_backend None none s, returns false)
    | raises BaseException => (s, raises BaseException)
    end
  else if String.eqb model_type "local_gguf" then
    if negb (model_gguf_path_exists config) then (set_backend None none s, returns false)
    else
      match client_built config with
      | returns path =>
          (set_backend (Some (LocalLlamaClient path)) local_gguf s, returns true)
      | raises Exception => (set_backend None none s, returns false)
      | raises BaseException => (s, raises BaseException)
      end
  else if String.eqb model_type "none" then (set_backend None none s, returns true)
  else (set_backend None (current_ai_backend_type s) s, returns false).

(** An entry of [personalities_data]: whether it has a [system_prompt]
    that is not empty, and what [PromptBuilder] does with it. *)
Record personality := {
  system_prompt : bool;
  prompt_builder_built : outcome unit
}.

(** [personalities_data], in the order of its keys. *)
Definition personalities := list (string * personality).

Fixpoint lookup (key : string) (data : personalities) : option personality :=
  match data with
  | [] => None
  | (k, cfg) :: rest => if String.eqb key k then Some cfg else lookup key rest
  end.

(** [set_active_personality]; the key of the personality, used for logs
    and for the summary of a new conversation, is not kept here. *)
Definition set_active_personality (data : personalities) (personality_key : string)
    (s : t) : t * outcome bool :=
  match lookup personality_key data with
  | None => (s, returns false)
  | Some personality_cfg =>
      if negb (system_prompt personality_cfg) then (s, returns false)
      else
        match prompt_builder_built personality_cfg with
        | returns _ => (set_prompt_builder true s, returns true)
        | raises Exception => (set_prompt_builder false s, returns false)
        | raises BaseException => (s, raises BaseException)
        end
  end.

(** [_start_new_db_conversation]; [started] is what
    [db_manager.start_conversation] does. *)
Definition start_new_db_conversation (started : outcome (option Z)) (s : t)
  : t * outcome unit :=
  match started with
  | returns (Some new_id) => (set_conversation (Some new_id) s, returns tt)
  | returns None => (s, returns tt)
  | raises x => (s, raises x)
  end.

(** [start_new_conversation] *)
Definition start_new_conversation (started : outcome (option Z)) (s : t)
  : t * outcome (option Z) :=
  let (s1, r) := start_new_db_conversation started s in
  match r with
  | returns _ => (s1, returns (current_conversation_id s1))
  | raises x => (s1, raises x)
  end.

(** Truthiness of an optional [int]. *)
Definition truthy (conv : option Z) : bool :=
  match conv with
  | Some id => negb (Z.eqb id 0)
  | None => false
  end.

(** [end_current_conversation] *)
Definition end_current_conversation (s : t) : t :=
  if truthy (current_conversation_id s) then set_conversation None s else s.

(** [get_current_conversation_id] *)
Definition get_current_conversation_id (s : t) : option Z := current_conversation_id s.

(** The arguments of the constructor and what its collaborators do:
    [personalities_data] as [_load_personalities] gives it, the
    [PromptBuilder] of the fallback prompt, whether an OpenAI key is given
    or found in the environment, whether [initial_gguf_config] holds
    something, the configuration passed on to [set_active_ai_model], and
    the database. *)
Record init_args := {
  personalities_data : personalities;
  default_personality_key : string;
  fallback_prompt_builder_built : outcome unit;
  default_ai_backend_type : string;
  openai_api_key : bool;
  initial_gguf_config : bool;
  initial_model_config : model_config;
  initial_conversation_id : option Z;
  conversation_exists : bool;
  conversation_started : outcome (option Z)
}.

(** The part of [__init__] that loads the personality. *)
Definition init_personality (a : init_args) (s : t) : outcome t :=
  let (s1, loaded) :=
    match lookup (default_personality_key a) (personalities_data a) with
    | Some _ =>
        set_active_personality (personalities_data a) (default_personality_key a) s
    | None =>
        match personalities_data a with
        | (first_key, _) :: _ =>
            set_active_personality (personalities_data a) first_key s
        | [] => (s, returns false)
        end
    end in
  match loaded with
  | raises x => raises x
  | returns loaded_pers_ok =>
      if negb loaded_pers_ok || negb (prompt_builder s1) then
        match fallback_prompt_builder_built a with
        | returns _ => returns (set_prompt_builder true s1)
        | raises x => raises x
        end
      else returns s1
  end.

(** The part of [__init__] that sets the backend. *)
Definition init_backend (a : init_args) (s : t) : outcome t :=
  let s1 := set_backend None (current_ai_backend_type s) s in
  let (s2, active) :=
    if String.eqb (default_ai_backend_type a) "openai_gpt" then
      if negb (openai_api_key a) then (s1, returns false)
      else set_active_ai_model "openai_gpt" (initial_model_config a) s1
    else if String.eqb (default_ai_backend_type a) "local_gguf" then
      if initial_gguf_config a
      then set_active_ai_model "local_gguf" (initial_model_config a) s1
      else (s1, returns false)
    else if String.eqb (default_ai_backend_type a) "none" then
      (set_backend (active_ai_client s1) none s1, returns true)
    else (s1, returns false) in
  match active with
  | raises x => raises x
  | returns active_backend_set =>
      if negb active_backend_set && negb (String.eqb (default_ai_backend_type a) "none")
      then returns (set_backend (active_ai_client s2) none s2)
      else returns s2
  end.

(** The part of [__init__] that continues or starts a conversation; a
    constructor that gets no conversation raises [RuntimeError]. *)
Definition init_conversation (a : init_args) (s : t) : outcome t :=
  let s1 := set_conversation None s in
  let (s2, started) :=
    if truthy (initial_conversation_id a) && conversation_exists a
    then (set_conversation (initial_conversation_id a) s1, returns tt)
    else start_new_db_conversation (conversation_started a) s1 in
  match started with
  | raises x => raises x
  | returns _ =>
      match current_conversation_id s2 with
      | None => raises Exception
      | Some _ => returns s2
      end
  end.

(** [__init__] *)
Definition init (a : init_args) : outcome t :=
  let s0 := {| current_conversation_id := None;
               prompt_builder := false;
               active_ai_client := None;
               current_ai_backend_type := none |} in
  match init_personality a s0 with
  | raises x => raises x
  | returns s1 =>
      match init_backend a s1 with
      | raises x => raises x
      | returns s2 => init_conversation a s2
      end
  end.

(** Calls made on a conversation manager after its construction. *)
Inductive event :=
| SetActiveAiModel (model_type : string) (config : model_config)
| SetActivePersonality (personality_key : string)
| StartNewConversation (started : outcome (option Z))
| EndCurrentConversation.

Definition step (data : personalities) (ev : event) (s : t) : t :=
  match ev with
  | SetActiveAiModel model_type config => fst (set_active_ai_model model_type config s)
  | SetActivePersonality key => fst (set_active_personality data key s)
  | StartNewConversation started => fst (start_new_conversation started s)
  | EndCurrentConversation => end_current_conversation s
  end.

Definition run (data : personalities) (evs : list event) (s : t) : t :=
  fold_left (fun s ev => step data ev s) evs s.

End ConversationControl.

(** * Properties *)

(** ** Rational comparisons *)

Module PyFacts.

Import Py.

Lemma Qgtb_true (a b : Q) : Qgtb a b = true <-> b < a.
Proof.
  unfold Qgtb, Qltb. rewrite negb_true_iff.
  split; intro H.
  - apply Qnot_le_lt. intro L. apply Qle_bool_iff in L. congruence.
  - destruct (Qle_bool a b) eqn:E; [|reflexivity].
    apply Qle_bool_iff in E. exfalso. apply (Qlt_not_le _ _ H E).
Qed.

Lemma Qgtb_false (a b : Q) : Qgtb a b = false <-> a <= b.
Proof.
  unfold Qgtb, Qltb. rewrite negb_false_iff. apply Qle_bool_iff.
Qed.

Lemma Qltb_true (a b : Q) : Qltb a b = true <-> a < b.
Proof. apply (Qgtb_true b a). Qed.

Lemma min_bounds (lo hi a b : Q) : lo <= a <= hi -> lo <= b -> lo <= min a b <= hi.
Proof.
  intros [H1 H2] H3. unfold min.
  destruct (Qltb b a) eqn:E.
  - apply Qltb_true in E. split; [assumption | lra].
  - split; assumption.
Qed.

Lemma max_bounds (lo hi a b : Q) : lo <= a <= hi -> b <= hi -> lo <= max a b <= hi.
Proof.
  intros [H1 H2] H3. unfold max.
  destruct (Qgtb b a) eqn:E.
  - apply Qgtb_true in E. split; [lra | assumption].
  - split; assumption.
Qed.

End PyFacts.

(** ** Invariants of the gamepad controller *)

Module MotionGamePadFacts.

Import MotionGamePad.

Definition speed_ok (m : Q) : Prop :=
  MIN_SPEED_MODIFIER_LIMIT <= m <= MAX_SPEED_MODIFIER_LIMIT.

(** A velocity component is either zero or clearly above the threshold
    used by the comparisons of the processing loop. *)
Definition settled (q : Q) : Prop := q == 0 \/ VELOCITY_EPSILON < Qabs q.

Definition settled_velocities (v : velocities) : Prop :=
  settled (vx v) /\ settled (vy v) /\ settled (vtheta v).

Record pad_inv (s : t) : Prop := {
  inv_mailbox : emergency_stop_active_flag s = true -> latest_gamepad_payload s = None;
  inv_speed : speed_ok (current_speed_modifier s);
  inv_last : settled_velocities (last_sent_velocities s)
}.

(** A call that is no velocity command other than zero when the
    emergency-stop flag is up (at the call, or when the operation began). *)
Definition harmless (flag_before : bool) (e : emission) : Prop :=
  at_estop_flag e = true \/ flag_before = true ->
  forall v, made e = set_base_velocities v -> v = zero_velocities.

Lemma settled_zero : settled_velocities zero_velocities.
Proof. repeat split; left; reflexivity. Qed.

Lemma clamp_speed_ok (m : Q) : speed_ok (clamp_speed m).
Proof.
  unfold speed_ok, clamp_speed.
  apply PyFacts.max_bounds.
  - unfold MIN_SPEED_MODIFIER_LIMIT, MAX_SPEED_MODIFIER_LIMIT. split; lra.
  - unfold Py.min. destruct (Py.Qltb m MAX_SPEED_MODIFIER_LIMIT) eqn:E.
    + apply PyFacts.Qltb_true in E. lra.
    + lra.
Qed.

Lemma deadzone_settled (raw value m : Q) :
  Qabs value == Qabs raw -> speed_ok m -> settled (apply_deadzone value raw * m).
Proof.
  intros Hv [Hlo _]. unfold apply_deadzone, settled.
  destruct (Py.Qgtb (Qabs raw) JOYSTICK_DEADZONE) eqn:E.
  - right. apply PyFacts.Qgtb_true in E.
    rewrite Qabs_Qmult, Hv.
    unfold MIN_SPEED_MODIFIER_LIMIT in Hlo.
    rewrite (Qabs_pos m) by lra.
    unfold JOYSTICK_DEADZONE in E. unfold VELOCITY_EPSILON.
    assert (H : (8 # 100) * (1 # 10) <= Qabs raw * m).
    { apply Qmult_le_compat_nonneg; split; lra. }
    lra.
  - left. ring.
Qed.

Lemma target_settled (p : payload) (m : Q) :
  speed_ok m -> settled_velocities (target_velocities p m).
Proof.
  intro H. unfold target_velocities, settled_velocities; simpl.
  repeat split; apply deadzone_settled; try assumption;
    try reflexivity; apply Qabs_opp.
Qed.

Ltac split_ifs :=
  repeat match goal with
         | |- context [if ?c then _ else _] => destruct c eqn:?
         end.

Lemma update_gamepad_state_inv (p : payload) (s : t) :
  pad_inv s -> pad_inv (update_gamepad_state p s).
Proof.
  intros [H1 H2 H3]. unfold update_gamepad_state.
  destruct (emergency_stop_active_flag s) eqn:E.
  - constructor; auto.
  - constructor; simpl; auto. congruence.
Qed.

Lemma trigger_emergency_stop_inv (s : t) :
  pad_inv s -> pad_inv (fst (trigger_emergency_stop s)).
Proof.
  intros [H1 H2 H3]. constructor; simpl; auto using settled_zero.
Qed.

Lemma trigger_emergency_stop_harmless (s : t) (b : bool) :
  Forall (harmless b) (snd (trigger_emergency_stop s)).
Proof.
  simpl. repeat constructor; intros _ v E; simpl in E; congruence.
Qed.

Lemma clear_emergency_stop_inv (s : t) :
  pad_inv s -> pad_inv (clear_emergency_stop s).
Proof.
  intros [H1 H2 H3]. constructor; simpl; auto.
Qed.

Lemma update_speed_factor_inv (f : Q) (s : t) :
  pad_inv s -> pad_inv (update_speed_factor_from_global f s).
Proof.
  intros [H1 H2 H3]. constructor; simpl; auto using clamp_speed_ok.
Qed.

Lemma process_dpad_events_frame (d : dpad) (s : t) :
  let s' := process_dpad_events d s in
  emergency_stop_active_flag s' = emergency_stop_active_flag s
  /\ latest_gamepad_payload s' = latest_gamepad_payload s
  /\ last_sent_velocities s' = last_sent_velocities s
  /\ processing_thread s' = processing_thread s
  /\ new_data_event s' = new_data_event s
  /\ run_processing_flag s' = run_processing_flag s.
Proof.
  unfold process_dpad_events; cbv zeta. split_ifs; simpl; auto 10.
Qed.

Lemma process_dpad_events_speed (d : dpad) (s : t) :
  speed_ok (current_speed_modifier s) ->
  speed_ok (current_speed_modifier (process_dpad_events d s)).
Proof.
  intro H.
  assert (Up : forall m, speed_ok m ->
            speed_ok (Py.min MAX_SPEED_MODIFIER_LIMIT (m + SPEED_MODIFIER_INCREMENT_STEP))).
  { intros m [A B]. apply PyFacts.min_bounds.
    - unfold MIN_SPEED_MODIFIER_LIMIT, MAX_SPEED_MODIFIER_LIMIT. split; lra.
    - unfold MIN_SPEED_MODIFIER_LIMIT, SPEED_MODIFIER_INCREMENT_STEP in *. lra. }
  assert (Down : forall m, speed_ok m ->
            speed_ok (Py.max MIN_SPEED_MODIFIER_LIMIT (m - SPEED_MODIFIER_INCREMENT_STEP))).
  { intros m [A B]. apply PyFacts.max_bounds.
    - unfold MIN_SPEED_MODIFIER_LIMIT, MAX_SPEED_MODIFIER_LIMIT. split; lra.
    - unfold MAX_SPEED_MODIFIER_LIMIT, SPEED_MODIFIER_INCREMENT_STEP in *. lra. }
  unfold process_dpad_events; cbv zeta. split_ifs; simpl; auto.
Qed.

Lemma process_dpad_events_inv (d : dpad) (s : t) :
  pad_inv s -> pad_inv (process_dpad_events d s).
Proof.
  intros [H1 H2 H3].
  destruct (process_dpad_events_frame d s) as (F1 & F2 & F3 & _).
  constructor.
  - rewrite F1, F2. assumption.
  - apply process_dpad_events_speed. assumption.
  - rewrite F3. assumption.
Qed.

Lemma dispatch_action_no_velocity (c : option action_config) :
  Forall (fun k => forall v, k <> set_base_velocities v) (dispatch_action c).
Proof.
  unfold dispatch_action. destruct c as [cfg|]; [|constructor].
  split_ifs; try constructor;
    repeat match goal with
           | |- context [match ?o with Some _ => _ | None => _ end] => destruct o
           end;
    split_ifs; repeat constructor; intros v E; discriminate.
Qed.

Lemma process_action_button_events_state (b : buttons) (s : t) :
  fst (process_action_button_events b s) = set_prev_actions b s.
Proof.
  unfold process_action_button_events.
  destruct (negb (asc_available s)); [reflexivity|].
  destruct (_ || _); [reflexivity|].
  destruct (Py.assoc _ _) as [[|]|]; reflexivity.
Qed.

Lemma process_action_button_events_no_velocity (b : buttons) (s : t) :
  Forall (fun e => forall v, made e <> set_base_velocities v)
    (snd (process_action_button_events b s)).
Proof.
  unfold process_action_button_events.
  destruct (negb (asc_available s)); [constructor|].
  destruct (_ || _); [constructor|].
  destruct (Py.assoc _ _) as [[|entry l]|]; try constructor.
  cbn [snd]. rewrite Forall_map, Forall_flat_map, Forall_forall. intros k _.
  destruct (rising _ _); [|constructor].
  eapply Forall_impl; [|apply dispatch_action_no_velocity].
  intros a H v. cbn. apply H.
Qed.

Lemma process_action_button_events_stamped (b : buttons) (s : t) :
  Forall (fun e => at_estop_flag e = emergency_stop_active_flag s)
    (snd (process_action_button_events b s)).
Proof.
  unfold process_action_button_events.
  destruct (negb (asc_available s)); [constructor|].
  destruct (_ || _); [constructor|].
  destruct (Py.assoc _ _) as [[|entry l]|]; try constructor.
  cbn [snd]. rewrite Forall_map, Forall_forall. intros k _. reflexivity.
Qed.

(** Everything [process_payload] leaves alone, its invariant, and the flag
    seen by its calls. *)
Lemma process_payload_spec (p : payload) (s : t) :
  pad_inv s ->
  let r := process_payload p s in
  pad_inv (fst r)
  /\ emergency_stop_active_flag (fst r) = emergency_stop_active_flag s
  /\ Forall (fun e => at_estop_flag e = emergency_stop_active_flag s) (snd r).
Proof.
  intros I. unfold process_payload.
  set (s1 := process_dpad_events (dpad_events p) s).
  pose proof (process_dpad_events_inv (dpad_events p) I) as I1. fold s1 in I1.
  destruct (process_dpad_events_frame (dpad_events p) s) as (F1 & _). fold s1 in F1.
  pose proof (process_action_button_events_state (action_button_events p) s1) as Hs.
  pose proof (process_action_button_events_stamped (action_button_events p) s1) as Hst.
  destruct (process_action_button_events (action_button_events p) s1) as [s2 asc_calls].
  cbn [fst snd] in Hs, Hst. subst s2. rewrite F1 in Hst.
  destruct I1 as [A B C].
  destruct (should_send_velocities _ _); cbn [fst snd].
  - split; [|split].
    + constructor; simpl; auto. apply target_settled. assumption.
    + simpl. assumption.
    + apply Forall_app. split; [assumption|].
      constructor; [|constructor]. simpl. assumption.
  - split; [|split].
    + constructor; simpl; auto.
    + simpl. assumption.
    + assumption.
Qed.

Lemma dead_man_spec (s : t) :
  pad_inv s ->
  let r := dead_man s in
  pad_inv (fst r)
  /\ emergency_stop_active_flag (fst r) = emergency_stop_active_flag s
  /\ Forall (harmless (emergency_stop_active_flag s)) (snd r).
Proof.
  intros [A B C]. unfold dead_man.
  destruct (_ && _); cbn [fst snd].
  - split; [|split].
    + constructor; simpl; auto using settled_zero.
    + reflexivity.
    + repeat constructor. intros _ v E. simpl in E. congruence.
  - split; [|split]; [constructor; auto | reflexivity | constructor].
Qed.

Lemma stamped_harmless (b : bool) (out : list emission) :
  b = false ->
  Forall (fun e => at_estop_flag e = b) out -> Forall (harmless b) out.
Proof.
  intros -> H. eapply Forall_impl; [|exact H].
  intros e E [F|F]; congruence.
Qed.

(** A worker step keeps the invariant and the flag, and sends no velocity
    other than zero while the flag is up. *)
Lemma loop_step_spec (timeout_elapsed : bool) (s : t) :
  pad_inv s ->
  let r := loop_step timeout_elapsed s in
  pad_inv (fst r)
  /\ emergency_stop_active_flag (fst r) = emergency_stop_active_flag s
  /\ Forall (harmless (emergency_stop_active_flag s)) (snd r).
Proof.
  intros I. unfold loop_step.
  destruct (processing_thread s) as [[|]|] eqn:T.
  - (* at the loop head *)
    destruct (negb (run_processing_flag s)).
    + cbn [fst snd]. split; [|split].
      * destruct I. constructor; simpl; auto; congruence.
      * reflexivity.
      * destruct (emergency_stop_active_flag s) eqn:E; repeat constructor.
        intros _ v Ev. simpl in Ev. congruence.
    + destruct (emergency_stop_active_flag s) eqn:E.
      * destruct (any_above_eps _); cbn [fst snd].
        -- split; [|split].
           ++ destruct I. constructor; simpl; auto using settled_zero.
           ++ simpl. assumption.
           ++ repeat constructor. intros _ v Ev. simpl in Ev. congruence.
        -- split; [|split]; [assumption | assumption | constructor].
      * cbn [fst snd]. split; [|split].
        -- destruct I. constructor; simpl; auto.
        -- simpl. assumption.
        -- constructor.
  - (* waiting for data *)
    destruct (new_data_event s).
    + set (s1 := set_thread (Some at_loop_head) (set_payload None (set_event false s))).
      assert (I1 : pad_inv s1) by (destruct I; constructor; simpl; auto).
      assert (F1 : emergency_stop_active_flag s1 = emergency_stop_active_flag s)
        by reflexivity.
      destruct (latest_gamepad_payload s) as [p|] eqn:P.
      * destruct (process_payload_spec p I1) as (A & B & C).
        rewrite F1 in B, C.
        split; [assumption | split; [assumption|]].
        apply stamped_harmless; [|assumption].
        destruct (emergency_stop_active_flag s) eqn:E; [|reflexivity].
        destruct I as [M _ _]. rewrite (M E) in P. discriminate.
      * destruct (dead_man_spec I1) as (A & B & C). rewrite F1 in B, C.
        split; [assumption | split; assumption].
    + destruct timeout_elapsed.
      * set (s1 := set_thread (Some at_loop_head) s).
        assert (I1 : pad_inv s1) by (destruct I; constructor; simpl; auto).
        destruct (dead_man_spec I1) as (A & B & C).
        split; [assumption | split; assumption].
      * cbn [fst snd]. split; [assumption | split; [reflexivity | constructor]].
  - cbn [fst snd]. split; [assumption | split; [reflexivity | constructor]].
Qed.

Lemma start_processing_spec (init_ok : bool) (s : t) :
  pad_inv s ->
  emergency_stop_active_flag s = false ->
  let r := start_processing init_ok s in
  pad_inv (fst (fst r))
  /\ emergency_stop_active_flag (fst (fst r)) = false
  /\ Forall (fun e => forall v, made e <> set_base_velocities v) (snd (fst r)).
Proof.
  intros I F. unfold start_processing.
  destruct (processing_thread s).
  - cbn [fst snd]. split; [assumption | split; [assumption | constructor]].
  - destruct (negb init_ok); cbn [fst snd].
    + split; [assumption | split; [assumption|]].
      repeat constructor. intros v E; discriminate.
    + split; [|split].
      * destruct I. constructor; simpl; auto.
      * reflexivity.
      * repeat constructor. intros v E; discriminate.
Qed.

Lemma harmless_app (b : bool) (l1 l2 : list emission) :
  Forall (harmless b) l1 -> Forall (harmless b) l2 -> Forall (harmless b) (l1 ++ l2).
Proof. intros. apply Forall_app. split; assumption. Qed.

Lemma join_spec (s : t) :
  pad_inv s ->
  let r := join s in
  pad_inv (fst r)
  /\ emergency_stop_active_flag (fst r) = emergency_stop_active_flag s
  /\ Forall (harmless (emergency_stop_active_flag s)) (snd r).
Proof.
  intros I. unfold join.
  destruct (processing_thread s) as [[|]|].
  - apply loop_step_spec. assumption.
  - destruct (loop_step_spec false I) as (A & B & C).
    destruct (loop_step false s) as [s1 e1]. cbn [fst snd] in A, B, C.
    destruct (loop_step_spec false A) as (A' & B' & C').
    destruct (loop_step false s1) as [s2 e2]. cbn [fst snd] in *.
    rewrite B in B', C'.
    split; [assumption | split; [assumption|]].
    apply harmless_app; assumption.
  - cbn [fst snd]. split; [assumption | split; [reflexivity | constructor]].
Qed.

Lemma stop_processing_spec (emergency_stop_invoked : bool) (s : t) :
  pad_inv s ->
  let r := stop_processing emergency_stop_invoked s in
  pad_inv (fst r)
  /\ emergency_stop_active_flag (fst r) = emergency_stop_active_flag s
  /\ Forall (harmless (emergency_stop_active_flag s)) (snd r).
Proof.
  intros I. unfold stop_processing.
  set (s1 := set_event true (set_run false s)).
  assert (I1 : pad_inv s1) by (destruct I; constructor; simpl; auto).
  destruct (join_spec I1) as (A & B & C).
  destruct (join s1) as [s2 e]. cbn [fst snd] in A, B, C.
  change (emergency_stop_active_flag s1) with (emergency_stop_active_flag s) in B, C.
  assert (I3 : pad_inv (set_thread None s2)) by (destruct A; constructor; simpl; auto).
  destruct (negb emergency_stop_invoked); cbn [fst snd].
  - split; [assumption | split; [assumption|]].
    apply harmless_app; [assumption|].
    repeat constructor. intros _ v E. discriminate.
  - split; [assumption | split; assumption].
Qed.

(** The worker thread only exists while [_run_processing_flag] is set
    (between two calls on the controller). *)
Definition thread_ok (s : t) : Prop :=
  processing_thread s <> None -> run_processing_flag s = true.

Lemma process_payload_frame (p : payload) (s : t) :
  let r := process_payload p s in
  processing_thread (fst r) = processing_thread s
  /\ run_processing_flag (fst r) = run_processing_flag s
  /\ latest_gamepad_payload (fst r) = latest_gamepad_payload s
  /\ new_data_event (fst r) = new_data_event s.
Proof.
  unfold process_payload.
  destruct (process_dpad_events_frame (dpad_events p) s) as (_ & F2 & _ & F4 & F5 & F6).
  set (s1 := process_dpad_events (dpad_events p) s) in *.
  pose proof (process_action_button_events_state (action_button_events p) s1) as Hs.
  destruct (process_action_button_events (action_button_events p) s1) as [s2 asc_calls].
  cbn [fst] in Hs. subst s2.
  destruct (should_send_velocities _ _); cbn [fst]; simpl; auto.
Qed.

Lemma dead_man_frame (s : t) :
  processing_thread (fst (dead_man s)) = processing_thread s
  /\ run_processing_flag (fst (dead_man s)) = run_processing_flag s.
Proof. unfold dead_man. destruct (_ && _); simpl; auto. Qed.

Lemma loop_step_thread_ok (timeout_elapsed : bool) (s : t) :
  thread_ok s -> thread_ok (fst (loop_step timeout_elapsed s)).
Proof.
  unfold thread_ok, loop_step. intros H.
  destruct (processing_thread s) as [[|]|] eqn:T.
  - assert (R : run_processing_flag s = true) by (apply H; congruence).
    rewrite R. cbn [negb].
    destruct (emergency_stop_active_flag s); [destruct (any_above_eps _)|];
      simpl; auto.
  - assert (R : run_processing_flag s = true) by (apply H; congruence).
    destruct (new_data_event s).
    + destruct (latest_gamepad_payload s) as [p|].
      * intros _.
        destruct (process_payload_frame p
                    (set_thread (Some at_loop_head)
                       (set_payload None (set_event false s)))) as (_ & F & _).
        rewrite F. exact R.
      * intros _.
        destruct (dead_man_frame
                    (set_thread (Some at_loop_head)
                       (set_payload None (set_event false s)))) as (_ & F).
        rewrite F. exact R.
    + destruct timeout_elapsed.
      * intros _.
        destruct (dead_man_frame (set_thread (Some at_loop_head) s)) as (_ & F).
        rewrite F. exact R.
      * intros _. exact R.
  - cbn [fst]. rewrite T. intros X. congruence.
Qed.

Lemma start_processing_thread_ok (init_ok : bool) (s : t) :
  thread_ok s -> thread_ok (fst (fst (start_processing init_ok s))).
Proof.
  unfold thread_ok, start_processing. intros H.
  destruct (processing_thread s) eqn:T.
  - cbn [fst]. rewrite T. assumption.
  - destruct (negb init_ok); cbn [fst]; [rewrite T; assumption | reflexivity].
Qed.

Lemma stop_processing_thread_ok (b : bool) (s : t) :
  thread_ok (fst (stop_processing b s)).
Proof.
  unfold thread_ok, stop_processing.
  destruct (join _) as [s2 e]. destruct (negb b); simpl; congruence.
Qed.

(** *** The record of the last velocity sent *)

(** The last velocity command among [out], or [acc] if there is none. *)
Definition last_velocity_from (acc : option velocities) (out : list emission)
  : option velocities :=
  fold_left (fun a e => match made e with
                        | set_base_velocities v => Some v
                        | _ => a
                        end) out acc.


Lemma last_velocity_from_app (acc : option velocities) (l1 l2 : list emission) :
  last_velocity_from acc (l1 ++ l2)
  = last_velocity_from (last_velocity_from acc l1) l2.
Proof. apply fold_left_app. Qed.









End MotionGamePadFacts.

(** ** The motion arbiter *)

Module MotionManagerFacts.

Import MotionGamePad MotionManager MotionGamePadFacts.

Record inv (s : MotionManager.t) : Prop := {
  inv_pad : pad_inv (gamepad_controller s);
  inv_thread : thread_ok (gamepad_controller s);
  inv_estop :
    current_control_mode s = emergency_stopped ->
    emergency_stop_active_flag (gamepad_controller s) = true;
  inv_gamepad :
    current_control_mode s = gamepad ->
    emergency_stop_active_flag (gamepad_controller s) = false
}.

(** A call that is not a velocity command other than [(0,0,0)] when it is
    made with the emergency-stop flag up or in mode [emergency_stopped]. *)
Definition safe (e : MotionManager.emission) : Prop :=
  at_estop_flag (sent e) = true \/ at_mode e = emergency_stopped ->
  forall v, made (sent e) = set_base_velocities v -> v = zero_velocities.

Lemma mode_eqb_eq (m1 m2 : control_mode) : mode_eqb m1 m2 = true <-> m1 = m2.
Proof. destruct m1, m2; simpl; split; congruence. Qed.


Lemma stamp_safe (m : control_mode) (b : bool) (out : list MotionGamePad.emission) :
  (m = emergency_stopped -> b = true) ->
  Forall (harmless b) out -> Forall safe (stamp m out).
Proof.
  intros Hm H. unfold stamp. rewrite Forall_map.
  eapply Forall_impl; [|exact H].
  intros e He [F|F] v Ev; simpl in *; apply He; auto.
Qed.

Lemma no_velocity_safe (m : control_mode) (out : list MotionGamePad.emission) :
  Forall (fun e => forall v, made e <> set_base_velocities v) out ->
  Forall safe (stamp m out).
Proof.
  intros H. unfold stamp. rewrite Forall_map.
  eapply Forall_impl; [|exact H].
  intros e He _ v Ev. simpl in Ev. elim (He v Ev).
Qed.

Lemma init_inv asc cfg layer speed : inv (MotionManager.init asc cfg layer speed).
Proof.
  constructor; simpl; try discriminate; try reflexivity.
  - constructor; simpl; auto using clamp_speed_ok, settled_zero.
  - intros X. elim X. reflexivity.
Qed.

Lemma trigger_internal_spec (s : MotionManager.t) :
  inv s ->
  inv (fst (trigger_internal_emergency_stop s))
  /\ Forall safe (snd (trigger_internal_emergency_stop s)).
Proof.
  intros I. unfold trigger_internal_emergency_stop.
  destruct (mode_eqb (current_control_mode s) emergency_stopped) eqn:M; cbn [negb].
  - split; [assumption | constructor].
  - cbn [fst snd]. split.
    + destruct I as [[A B C] T _ _].
      constructor; simpl; try discriminate; auto.
      constructor; simpl; auto using settled_zero.
    + repeat constructor; intros _ v E; simpl in E; congruence.
Qed.

Lemma handle_payload_spec (p : payload) (s : MotionManager.t) :
  inv s ->
  inv (fst (handle_gamepad_payload_from_tablet p s))
  /\ Forall safe (snd (handle_gamepad_payload_from_tablet p s)).
Proof.
  intros I. unfold handle_gamepad_payload_from_tablet.
  destruct (_ && negb (mode_eqb (current_control_mode s) emergency_stopped)).
  - apply trigger_internal_spec. assumption.
  - cbv zeta.
    match goal with
    | |- context [if ?c then clear_internal_emergency_stop s else s] =>
        set (s1 := if c then clear_internal_emergency_stop s else s)
    end.
    assert (I1 : inv s1).
    { subst s1. destruct (_ && _); [|assumption].
      unfold clear_internal_emergency_stop.
      destruct (mode_eqb (current_control_mode s) emergency_stopped); [|assumption].
      destruct I as [A T _ _].
      constructor; simpl; try discriminate; auto using clear_emergency_stop_inv. }
    destruct (mode_eqb (current_control_mode s1) gamepad) eqn:G; cbn [fst snd].
    + split; [|constructor].
      destruct I1 as [A T E1 E2].
      apply mode_eqb_eq in G.
      constructor; simpl; auto using update_gamepad_state_inv.
      * unfold update_gamepad_state, thread_ok in *.
        destruct (emergency_stop_active_flag _); simpl; auto.
      * intros X. congruence.
      * intros _. unfold update_gamepad_state.
        rewrite (E2 G). simpl. auto.
    + split; [assumption | constructor].
Qed.

Lemma activate_spec (init_ok : bool) (s : MotionManager.t) :
  inv s ->
  inv (fst (fst (activate_gamepad_control init_ok s)))
  /\ Forall safe (snd (fst (activate_gamepad_control init_ok s))).
Proof.
  intros I. unfold activate_gamepad_control.
  destruct (mode_eqb (current_control_mode s) gamepad).
  - split; [assumption | constructor].
  - set (c1 := clear_emergency_stop (gamepad_controller s)).
    assert (I1 : pad_inv c1) by (apply clear_emergency_stop_inv; apply I).
    assert (T1 : thread_ok c1) by (destruct I as [_ T _ _]; exact T).
    destruct (start_processing_spec init_ok I1 eq_refl) as (A & B & C).
    pose proof (start_processing_thread_ok init_ok T1) as T2.
    destruct (start_processing init_ok c1) as [[c2 out] started].
    cbn [fst snd] in *.
    destruct started; cbn [fst snd].
    + split; [|apply no_velocity_safe; assumption].
      constructor; simpl; auto; discriminate.
    + split; [|apply no_velocity_safe; assumption].
      constructor; simpl; auto; discriminate.
Qed.

Lemma deactivate_spec (by_estop : bool) (s : MotionManager.t) :
  inv s ->
  inv (fst (deactivate_gamepad_control by_estop s))
  /\ Forall safe (snd (deactivate_gamepad_control by_estop s)).
Proof.
  intros I. unfold deactivate_gamepad_control.
  destruct (_ || _); [|split; [assumption | constructor]].
  destruct I as [A T E1 E2].
  destruct (stop_processing_spec by_estop A) as (A' & B' & C').
  pose proof (stop_processing_thread_ok by_estop (gamepad_controller s)) as T'.
  destruct (stop_processing by_estop (gamepad_controller s)) as [c out].
  cbn [fst snd] in *.
  split.
  - destruct (negb _) eqn:N; constructor; simpl; auto; try discriminate.
    + intros X. rewrite B'. auto.
    + intros X. apply negb_false_iff, andb_true_iff in N. destruct N as [_ N].
      simpl in N. apply mode_eqb_eq in N. congruence.
  - eapply stamp_safe; [|exact C']. assumption.
Qed.

Lemma set_global_speed_factor_inv (f : Q) (s : MotionManager.t) :
  inv s -> inv (set_global_speed_factor f s).
Proof.
  intros I. unfold set_global_speed_factor.
  destruct (_ && _); [|assumption].
  destruct I as [A T E1 E2].
  constructor; simpl; auto using update_speed_factor_inv.
Qed.

Lemma worker_step_spec (b : bool) (s : MotionManager.t) :
  inv s ->
  inv (fst (step (WorkerStep b) s)) /\ Forall safe (snd (step (WorkerStep b) s)).
Proof.
  intros [A T E1 E2]. simpl.
  destruct (loop_step_spec b A) as (A' & B' & C').
  pose proof (loop_step_thread_ok b T) as T'.
  destruct (loop_step b (gamepad_controller s)) as [c out]. cbn [fst snd] in *.
  split.
  - constructor; simpl; auto; rewrite B'; assumption.
  - eapply stamp_safe; [|exact C']. assumption.
Qed.

Lemma step_spec (ev : event) (s : MotionManager.t) :
  inv s -> inv (fst (step ev s)) /\ Forall safe (snd (step ev s)).
Proof.
  intros I. destruct ev as [p| |init_ok|by_estop|f|b].
  - apply handle_payload_spec. assumption.
  - apply trigger_internal_spec. assumption.
  - simpl. destruct (activate_spec init_ok I) as (A & B).
    destruct (activate_gamepad_control init_ok s) as [[s' out] ok].
    split; assumption.
  - apply deactivate_spec. assumption.
  - simpl. split; [apply set_global_speed_factor_inv; assumption | constructor].
  - apply worker_step_spec. assumption.
Qed.

Lemma run_spec (evs : list event) (s : MotionManager.t) :
  inv s -> inv (fst (run evs s)) /\ Forall safe (snd (run evs s)).
Proof.
  revert s. induction evs as [|ev rest IH]; intros s I; simpl.
  - split; [assumption | constructor].
  - destruct (step_spec ev I) as (A & B).
    destruct (step ev s) as [s1 out1]. cbn [fst snd] in A, B.
    destruct (IH s1 A) as (A' & B').
    destruct (run rest s1) as [s2 out2]. cbn [fst snd] in *.
    split; [assumption|]. apply Forall_app. split; assumption.
Qed.

(** *** The last velocity sent to the hardware *)





End MotionManagerFacts.

(** ** Claims about the motion arbiter *)

Module MotionArbiter.

Import MotionGamePad MotionManager MotionGamePadFacts MotionManagerFacts.

(** The calls of a trace, without their stamps. *)
Definition calls (out : list MotionManager.emission) : list call :=
  map (fun e => made (sent e)) out.

Definition pressed_l3_or_r3 (p : payload) : bool :=
  l3_pressed (stick_button_states p) || r3_pressed (stick_button_states p).


Definition is_zero (v : velocities) : Prop :=
  vx v == 0 /\ vy v == 0 /\ vtheta v == 0.

Lemma above_eps_zero (q : Q) : q == 0 -> above_eps q = false.
Proof.
  intros H. unfold above_eps. apply PyFacts.Qgtb_false.
  rewrite H. unfold VELOCITY_EPSILON. simpl. lra.
Qed.

Lemma any_above_eps_zero (v : velocities) : is_zero v -> any_above_eps v = false.
Proof.
  intros (A & B & C). unfold any_above_eps.
  rewrite (above_eps_zero A), (above_eps_zero B), (above_eps_zero C). reflexivity.
Qed.


Lemma settled_below_zero (v : velocities) :
  settled_velocities v -> any_above_eps v = false ->
  vx v == 0 /\ vy v == 0 /\ vtheta v == 0.
Proof.
  intros (L1 & L2 & L3) A. unfold any_above_eps in A.
  apply orb_false_iff in A. destruct A as [A A3].
  apply orb_false_iff in A. destruct A as [A1 A2].
  unfold above_eps in *.
  repeat split.
  - destruct L1 as [L1|L1]; [exact L1|]. apply PyFacts.Qgtb_true in L1. congruence.
  - destruct L2 as [L2|L2]; [exact L2|]. apply PyFacts.Qgtb_true in L2. congruence.
  - destruct L3 as [L3|L3]; [exact L3|]. apply PyFacts.Qgtb_true in L3. congruence.
Qed.








(** What the handler does with a payload whose stick buttons are both
    released when the mode is [emergency_stopped]. *)
Lemma release_payload_spec (q : payload) (s : MotionManager.t) :
  current_control_mode s = emergency_stopped ->
  pressed_l3_or_r3 q = false ->
  handle_gamepad_payload_from_tablet q s
  = (set_controller
       (update_gamepad_state q (clear_emergency_stop (gamepad_controller s)))
       (clear_internal_emergency_stop s), []).
Proof.
  intros M K. unfold handle_gamepad_payload_from_tablet.
  fold (pressed_l3_or_r3 q). rewrite K, M. simpl.
  unfold clear_internal_emergency_stop. rewrite M. reflexivity.
Qed.


(** A payload with the given stick positions and stick buttons, and no
    other button pressed. *)
Definition sticks (lx ly rx : Q) (l3 r3 : bool) : payload :=
  {| left_stick := {| x := lx; y := ly |};
     right_stick := {| x := rx; y := 0 |};
     dpad_events := {| up := false; down := false; left := false; right := false |};
     action_button_events :=
       {| btn_a := false; btn_b := false; btn_x := false; btn_y := false |};
     stick_button_states := {| l3_pressed := l3; r3_pressed := r3 |} |}.

(** The arbiter after gamepad control was activated and the worker started
    waiting. *)
Definition driving : MotionManager.t :=
  fst (run [Activate true; WorkerStep false] (MotionManager.init true [] 0 (5 # 10))).


(** The events that leave the arbiter in [gamepad] mode with the robot
    moving and the worker waiting for the next payload. *)
Definition moving_events : list event :=
  [Activate true; WorkerStep false;
   Payload (sticks (1 # 2) (1 # 2) 0 false false);
   WorkerStep false; WorkerStep false].


(** The emergency-stop cycle of the specification's boundary scenarios: a
    payload with L3 pressed stops the robot; the same payload with both
    stick buttons released resumes gamepad control and moves it. *)
Example emergency_stop_cycle :
  let pressed := sticks (1 # 2) (1 # 2) 0 true false in
  let released := sticks (1 # 2) (1 # 2) 0 false false in
  current_control_mode (fst (run [Payload pressed] driving)) = emergency_stopped
  /\ calls (snd (run [Payload pressed; WorkerStep true; Payload pressed;
                      WorkerStep true] driving))
     = [trigger_hardware_emergency_stop; set_base_velocities zero_velocities]
  /\ current_control_mode
       (fst (run [Payload pressed; WorkerStep true; Payload released] driving))
     = gamepad
  /\ calls (snd (run [Payload pressed; WorkerStep true; Payload released;
                      WorkerStep false; WorkerStep false] driving))
     = [trigger_hardware_emergency_stop; set_base_velocities zero_velocities;
        set_base_velocities
          {| vx := 5 # 20; vy := - 5 # 20; vtheta := (-0 # 1) * (5 # 10) |}].
Proof. vm_compute. repeat split. Qed.

End MotionArbiter.

(** ** Claims about the tablet gateway *)

Module TabletGateway.

Import Messages TabletInterface.
Local Open Scope string_scope.

(** A gateway with every callback installed. *)
Definition wired : TabletInterface.t :=
  {| has_on_input_received := true;
     has_on_config_received := true;
     has_on_gamepad_payload_received := true;
     has_on_gamepad_emergency_stop := true |}.

(** The frame [{"type": "telemetry", "payload": {}}]. *)
Definition unknown_type_frame : loaded :=
  Loaded (JObj [("type", JStr "telemetry"); ("payload", JObj [])]).

(** C7, as stated, fails: a frame whose type is none of the recognised
    ones passes [deserialize_client_message] and nothing is sent back. *)
Lemma C7_unknown_type_not_rejected :
  needs_dict_payload "telemetry" = false
  /\ deserialize_client_message unknown_type_frame
     = Ok [("type", JStr "telemetry"); ("payload", JObj [])]
  /\ websocket_receive wired 7%nat unknown_type_frame = [].
Proof. repeat split. Qed.

Definition type_error : string :=
  "El mensaje JSON es invalido: la clave 'type' es faltante o no es un string.".

(** C7, amended.  A frame holding a JSON object whose [type] is a non-empty
    string other than [input], [config] and [gamepad_state] is accepted by
    [deserialize_client_message] and answered with nothing (the gateway
    only logs a warning).  The frame is rejected with a [system] error
    frame, sent to that client only, when its [type] is missing, empty or
    not a string. *)
Theorem C7_unknown_type_only_logged
    (s : TabletInterface.t) (ws : client) (message : dict) (ty : string) :
  get "type" message = Some (JStr ty) ->
  ty <> "" ->
  needs_dict_payload ty = false ->
  deserialize_client_message (Loaded (JObj message)) = Ok message
  /\ websocket_receive s ws (Loaded (JObj message)) = []
  /\ (forall other : dict,
        match get "type" other with
        | Some (JStr t) => t = ""
        | _ => True
        end ->
        websocket_receive s ws (Loaded (JObj other))
        = [send_text ws
             (system_message "Servidor" "error"
                ("Mensaje con formato invalido: " ++ type_error))]).
Proof.
  intros T N U.
  assert (E : String.eqb ty "" = false) by (apply String.eqb_neq; assumption).
  unfold needs_dict_payload in U.
  apply orb_false_iff in U. destruct U as [U U3].
  apply orb_false_iff in U. destruct U as [U1 U2].
  assert (D : deserialize_client_message (Loaded (JObj message)) = Ok message).
  { unfold deserialize_client_message. rewrite T, E.
    unfold check_payload, needs_dict_payload. rewrite U1, U2, U3. reflexivity. }
  split; [exact D|]. split.
  - unfold websocket_receive. rewrite D. unfold handle_client_message.
    rewrite T, U1, U2, U3. reflexivity.
  - intros other O. unfold websocket_receive, deserialize_client_message.
    destruct (get "type" other) as [[| | | |t| |]|]; try reflexivity.
    subst t. reflexivity.
Qed.

Lemma C7_unknown_type_only_logged_witness :
  get "type" [("type", JStr "telemetry"); ("payload", JObj [])]
  = Some (JStr "telemetry")
  /\ "telemetry" <> ""
  /\ needs_dict_payload "telemetry" = false
  /\ websocket_receive wired 7%nat unknown_type_frame = [].
Proof.
  split; [reflexivity|]. split; [discriminate|]. split; [reflexivity|].
  apply (@C7_unknown_type_only_logged wired 7%nat
           [("type", JStr "telemetry"); ("payload", JObj [])] "telemetry").
  - reflexivity.
  - discriminate.
  - reflexivity.
Defined.

(** The frame [{"type":"gamepad_state","payload":{"left_stick":{"x":0}}}]. *)
Definition malformed_gamepad_frame : loaded :=
  Loaded (JObj [("type", JStr "gamepad_state");
                ("payload", JObj [("left_stick", JObj [("x", JInt 0)])])]).

Definition right_stick_missing : string :=
  "Mensaje 'gamepad_state' invalido: 'payload.right_stick' es faltante.".

(** C8, as stated, fails: the validation error names [payload.right_stick]
    as missing and mentions neither [left_stick] nor the key [y]. *)
Lemma C8_error_names_right_stick :
  deserialize_client_message malformed_gamepad_frame = ValueError right_stick_missing
  /\ String.index 0 "left_stick" right_stick_missing = None
  /\ String.index 0 "'y'" right_stick_missing = None.
Proof. repeat split. Qed.

(** C8, amended.  Deserializing the frame fails with a validation error
    that identifies [payload.right_stick] as missing (the five top-level
    keys are checked before the joystick objects); a [system] error frame
    carrying that message is sent to the sending client only, and the
    motion arbiter is left as it was, without any call on the hardware. *)
Theorem C8_malformed_gamepad_rejected
    (s : TabletInterface.t) (ws : client) (m : MotionManager.t) :
  deserialize_client_message malformed_gamepad_frame = ValueError right_stick_missing
  /\ websocket_receive s ws malformed_gamepad_frame
     = [send_text ws
          (system_message "Servidor" "error"
             ("Mensaje con formato invalido: " ++ right_stick_missing))]
  /\ deliver_all (websocket_receive s ws malformed_gamepad_frame) m = (m, []).
Proof. repeat split. Qed.

(** The same joystick object in a frame that has the five groups: here the
    error does identify [payload.left_stick] and its keys. *)
Definition left_stick_without_y : loaded :=
  Loaded (JObj [("type", JStr "gamepad_state");
                ("payload",
                 JObj [("left_stick", JObj [("x", JInt 0)]);
                       ("right_stick", JObj [("x", JInt 0); ("y", JInt 0)]);
                       ("dpad_events", JObj []);
                       ("action_button_events", JObj []);
                       ("stick_button_states", JObj [])])]).

Lemma left_stick_without_y_rejected :
  deserialize_client_message left_stick_without_y
  = ValueError ("El payload del mensaje 'gamepad_state' es invalido: "
                ++ "'payload.left_stick' debe contener las claves 'x' e 'y'.").
Proof. reflexivity. Qed.

End TabletGateway.

(** ** Claims about the local microphone *)

Module LocalMic.

Import MicLocal.
Local Open Scope string_scope.

Definition quiet : callback_flags := {| input_overflow := false; other_flags := false |}.

(** A handler whose intake queue of size 2 is full. *)
Definition full_handler : MicLocal.t nat :=
  {| capture_active_flag := true;
     raw_audio_queue := {| maxsize := 2; items := [1; 2]%nat |} |}.

(** C9, as stated, fails: with the queue full the new frame is the one
    that is dropped; the oldest frame stays at the head of the queue. *)
Lemma C9_newest_frame_dropped :
  full (raw_audio_queue full_handler) = true
  /\ items (raw_audio_queue (fst (audio_callback 3%nat quiet full_handler)))
     = [1; 2]%nat
  /\ items (raw_audio_queue (fst (audio_callback 3%nat quiet full_handler)))
     <> [2; 3]%nat.
Proof. repeat split. discriminate. Qed.

(** C9, amended.  For every raw frame delivered by the capture callback
    while capture is active and the bounded intake queue is full, the new
    frame is dropped and the drop is logged; the queue keeps its frames.
    When the queue is not full the frame is appended at its tail. *)
Theorem C9_full_queue_drops_new_frame
    (frame : Type) (indata : frame) (status : callback_flags) (s : MicLocal.t frame) :
  capture_active_flag s = true ->
  (full (raw_audio_queue s) = true ->
   fst (audio_callback indata status s) = s
   /\ In (DEBUG, "Cola de audio crudo (_raw_audio_queue) llena, descartando frame.")
        (snd (audio_callback indata status s)))
  /\ (full (raw_audio_queue s) = false ->
      items (raw_audio_queue (fst (audio_callback indata status s)))
      = (items (raw_audio_queue s) ++ [indata])%list).
Proof.
  intros A. unfold audio_callback, put_nowait. rewrite A. cbn [negb].
  split; intros F; rewrite F; cbn [fst snd].
  - split; [reflexivity|]. apply in_or_app. right. left. reflexivity.
  - reflexivity.
Qed.

Lemma C9_full_queue_drops_new_frame_witness :
  capture_active_flag full_handler = true
  /\ full (raw_audio_queue full_handler) = true
  /\ fst (audio_callback 3%nat quiet full_handler) = full_handler.
Proof.
  split; [reflexivity|]. split; [reflexivity|].
  apply (@C9_full_queue_drops_new_frame nat 3%nat quiet full_handler eq_refl).
  reflexivity.
Defined.

End LocalMic.

(** ** Facts about the matcher *)

Module ReFacts.

Import Re.

(** [after l s]: what is left of [s] after the literal [l], if [s] starts
    with it. *)
Fixpoint after (l s : str) : option str :=
  match l with
  | [] => Some s
  | c :: l' =>
      match s with
      | c' :: s' => if N.eqb c c' then after l' s' else None
      | [] => None
      end
  end.

Lemma after_app (l1 l2 s : str) :
  after (l1 ++ l2) s
  = match after l1 s with Some r => after l2 r | None => None end.
Proof.
  revert s. induction l1 as [|c l1 IH]; intros s; simpl.
  - reflexivity.
  - destruct s as [|c' s']; [reflexivity|].
    destruct (N.eqb c c'); [apply IH | reflexivity].
Qed.

Lemma after_length (l s r : str) :
  after l s = Some r -> List.length s = (List.length l + List.length r)%nat.
Proof.
  revert s. induction l as [|c l IH]; intros s H; simpl in *.
  - congruence.
  - destruct s as [|c' s']; [discriminate|].
    destruct (N.eqb c c'); [|discriminate].
    simpl. f_equal. apply IH. assumption.
Qed.

Lemma matches_chr_seq (c : char) (r : regex) (s : str) :
  matches (Seq (Chr c) r) s
  = match s with
    | c' :: t => if N.eqb c c' then matches r t else []
    | [] => []
    end.
Proof.
  simpl. destruct s as [|c' t]; [reflexivity|].
  destruct (N.eqb c c'); simpl; [apply app_nil_r | reflexivity].
Qed.

Lemma matches_lit_then (l : str) (k : regex) (s : str) :
  matches (lit_then l k) s
  = match after l s with Some rest => matches k rest | None => [] end.
Proof.
  revert s. induction l as [|c l IH]; intros s.
  - reflexivity.
  - change (lit_then (c :: l) k) with (Seq (Chr c) (lit_then l k)).
    rewrite matches_chr_seq. simpl.
    destruct s as [|c' t]; [reflexivity|].
    destruct (N.eqb c c'); [apply IH | reflexivity].
Qed.


(** A greedy [p*] followed by something that cannot start with a
    character of [p] never backtracks: it skips the whole run. *)
Lemma matches_star_then (p : char -> bool) (r : regex) :
  (forall c t, p c = true -> matches r (c :: t) = []) ->
  forall s,
    matches (Seq (StarCls p) r) s
    = matches r ((fix skip (s : str) : str :=
                    match s with
                    | c :: t => if p c then skip t else s
                    | [] => []
                    end) s).
Proof.
  intros H s. simpl. induction s as [|c t IH].
  - simpl. apply app_nil_r.
  - simpl. destruct (p c) eqn:P.
    + rewrite flat_map_app. simpl. rewrite (H c t P). simpl.
      rewrite app_nil_r. exact IH.
    + simpl. apply app_nil_r.
Qed.

Lemma matches_space_star_then (r : regex) :
  (forall c t, isspace c = true -> matches r (c :: t) = []) ->
  forall s, matches (Seq (StarCls isspace) r) s = matches r (lstrip s).
Proof. intros H s. rewrite (matches_star_then isspace r H). reflexivity. Qed.


(** The fuel given by [sub] is enough: more fuel changes nothing. *)
Lemma sub_from_enough (r : regex) (repl : str) (fuel1 fuel2 : nat) (s : str) :
  (List.length s < fuel1)%nat -> (List.length s < fuel2)%nat ->
  sub_from fuel1 r repl s = sub_from fuel2 r repl s.
Proof.
  revert fuel2 s. induction fuel1 as [|fuel1 IH]; intros fuel2 s H1 H2.
  - lia.
  - destruct fuel2 as [|fuel2]; [lia|]. simpl.
    assert (A : match s with
                | [] => []
                | c :: t => c :: sub_from fuel1 r repl t
                end
                = match s with
                  | [] => []
                  | c :: t => c :: sub_from fuel2 r repl t
                  end).
    { destruct s as [|c t]; [reflexivity|]. simpl in *.
      f_equal. apply IH; lia. }
    destruct (match_here r s) as [rest|]; [|exact A].
    destruct (List.length rest <? List.length s)%nat eqn:L.
    + apply Nat.ltb_lt in L. f_equal. apply IH; lia.
    + f_equal. exact A.
Qed.

End ReFacts.

(** ** Claims about the orchestrator *)

Module Orchestrator.

Import Re ReFacts ConversationManager SystemComposer.

Lemma space_not_caret (c : char) : isspace c = true -> N.eqb 94 c = false.
Proof.
  intros H. destruct (N.eqb_spec 94 c) as [E|E]; [|reflexivity].
  subst c. vm_compute in H. discriminate.
Qed.

(** One alternative of the source pattern: skip the white space, read the
    literal, then the end of the tag. *)
Lemma tag_matches (kw : string) (s : str) :
  matches (tag kw) s
  = match after (py "^" ++ py kw ++ py "Tag(") (lstrip s) with
    | Some r => matches tag_tail r
    | None => []
    end.
Proof.
  unfold tag. rewrite matches_space_star_then.
  - apply matches_lit_then.
  - intros c t Hc.
    change (lit_then (py "^" ++ py kw ++ py "Tag(") tag_tail)
      with (Seq (Chr 94%N) (lit_then (py kw ++ py "Tag(") tag_tail)).
    rewrite matches_chr_seq, (space_not_caret c Hc). reflexivity.
Qed.


Definition after_keyword (kw : string) (t : str) : list str :=
  match after (py kw) t with
  | Some r =>
      match after (py "Tag(") r with
      | Some r' => matches tag_tail r'
      | None => []
      end
  | None => []
  end.


Lemma code_matches (s : str) :
  matches animation_tag_pattern s
  = match after (py "^") (lstrip s) with
    | Some t => after_keyword "run" t ++ after_keyword "start" t ++ after_keyword "wait" t
    | None => []
    end.
Proof.
  unfold animation_tag_pattern.
  change (matches (Alt ?a (Alt ?b ?c)) s)
    with (matches a s ++ matches b s ++ matches c s).
  rewrite !tag_matches, !after_app. unfold after_keyword.
  destruct (after (py "^") (lstrip s)) as [t|]; [|reflexivity].
  f_equal; [|f_equal]; rewrite after_app; destruct (after _ t); reflexivity.
Qed.


(** *** The patterns always consume something *)

Lemma star_matches_length (p : char -> bool) (s x : str) :
  In x (star_matches p s) -> (List.length x <= List.length s)%nat.
Proof.
  induction s as [|c t IH]; simpl.
  - intros [<-|[]]. simpl. lia.
  - destruct (p c).
    + intros H. apply in_app_or in H. destruct H as [H|[<-|[]]].
      * specialize (IH H). lia.
      * simpl. lia.
    + intros [<-|[]]. simpl. lia.
Qed.

Lemma matches_length (r : regex) :
  forall s x, In x (matches r s) -> (List.length x <= List.length s)%nat.
Proof.
  induction r as [|c|p|p|r1 IH1 r2 IH2|r1 IH1 r2 IH2]; intros s x; simpl.
  - intros [<-|[]]. lia.
  - destruct s as [|c' t]; [intros []|].
    destruct (N.eqb c c'); [|intros []]. intros [<-|[]]. simpl. lia.
  - destruct s as [|c' t]; [intros []|].
    destruct (p c'); [|intros []]. intros [<-|[]]. simpl. lia.
  - apply star_matches_length.
  - intros H. apply in_flat_map in H. destruct H as (y & Hy & Hx).
    specialize (IH1 _ _ Hy). specialize (IH2 _ _ Hx). lia.
  - intros H. apply in_app_or in H. destruct H as [H|H]; eauto.
Qed.

Lemma lstrip_length (s : str) : (List.length (lstrip s) <= List.length s)%nat.
Proof.
  induction s as [|c t IH]; simpl; [lia|].
  destruct (isspace c); simpl; lia.
Qed.

Lemma after_keyword_length (kw : string) (t x : str) :
  In x (after_keyword kw t) -> (List.length x <= List.length t)%nat.
Proof.
  unfold after_keyword.
  destruct (after (py kw) t) as [r|] eqn:A; [|intros []].
  destruct (after (py "Tag(") r) as [r'|] eqn:B; [|intros []].
  intros H. apply matches_length in H.
  apply after_length in A. apply after_length in B. lia.
Qed.

(** A match of the animation-tag pattern is never empty, so [sub] never
    takes its empty-match branch on it. *)
Lemma tag_match_consumes (s x : str) :
  In x (matches animation_tag_pattern s) -> (List.length x < List.length s)%nat.
Proof.
  rewrite code_matches.
  destruct (after (py "^") (lstrip s)) as [t|] eqn:A; [|intros []].
  apply after_length in A. simpl in A.
  pose proof (lstrip_length s) as L.
  intros H. apply in_app_or in H. destruct H as [H|H];
    [|apply in_app_or in H; destruct H as [H|H]];
    apply after_keyword_length in H; lia.
Qed.

Lemma whitespace_run_consumes (s x : str) :
  In x (matches whitespace_run s) -> (List.length x < List.length s)%nat.
Proof.
  unfold whitespace_run. simpl.
  destruct s as [|c t]; [intros []|].
  destruct (isspace c); [|intros []].
  simpl. rewrite app_nil_r. intros H. apply star_matches_length in H. lia.
Qed.

Lemma star_matches_head (p : char -> bool) (s : str) :
  exists others,
    star_matches p s
    = (fix skip (s : str) : str :=
         match s with
         | c :: t => if p c then skip t else s
         | [] => []
         end) s :: others.
Proof.
  induction s as [|c t [others IH]]; simpl.
  - exists []. reflexivity.
  - destruct (p c).
    + rewrite IH. eexists. reflexivity.
    + exists []. reflexivity.
Qed.

Lemma match_here_whitespace_run (s : str) :
  match_here whitespace_run s
  = match s with
    | c :: t => if isspace c then Some (lstrip t) else None
    | [] => None
    end.
Proof.
  unfold match_here, whitespace_run. simpl.
  destruct s as [|c t]; [reflexivity|].
  destruct (isspace c); [|reflexivity].
  simpl. rewrite app_nil_r.
  destruct (star_matches_head isspace t) as [others H]. rewrite H. reflexivity.
Qed.

Lemma squeeze_in_run (s : str) : squeeze true s = squeeze false (lstrip s).
Proof.
  induction s as [|c t IH]; simpl; [reflexivity|].
  destruct (isspace c) eqn:E; [exact IH|].
  simpl. rewrite E. reflexivity.
Qed.

(** [re.sub(r'\s+', ' ', s)] squeezes every run of white space. *)
Lemma sub_whitespace_run (fuel : nat) (s : str) :
  (List.length s < fuel)%nat ->
  sub_from fuel whitespace_run (py " ") s = squeeze false s.
Proof.
  revert s. induction fuel as [|fuel IH]; intros s L; [lia|].
  simpl sub_from. rewrite match_here_whitespace_run.
  destruct s as [|c t]; [reflexivity|]. simpl in L. simpl squeeze.
  destruct (isspace c).
  - pose proof (lstrip_length t) as K.
    replace (List.length (lstrip t) <? List.length (c :: t))%nat with true
      by (symmetry; apply Nat.ltb_lt; simpl; lia).
    rewrite IH by lia. rewrite squeeze_in_run. reflexivity.
  - rewrite IH by lia. reflexivity.
Qed.


(** *** Traces of the orchestrator *)

(** The [output] frames broadcast, the interactions stored and the texts
    given to the speech controller, in order. *)
Definition output_frames (out : list action) : list (str * str * str) :=
  flat_map (fun a => match a with
                     | send_output sender message origin => [(sender, message, origin)]
                     | _ => []
                     end) out.

Definition persisted (out : list action) : list interaction :=
  flat_map (fun a => match a with add_interaction i => [i] | _ => [] end) out.

Definition spoken (out : list action) : list str :=
  flat_map (fun a => match a with
                     | say_text_with_embedded_standard_animations t _ => [t]
                     | _ => []
                     end) out.

(** An input goes past the guards of [_process_input_for_conversation]. *)
Lemma accepted_input (s : SystemComposer.t) (cm : ConversationManager.t) (e : env)
    (user_text src : str) (images : list str) :
  is_empty user_text && is_empty images = false ->
  conversation_manager s = Some cm ->
  robot_is_processing_or_replying s = true ->
  process_input_for_conversation s e user_text src images
  = respond s cm e user_text src images.
Proof.
  intros N C B. unfold process_input_for_conversation.
  rewrite N, C, B. reflexivity.
Qed.

(** An input that is not accepted leaves the orchestrator as it was. *)
Lemma refused_input (s : SystemComposer.t) (e : env)
    (user_text src : str) (images : list str) :
  is_empty user_text && is_empty images = true
  \/ conversation_manager s = None
  \/ robot_is_processing_or_replying s = false ->
  fst (fst (process_input_for_conversation s e user_text src images)) = s.
Proof.
  unfold process_input_for_conversation.
  intros [H|[H|H]]; rewrite H.
  - reflexivity.
  - destruct (_ && _); [reflexivity|]. destruct (tablet_interface s); reflexivity.
  - destruct (_ && _); [reflexivity|].
    destruct (conversation_manager s); destruct (tablet_interface s); reflexivity.
Qed.

(** C10. An invocation of the input-processing routine that clears the
    busy condition (the input is not empty, there is a conversation manager
    and the condition is available) sets it again before it ends, whatever
    the conversation manager, the broadcast and the speech controller do:
    return or raise.  If recognition was running at entry it is stopped
    first and [start()] is the last call made, after which recognition is
    running again if [start()] succeeds; otherwise recognition is left as
    it was. *)
Theorem C10_busy_condition_restored
    (s : SystemComposer.t) (cm : ConversationManager.t) (e : env)
    (user_text src : str) (images : list str) :
  is_empty user_text && is_empty images = false ->
  conversation_manager s = Some cm ->
  robot_is_processing_or_replying s = true ->
  let res := process_input_for_conversation s e user_text src images in
  robot_is_processing_or_replying (fst (fst res)) = true
  /\ (stt_system s = Some true ->
      stt_system (fst (fst res)) = Some (stt_start_ok e)
      /\ exists mid, snd res = stt_stop :: mid ++ [stt_start])
  /\ (stt_system s <> Some true -> stt_system (fst (fst res)) = stt_system s).
Proof.
  intros N C B res. subst res. rewrite (accepted_input s e user_text src images N C B).
  unfold respond.
  destruct (try_block _ cm e user_text src images) as [r1 body].
  destruct (except_clause _ e r1) as [r2 handler].
  unfold finally_clause.
  destruct (stt_system s) as [[|]|] eqn:S; simpl; rewrite ?S; simpl.
  - split; [reflexivity|]. split.
    + intros _. split; [reflexivity|].
      exists (body ++ handler). rewrite <- !app_assoc. reflexivity.
    + intros X. elim X. reflexivity.
  - split; [reflexivity|]. split; [discriminate | intros _; congruence].
  - split; [reflexivity|]. split; [discriminate | intros _; congruence].
Qed.

(** A conversation manager with an active conversation and a cloud
    backend, and one whose backend is switched off. *)
Definition chatting : ConversationManager.t :=
  {| current_conversation_id := Some 1%Z;
     prompt_builder := true;
     active_ai_client := Some (GPTAPIClient (py "gpt-4o"));
     current_ai_backend_type := openai_gpt |}.


(** An orchestrator with every component, free, recognition running. *)
Definition ready (cm : ConversationManager.t) : SystemComposer.t :=
  {| conversation_manager := Some cm;
     tablet_interface := true;
     animation_speech_controller := true;
     stt_system := Some true;
     robot_is_processing_or_replying := true |}.

(** Collaborators that all succeed, the backend doing [reply]. *)
Definition cooperative (reply : outcome (option str)) : env :=
  {| conversation :=
       {| build_messages_for_chat_api := returns tt;
          user_interaction_stored := true;
          generate_response := reply;
          assistant_interaction_stored := true |};
     send_output_result := returns tt;
     say_result := returns tt;
     send_system_message_result := returns tt;
     stt_start_ok := true |}.

Lemma C10_busy_condition_restored_witness :
  is_empty (py "hola") && is_empty (@nil str) = false
  /\ conversation_manager (ready chatting) = Some chatting
  /\ robot_is_processing_or_replying (ready chatting) = true
  /\ robot_is_processing_or_replying
       (fst (fst (process_input_for_conversation (ready chatting)
                    (cooperative (raises BaseException)) (py "hola") (py "gui") [])))
     = true.
Proof.
  split; [reflexivity|]. split; [reflexivity|]. split; [reflexivity|].
  apply (@C10_busy_condition_restored (ready chatting) chatting
           (cooperative (raises BaseException)) (py "hola") (py "gui") []);
    reflexivity.
Defined.

(** C5, as stated, fails: the handler of final transcripts only shows the
    text to the tablet clients; it makes none of the calls that processing
    the text as an input with source [stt_auto] makes. *)
Lemma C5_final_is_not_processed :
  handle_final_stt_segment (ready chatting) (py "hola")
  = [send_partial_stt_result (py "hola") true]
  /\ snd (process_input_for_conversation (ready chatting)
            (cooperative (returns (Some (py "Hola ^runTag(hello) amigo"))))
            (py "hola") (py "stt_auto") [])
     = [stt_stop;
        add_interaction
          {| conversation_id := 1;
             interaction_role := user;
             interaction_content := user_content (py "hola") (py "stt_auto") [] |};
        add_interaction
          {| conversation_id := 1;
             interaction_role := assistant;
             interaction_content :=
               assistant_content (py "Hola ^runTag(hello) amigo")
                 (py "openai_gpt_gpt-4o") |};
        send_output (py "Umebot") (py "Hola amigo") (py "stt_auto");
        say_text_with_embedded_standard_animations (py "Hola ^runTag(hello) amigo") true;
        stt_start].
Proof. split; vm_compute; reflexivity. Qed.

(** C5, amended.  Every final transcript emitted by the recognition
    pipeline is delivered to the final-transcript handler, which, if the
    busy condition is available, broadcasts it to the tablet clients as a
    [partial_stt_result] frame with [is_final] true.  The handler does not
    process the text as an input: it broadcasts no [output] frame, stores
    no interaction and gives nothing to the speech controller (the tablet
    client is the one to send the text back as an [input] message). *)
Theorem C5_final_transcript_shown_to_tablet (s : SystemComposer.t) (recognized : str) :
  stt_system s <> None ->
  tablet_interface s = true ->
  robot_is_processing_or_replying s = true ->
  external_text_callback s recognized
  = Some [send_partial_stt_result recognized true]
  /\ output_frames (handle_final_stt_segment s recognized) = []
  /\ persisted (handle_final_stt_segment s recognized) = []
  /\ spoken (handle_final_stt_segment s recognized) = [].
Proof.
  intros S T B. unfold external_text_callback, handle_final_stt_segment.
  rewrite T, B. destruct (stt_system s); [|congruence].
  repeat split.
Qed.

Lemma C5_final_transcript_shown_to_tablet_witness :
  stt_system (ready chatting) <> None
  /\ tablet_interface (ready chatting) = true
  /\ robot_is_processing_or_replying (ready chatting) = true
  /\ external_text_callback (ready chatting) (py "hola")
     = Some [send_partial_stt_result (py "hola") true].
Proof.
  split; [discriminate|]. split; [reflexivity|]. split; [reflexivity|].
  apply (@C5_final_transcript_shown_to_tablet (ready chatting) (py "hola"));
    [discriminate | reflexivity | reflexivity].
Defined.

(** *** What a view of the trace sees *)

Section Views.

(** A view that ignores the calls on the recognition system and the
    [system] frames. *)
Variable B : Type.
Variable f : action -> list B.
Hypothesis f_stop : f stt_stop = [].
Hypothesis f_start : f stt_start = [].
Hypothesis f_system : forall a b c, f (send_system_message a b c) = [].





End Views.










(** *** The conversation manager *)

(** [get_ai_response] gets past its initial validations: there is an
    active conversation, a prompt builder, an AI client, and the backend
    is not [none]. *)
Definition proceeds (cm : ConversationManager.t) : bool :=
  match current_conversation_id cm, active_ai_client cm, current_ai_backend_type cm with
  | Some _, Some _, openai_gpt | Some _, Some _, local_gguf => prompt_builder cm
  | _, _, _ => false
  end.








End Orchestrator.

(** ** The motion subsystem: further behaviour *)

Module MotionBehaviour.

Import MotionGamePad MotionManager MotionGamePadFacts MotionManagerFacts MotionArbiter.

(** X1. In every state the motion subsystem can reach, whatever the
    initial modifier given to the constructor, the speed modifier of the
    gamepad controller lies between [MIN_SPEED_MODIFIER_LIMIT] (0.1) and
    [MAX_SPEED_MODIFIER_LIMIT] (1.0): the constructor, the D-pad handling and
    [update_speed_factor_from_global] all clamp it. *)
Theorem speed_modifier_stays_in_range
    (asc : bool) (cfg : list (Z * layer_config)) (layer : Z) (speed : Q)
    (evs : list event) :
  let c := gamepad_controller (fst (run evs (MotionManager.init asc cfg layer speed))) in
  1 # 10 <= current_speed_modifier c /\ current_speed_modifier c <= 1.
Proof.
  intros c.
  destruct (run_spec evs (init_inv asc cfg layer speed)) as (Inv & _).
  exact (inv_speed (inv_pad Inv)).
Qed.

(** *** The animation layer *)

Definition layer_ok (s : MotionGamePad.t) : Prop :=
  (0 <= current_animation_layer s < Z.max 1 (num_animation_layers s))%Z.

Definition same_layers (s s' : MotionGamePad.t) : Prop :=
  num_animation_layers s' = num_animation_layers s
  /\ current_animation_layer s' = current_animation_layer s.

Lemma same_layers_ok (s s' : MotionGamePad.t) :
  same_layers s s' -> layer_ok s -> layer_ok s'.
Proof. unfold same_layers, layer_ok. intros (A & B). rewrite A, B. auto. Qed.

Lemma process_dpad_events_layers (d : dpad) (s : MotionGamePad.t) :
  num_animation_layers (process_dpad_events d s) = num_animation_layers s
  /\ (layer_ok s -> layer_ok (process_dpad_events d s)).
Proof.
  unfold process_dpad_events, layer_ok. cbv zeta.
  destruct (rising (up d) (up (prev_dpad_events s)));
    destruct (rising (down d) (down (prev_dpad_events s))); cbn;
    destruct (0 <? num_animation_layers s)%Z eqn:N; cbn;
    destruct (rising (left d) (left (prev_dpad_events s)));
    destruct (rising (right d) (right (prev_dpad_events s))); cbn;
    (split; [reflexivity|]); intros L; try assumption;
    apply Z.ltb_lt in N;
    rewrite Z.max_r by lia;
    apply Z.mod_pos_bound; assumption.
Qed.

Definition layers_kept (s s' : MotionGamePad.t) : Prop :=
  num_animation_layers s' = num_animation_layers s
  /\ (layer_ok s -> layer_ok s').

Lemma layers_kept_same (s s' : MotionGamePad.t) : same_layers s s' -> layers_kept s s'.
Proof.
  intros H. split; [apply H | apply same_layers_ok; assumption].
Qed.

Lemma layers_kept_trans (s1 s2 s3 : MotionGamePad.t) :
  layers_kept s1 s2 -> layers_kept s2 s3 -> layers_kept s1 s3.
Proof.
  intros (A & B) (C & D). split; [congruence | auto].
Qed.

Lemma process_payload_layers (p : payload) (s : MotionGamePad.t) :
  layers_kept s (fst (process_payload p s)).
Proof.
  unfold process_payload.
  pose proof (process_action_button_events_state (action_button_events p)
                (process_dpad_events (dpad_events p) s)) as E.
  destruct (process_action_button_events _ _) as [s2 asc_calls].
  cbn [fst] in E. subst s2.
  eapply layers_kept_trans; [exact (process_dpad_events_layers (dpad_events p) s)|].
  apply layers_kept_same.
  destruct (should_send_velocities _ _); split; reflexivity.
Qed.

Lemma dead_man_layers (s : MotionGamePad.t) : same_layers s (fst (dead_man s)).
Proof. unfold dead_man. destruct (_ && _); split; reflexivity. Qed.

Lemma loop_step_layers (b : bool) (s : MotionGamePad.t) :
  layers_kept s (fst (loop_step b s)).
Proof.
  unfold loop_step.
  destruct (processing_thread s) as [[|]|].
  - apply layers_kept_same.
    destruct (negb (run_processing_flag s)); [split; reflexivity|].
    destruct (emergency_stop_active_flag s); [|split; reflexivity].
    destruct (any_above_eps _); split; reflexivity.
  - destruct (new_data_event s).
    + destruct (latest_gamepad_payload s) as [p|].
      * eapply layers_kept_trans; [|apply process_payload_layers].
        apply layers_kept_same. split; reflexivity.
      * apply layers_kept_same.
        destruct (dead_man_layers
                    (set_thread (Some at_loop_head) (set_payload None (set_event false s))))
          as (A & B).
        split; [rewrite A | rewrite B]; reflexivity.
    + destruct b; [|apply layers_kept_same; split; reflexivity].
      apply layers_kept_same.
      destruct (dead_man_layers (set_thread (Some at_loop_head) s)) as (A & B).
      split; [rewrite A | rewrite B]; reflexivity.
  - apply layers_kept_same. split; reflexivity.
Qed.

Lemma join_layers (s : MotionGamePad.t) : layers_kept s (fst (join s)).
Proof.
  unfold join. destruct (processing_thread s) as [[|]|].
  - apply loop_step_layers.
  - pose proof (loop_step_layers false s) as A.
    destruct (loop_step false s) as [s1 e1]. cbn [fst] in A.
    pose proof (loop_step_layers false s1) as B.
    destruct (loop_step false s1) as [s2 e2]. cbn [fst] in *.
    eapply layers_kept_trans; eassumption.
  - apply layers_kept_same. split; reflexivity.
Qed.

Lemma stop_processing_layers (b : bool) (s : MotionGamePad.t) :
  layers_kept s (fst (stop_processing b s)).
Proof.
  unfold stop_processing.
  pose proof (join_layers (set_event true (set_run false s))) as A.
  destruct (join _) as [s2 e]. cbn [fst] in A.
  apply layers_kept_trans with (s2 := s2).
  - destruct A as (A & B). split; [exact A | exact B].
  - apply layers_kept_same. destruct (negb b); split; reflexivity.
Qed.

Lemma start_processing_layers (init_ok : bool) (s : MotionGamePad.t) :
  same_layers s (fst (fst (start_processing init_ok s))).
Proof.
  unfold start_processing. destruct (processing_thread s); [split; reflexivity|].
  destruct init_ok; split; reflexivity.
Qed.

Lemma step_layers (ev : event) (s : MotionManager.t) :
  layers_kept (gamepad_controller s) (gamepad_controller (fst (step ev s))).
Proof.
  destruct ev as [p| |init_ok|by_estop|f|b]; cbn [step].
  - apply layers_kept_same. unfold handle_gamepad_payload_from_tablet.
    unfold trigger_internal_emergency_stop, clear_internal_emergency_stop,
      update_gamepad_state.
    repeat match goal with
           | |- context [if ?c then _ else _] => destruct c
           end; split; reflexivity.
  - apply layers_kept_same.
    unfold handle_gamepad_emergency_stop_event, trigger_internal_emergency_stop.
    destruct (negb _); split; reflexivity.
  - unfold activate_gamepad_control.
    destruct (mode_eqb _ _); [apply layers_kept_same; split; reflexivity|].
    pose proof (start_processing_layers init_ok
                  (clear_emergency_stop (gamepad_controller s))) as A.
    destruct (start_processing _ _) as [[c2 out] started]. cbn [fst] in A.
    apply layers_kept_same.
    destruct started; cbn; exact A.
  - unfold deactivate_gamepad_control.
    destruct (_ || _); [|apply layers_kept_same; split; reflexivity].
    pose proof (stop_processing_layers by_estop (gamepad_controller s)) as A.
    destruct (stop_processing _ _) as [c out]. cbn [fst] in A.
    destruct (negb _); cbn; exact A.
  - apply layers_kept_same. unfold set_global_speed_factor.
    destruct (_ && _); split; reflexivity.
  - pose proof (loop_step_layers b (gamepad_controller s)) as A.
    destruct (loop_step _ _) as [c out]. exact A.
Qed.

Lemma run_layers (evs : list event) (s : MotionManager.t) :
  layers_kept (gamepad_controller s) (gamepad_controller (fst (run evs s))).
Proof.
  revert s. induction evs as [|ev rest IH]; intros s; cbn [run].
  - apply layers_kept_same. split; reflexivity.
  - pose proof (step_layers ev s) as A.
    destruct (step ev s) as [s1 out1]. cbn [fst] in A.
    pose proof (IH s1) as B.
    destruct (run rest s1) as [s2 out2]. cbn [fst] in *.
    eapply layers_kept_trans; eassumption.
Qed.

(** X2. The number of animation layers never changes after construction,
    and the current layer is always a valid index of it: between 0 and
    [num_animation_layers - 1] when the configuration has layers, and 0 when
    it has none (an out-of-range default layer is replaced by 0, and the
    D-pad steps left and right wrap around). *)
Theorem animation_layer_stays_in_range
    (asc : bool) (cfg : list (Z * layer_config)) (layer : Z) (speed : Q)
    (evs : list event) :
  let c := gamepad_controller (fst (run evs (MotionManager.init asc cfg layer speed))) in
  num_animation_layers c = Z.of_nat (List.length cfg)
  /\ (0 <= current_animation_layer c)%Z
  /\ (cfg <> [] -> (current_animation_layer c < num_animation_layers c)%Z)
  /\ (cfg = [] -> current_animation_layer c = 0%Z).
Proof.
  intros c.
  destruct (run_layers evs (MotionManager.init asc cfg layer speed)) as (A & B).
  fold c in A, B. cbn in A.
  assert (L : layer_ok (gamepad_controller (MotionManager.init asc cfg layer speed))).
  { unfold layer_ok. cbn.
    destruct (Z.of_nat (List.length cfg) =? 0)%Z eqn:E; [lia|].
    apply Z.eqb_neq in E.
    destruct ((0 <=? layer)%Z && (layer <? Z.of_nat (List.length cfg))%Z) eqn:R; [|lia].
    apply andb_true_iff in R. destruct R as (R1 & R2).
    apply Z.leb_le in R1. apply Z.ltb_lt in R2. lia. }
  apply B in L. unfold layer_ok in L. rewrite A in *.
  split; [reflexivity|]. split; [lia|]. split.
  - intros NE. destruct cfg; [contradiction|]. cbn [List.length] in *. lia.
  - intros ->. cbn in L. lia.
Qed.


(** *** Before the worker thread exists *)

Definition successful_activation (ev : event) : bool :=
  match ev with
  | Activate true => true
  | _ => false
  end.

(** The calls made on a robot that is not being driven. *)
Definition idle_call (c : call) : Prop :=
  match c with
  | trigger_hardware_emergency_stop | initialize_robot | release_robot => True
  | set_base_velocities v => v = zero_velocities
  | _ => False
  end.

Lemma step_without_worker (ev : event) (s : MotionManager.t) :
  processing_thread (gamepad_controller s) = None ->
  successful_activation ev = false ->
  processing_thread (gamepad_controller (fst (step ev s))) = None
  /\ Forall idle_call (calls (snd (step ev s))).
Proof.
  intros T E. destruct ev as [p| |init_ok|by_estop|f|b]; cbn [step].
  - unfold handle_gamepad_payload_from_tablet, trigger_internal_emergency_stop,
      clear_internal_emergency_stop, update_gamepad_state.
    repeat match goal with
           | |- context [if ?c then _ else _] => destruct c
           end; cbn; rewrite ?T; repeat constructor.
  - unfold handle_gamepad_emergency_stop_event, trigger_internal_emergency_stop.
    destruct (negb _); cbn; rewrite ?T; repeat constructor.
  - destruct init_ok; [discriminate|].
    unfold activate_gamepad_control.
    destruct (mode_eqb _ _); [cbn; rewrite T; repeat constructor|].
    unfold start_processing. cbn. rewrite T. cbn. rewrite T. repeat constructor.
  - unfold deactivate_gamepad_control.
    destruct (_ || _); [|cbn; rewrite T; repeat constructor].
    unfold stop_processing, join. cbn. rewrite T.
    destruct by_estop; cbn; repeat constructor;
      destruct (mode_eqb _ _); repeat constructor.
  - unfold set_global_speed_factor. destruct (_ && _); cbn; rewrite T; repeat constructor.
  - unfold loop_step. rewrite T. cbn. rewrite T. repeat constructor.
Qed.

(** X3. As long as no activation has succeeded (no [Activate] whose
    hardware initialisation returned true), no worker thread exists and the
    only calls made on the robot are the hardware emergency stop, the zero
    velocity that goes with it, [initialize_robot] and [release_robot]: no
    payload drives the robot and no animation is played. *)
Theorem not_driven_before_activation
    (asc : bool) (cfg : list (Z * layer_config)) (layer : Z) (speed : Q)
    (evs : list event) :
  forallb (fun ev => negb (successful_activation ev)) evs = true ->
  let r := run evs (MotionManager.init asc cfg layer speed) in
  processing_thread (gamepad_controller (fst r)) = None
  /\ Forall idle_call (calls (snd r))
  /\ Forall (fun v => v = zero_velocities) (emitted_velocities (snd r)).
Proof.
  intros F r.
  assert (G : forall s,
             processing_thread (gamepad_controller s) = None ->
             processing_thread (gamepad_controller (fst (run evs s))) = None
             /\ Forall idle_call (calls (snd (run evs s)))).
  { clear r. induction evs as [|ev rest IH]; intros s T; cbn [run].
    - split; [assumption | constructor].
    - cbn [forallb] in F. apply andb_true_iff in F. destruct F as (F1 & F2).
      apply negb_true_iff in F1.
      destruct (step_without_worker ev s T F1) as (A & B).
      destruct (step ev s) as [s1 out1]. cbn [fst snd] in A, B.
      destruct (IH F2 s1 A) as (A' & B').
      destruct (run rest s1) as [s2 out2]. cbn [fst snd] in *.
      split; [assumption|]. unfold calls in *. rewrite map_app.
      apply Forall_app. split; assumption. }
  destruct (G (MotionManager.init asc cfg layer speed) eq_refl) as (A & B).
  fold r in A, B. split; [assumption|]. split; [assumption|].
  unfold emitted_velocities, calls in *.
  rewrite Forall_flat_map. rewrite Forall_map in B.
  eapply Forall_impl; [|exact B]. intros e He. cbn beta in He.
  destruct (made (sent e)); cbn in *; repeat constructor; try assumption.
Qed.

Lemma not_driven_before_activation_witness :
  Forall idle_call
    (calls (snd (run [Payload (sticks (1 # 2) (1 # 2) 0 false false);
                      Activate false; WorkerStep true; EmergencyStopEvent;
                      Payload (sticks (1 # 2) (1 # 2) 0 false false);
                      WorkerStep true; Deactivate false]
                   (MotionManager.init true [] 0 (5 # 10))))).
Proof.
  apply (not_driven_before_activation true [] 0 (5 # 10)
           [Payload (sticks (1 # 2) (1 # 2) 0 false false);
            Activate false; WorkerStep true; EmergencyStopEvent;
            Payload (sticks (1 # 2) (1 # 2) 0 false false);
            WorkerStep true; Deactivate false]).
  reflexivity.
Defined.


(** *** Edge detection and repeated payloads *)

Lemma rising_same (b : bool) : rising b b = false.
Proof. destruct b; reflexivity. Qed.

Lemma process_dpad_events_again (d : dpad) (s : MotionGamePad.t) :
  prev_dpad_events s = d -> process_dpad_events d s = set_prev_dpad d s.
Proof.
  intros E. unfold process_dpad_events. rewrite E, !rising_same. cbv zeta.
  destruct (0 <? num_animation_layers s)%Z; reflexivity.
Qed.

Lemma process_action_button_events_again (b : buttons) (s : MotionGamePad.t) :
  prev_action_button_events s = b ->
  process_action_button_events b s = (set_prev_actions b s, []).
Proof.
  intros E. unfold process_action_button_events. rewrite E. cbv zeta.
  destruct (negb (asc_available s)); [reflexivity|].
  destruct (_ || _); [reflexivity|].
  destruct (Py.assoc _ _) as [[|entry rest]|]; try reflexivity.
  cbn [flat_map]. rewrite !rising_same. reflexivity.
Qed.

Lemma above_eps_self (q : Q) : above_eps (q - q) = false.
Proof. apply above_eps_zero. ring. Qed.

Lemma above_not_below (q : Q) : above_eps q = true -> below_eps q = false.
Proof.
  unfold above_eps, below_eps. intros A.
  apply PyFacts.Qgtb_true in A.
  unfold Py.Qltb. apply negb_false_iff. apply Qle_bool_iff.
  apply Qlt_le_weak. assumption.
Qed.

Lemma should_send_velocities_same (v : velocities) : should_send_velocities v v = false.
Proof.
  unfold should_send_velocities. rewrite !above_eps_self. cbn [orb].
  unfold any_above_eps, all_below_eps.
  destruct (above_eps (vx v)) eqn:X; [rewrite (above_not_below _ X); reflexivity|].
  destruct (above_eps (vy v)) eqn:Y;
    [rewrite (above_not_below _ Y), andb_false_r; reflexivity|].
  destruct (above_eps (vtheta v)) eqn:T;
    [rewrite (above_not_below _ T), andb_false_r; reflexivity|].
  reflexivity.
Qed.

Lemma process_payload_state (p : payload) (s : MotionGamePad.t) :
  let s2 := set_prev_actions (action_button_events p)
              (process_dpad_events (dpad_events p) s) in
  let target := target_velocities p (current_speed_modifier s2) in
  fst (process_payload p s)
  = if should_send_velocities target (last_sent_velocities s2)
    then set_last_sent target s2 else s2.
Proof.
  cbv zeta. unfold process_payload.
  pose proof (process_action_button_events_state (action_button_events p)
                (process_dpad_events (dpad_events p) s)) as E.
  destruct (process_action_button_events (action_button_events p)
              (process_dpad_events (dpad_events p) s)) as [s2 asc_calls].
  cbn [fst] in E. subst s2.
  destruct (should_send_velocities _ _); reflexivity.
Qed.

(** X4. Edge detection: processing the same payload a second time, right
    after the first, changes nothing and makes no call.  A D-pad direction or
    an action button that is held does not act again, and an unchanged
    velocity is not sent again. *)
Theorem repeated_payload_does_nothing (p : payload) (s : MotionGamePad.t) :
  let s' := fst (process_payload p s) in
  process_payload p s' = (s', []).
Proof.
  cbv zeta. rewrite process_payload_state. cbv zeta.
  assert (D : prev_dpad_events (process_dpad_events (dpad_events p) s) = dpad_events p)
    by reflexivity.
  generalize dependent (process_dpad_events (dpad_events p) s). intros s1 D.
  set (s2 := set_prev_actions (action_button_events p) s1).
  set (target := target_velocities p (current_speed_modifier s2)).
  destruct (should_send_velocities target (last_sent_velocities s2)) eqn:S.
  - unfold process_payload.
    rewrite process_dpad_events_again by exact D.
    rewrite process_action_button_events_again by reflexivity.
    change (current_speed_modifier
              (set_prev_actions (action_button_events p)
                 (set_prev_dpad (dpad_events p) (set_last_sent target s2))))
      with (current_speed_modifier s2).
    fold target.
    change (last_sent_velocities
              (set_prev_actions (action_button_events p)
                 (set_prev_dpad (dpad_events p) (set_last_sent target s2))))
      with target.
    rewrite should_send_velocities_same.
    unfold set_prev_actions, set_prev_dpad, set_last_sent; cbn.
    rewrite D. reflexivity.
  - unfold process_payload.
    rewrite process_dpad_events_again by exact D.
    rewrite process_action_button_events_again by reflexivity.
    change (current_speed_modifier
              (set_prev_actions (action_button_events p)
                 (set_prev_dpad (dpad_events p) s2)))
      with (current_speed_modifier s2).
    fold target.
    change (last_sent_velocities
              (set_prev_actions (action_button_events p)
                 (set_prev_dpad (dpad_events p) s2)))
      with (last_sent_velocities s2).
    rewrite S.
    unfold s2, set_prev_actions, set_prev_dpad; cbn.
    rewrite D. reflexivity.
Qed.


(** *** The dead zone of the sticks *)

Definition in_deadzone (q : Q) : Prop := Qabs q <= JOYSTICK_DEADZONE.

(** The three axes read by the processing loop are inside the dead zone. *)
Definition sticks_released (p : payload) : Prop :=
  in_deadzone (y (left_stick p)) /\ in_deadzone (x (left_stick p))
  /\ in_deadzone (x (right_stick p)).

Lemma above_eps_abs (a b : Q) : Qabs a == Qabs b -> above_eps a = above_eps b.
Proof.
  intros E. unfold above_eps.
  destruct (Py.Qgtb (Qabs b) VELOCITY_EPSILON) eqn:B.
  - apply PyFacts.Qgtb_true. apply PyFacts.Qgtb_true in B. rewrite E. assumption.
  - apply PyFacts.Qgtb_false. apply PyFacts.Qgtb_false in B. rewrite E. assumption.
Qed.

Lemma above_eps_compat (a b : Q) : a == b -> above_eps a = above_eps b.
Proof. intros E. apply above_eps_abs. rewrite E. reflexivity. Qed.

Lemma above_eps_opp (q : Q) : above_eps (- q) = above_eps q.
Proof. apply above_eps_abs. apply Qabs_opp. Qed.

Lemma apply_deadzone_released (value raw speed : Q) :
  in_deadzone raw -> apply_deadzone value raw * speed == 0.
Proof.
  intros D. unfold apply_deadzone.
  destruct (Py.Qgtb (Qabs raw) JOYSTICK_DEADZONE) eqn:G.
  - apply PyFacts.Qgtb_true in G. unfold in_deadzone in D.
    exfalso. apply (Qlt_irrefl (Qabs raw)). eapply Qle_lt_trans; eassumption.
  - ring.
Qed.

Lemma target_released (p : payload) (speed : Q) :
  sticks_released p -> is_zero (target_velocities p speed).
Proof.
  intros (A & B & C). unfold is_zero, target_velocities. cbn.
  repeat split; apply apply_deadzone_released; assumption.
Qed.

Lemma should_send_from_rest (target last : velocities) :
  is_zero target -> is_zero last -> should_send_velocities target last = false.
Proof.
  intros (T1 & T2 & T3) (L1 & L2 & L3). unfold should_send_velocities.
  rewrite (above_eps_zero (q := vx target - vx last)) by (rewrite T1, L1; ring).
  rewrite (above_eps_zero (q := vy target - vy last)) by (rewrite T2, L2; ring).
  rewrite (above_eps_zero (q := vtheta target - vtheta last)) by (rewrite T3, L3; ring).
  cbn [orb]. rewrite any_above_eps_zero by (repeat split; assumption). reflexivity.
Qed.

Lemma not_sent_to_zero (target last : velocities) :
  is_zero target -> settled_velocities last ->
  should_send_velocities target last = false -> is_zero last.
Proof.
  intros (T1 & T2 & T3) L S. unfold should_send_velocities in S.
  destruct (above_eps (vx target - vx last) || above_eps (vy target - vy last)
            || above_eps (vtheta target - vtheta last)) eqn:A; [discriminate|].
  apply orb_false_iff in A. destruct A as (A & A3).
  apply orb_false_iff in A. destruct A as (A1 & A2).
  apply settled_below_zero; [assumption|].
  unfold any_above_eps.
  rewrite <- (above_eps_opp (vx last)), <- (above_eps_opp (vy last)),
    <- (above_eps_opp (vtheta last)).
  rewrite (above_eps_compat (a := - vx last) (b := vx target - vx last)) by (rewrite T1; ring).
  rewrite (above_eps_compat (a := - vy last) (b := vy target - vy last)) by (rewrite T2; ring).
  rewrite (above_eps_compat (a := - vtheta last) (b := vtheta target - vtheta last))
    by (rewrite T3; ring).
  rewrite A1, A2, A3. reflexivity.
Qed.

(** X5. When the three axes read by the loop (left stick x and y, right
    stick x) are within the dead zone of 0.08, the velocity remembered after
    processing the payload is zero; if the robot was at rest no velocity
    command is made at all, and if it was moving the last call is a velocity
    command with all components zero. *)
Theorem released_sticks_stop_the_robot (p : payload) (s : MotionGamePad.t) :
  sticks_released p ->
  settled_velocities (last_sent_velocities s) ->
  let r := process_payload p s in
  is_zero (last_sent_velocities (fst r))
  /\ (is_zero (last_sent_velocities s) ->
      Forall (fun e => forall v, made e <> set_base_velocities v) (snd r))
  /\ (~ is_zero (last_sent_velocities s) ->
      exists before v,
        snd r = before ++ [emit (fst r) (set_base_velocities v)] /\ is_zero v).
Proof.
  intros R L. cbv zeta. unfold process_payload.
  pose proof (process_action_button_events_state (action_button_events p)
                (process_dpad_events (dpad_events p) s)) as E.
  pose proof (process_action_button_events_no_velocity (action_button_events p)
                (process_dpad_events (dpad_events p) s)) as NV.
  destruct (process_action_button_events (action_button_events p)
              (process_dpad_events (dpad_events p) s)) as [s2 asc_calls].
  cbn [fst snd] in E, NV.
  assert (LS : last_sent_velocities s2 = last_sent_velocities s).
  { subst s2. cbn. apply (process_dpad_events_frame (dpad_events p) s). }
  pose proof (target_released (current_speed_modifier s2) R) as T.
  destruct (should_send_velocities _ _) eqn:S; cbn [fst snd].
  - split; [exact T|]. split.
    + intros Z. rewrite should_send_from_rest in S; [discriminate | exact T |].
      rewrite LS. exact Z.
    + intros _. exists asc_calls, (target_velocities p (current_speed_modifier s2)).
      split; [reflexivity | exact T].
  - assert (Z : is_zero (last_sent_velocities s)).
    { rewrite <- LS. eapply not_sent_to_zero; [exact T | rewrite LS; exact L | exact S]. }
    split; [rewrite LS; exact Z|]. split; [intros _; exact NV|].
    intros N. contradiction.
Qed.


Lemma released_sticks_stop_the_robot_witness :
  let p := sticks (1 # 100) 0 0 false false in
  let s := gamepad_controller
             (fst (run moving_events (MotionManager.init true [] 0 (5 # 10)))) in
  sticks_released p
  /\ settled_velocities (last_sent_velocities s)
  /\ is_zero (last_sent_velocities (fst (process_payload p s))).
Proof.
  cbv zeta.
  assert (R : sticks_released (sticks (1 # 100) 0 0 false false)).
  { repeat split; apply Qle_bool_imp_le; reflexivity. }
  assert (L : settled_velocities
                (last_sent_velocities
                   (gamepad_controller
                      (fst (run moving_events
                              (MotionManager.init true [] 0 (5 # 10))))))).
  { repeat split; [right; reflexivity | right; reflexivity | left; reflexivity]. }
  split; [exact R|]. split; [exact L|].
  exact (proj1 (@released_sticks_stop_the_robot _ _ R L)).
Defined.

(** *** Leaving gamepad control *)

Lemma pad_inv_flags (b1 b2 : bool) (s : MotionGamePad.t) :
  pad_inv s -> pad_inv (set_event b1 (set_run b2 s)).
Proof. intros [A B C]. constructor; assumption. Qed.

Lemma exit_step (b : bool) (s : MotionGamePad.t) :
  processing_thread s = Some at_loop_head ->
  run_processing_flag s = false ->
  emergency_stop_active_flag s = false ->
  loop_step b s = (set_thread None s, [emit s (set_base_velocities zero_velocities)]).
Proof. intros T R F. unfold loop_step. rewrite T, R, F. reflexivity. Qed.

Lemma take_step (b : bool) (s : MotionGamePad.t) :
  pad_inv s ->
  processing_thread s = Some waiting_for_data ->
  new_data_event s = true ->
  let r := loop_step b s in
  pad_inv (fst r)
  /\ processing_thread (fst r) = Some at_loop_head
  /\ run_processing_flag (fst r) = run_processing_flag s
  /\ emergency_stop_active_flag (fst r) = emergency_stop_active_flag s.
Proof.
  intros Inv T N. cbv zeta.
  destruct (loop_step_spec b Inv) as (A & B & _).
  split; [exact A|]. split; [|split; [|exact B]];
    unfold loop_step; rewrite T, N;
    destruct (latest_gamepad_payload s) as [p|].
  - apply (process_payload_frame p
             (set_thread (Some at_loop_head) (set_payload None (set_event false s)))).
  - apply (dead_man_frame
             (set_thread (Some at_loop_head) (set_payload None (set_event false s)))).
  - apply (process_payload_frame p
             (set_thread (Some at_loop_head) (set_payload None (set_event false s)))).
  - apply (dead_man_frame
             (set_thread (Some at_loop_head) (set_payload None (set_event false s)))).
Qed.

Lemma last_velocity_from_snoc (acc : option velocities) (l : list MotionGamePad.emission)
    (e : MotionGamePad.emission) (v : velocities) :
  made e = set_base_velocities v ->
  last_velocity_from acc (l ++ [e]) = Some v.
Proof.
  intros M. rewrite last_velocity_from_app. cbn. rewrite M. reflexivity.
Qed.

(** X6. Deactivating gamepad control (not as part of an emergency stop)
    while the worker thread is alive ends in mode [idle] with the thread gone
    and its run flag cleared, and the last two calls on the hardware are the
    zero velocity sent by the thread on leaving its loop and
    [release_robot]. *)
Theorem deactivation_stops_and_releases (s : MotionManager.t) :
  inv s ->
  current_control_mode s = gamepad ->
  processing_thread (gamepad_controller s) <> None ->
  let r := deactivate_gamepad_control false s in
  current_control_mode (fst r) = idle
  /\ processing_thread (gamepad_controller (fst r)) = None
  /\ run_processing_flag (gamepad_controller (fst r)) = false
  /\ exists before,
       calls (snd r) = before ++ [set_base_velocities zero_velocities; release_robot].
Proof.
  intros Inv M T. cbv zeta.
  pose proof (inv_gamepad Inv M) as F.
  unfold deactivate_gamepad_control. rewrite M. cbn [mode_eqb orb].
  unfold stop_processing.
  set (s1 := set_event true (set_run false (gamepad_controller s))).
  assert (I1 : pad_inv s1) by (apply pad_inv_flags, (inv_pad Inv)).
  assert (J : exists c before,
             join s1 = (c, before ++ [emit c (set_base_velocities zero_velocities)])
             /\ processing_thread c = None /\ run_processing_flag c = false).
  { unfold join.
    change (processing_thread s1) with (processing_thread (gamepad_controller s)).
    destruct (processing_thread (gamepad_controller s)) as [[|]|] eqn:P.
    - exists (set_thread None s1), [].
      rewrite (@exit_step false s1 P eq_refl F).
      repeat split.
    - destruct (take_step false I1 P eq_refl) as (A & B & C & D).
      destruct (loop_step false s1) as [s2 e1]. cbn [fst] in A, B, C, D.
      rewrite (@exit_step false s2 B C (eq_trans D F)).
      exists (set_thread None s2), e1. repeat split. exact C.
    - contradiction. }
  destruct J as (c & before & J & TN & RN). rewrite J.
  cbn [negb fst snd].
  split; [reflexivity|]. split; [reflexivity|]. split; [exact RN|].
  exists (map (fun e => made e) before).
  unfold calls, stamp. rewrite !map_map, !map_app. cbn.
  rewrite <- app_assoc. reflexivity.
Qed.


Lemma deactivation_stops_and_releases_witness :
  current_control_mode driving = gamepad
  /\ processing_thread (gamepad_controller driving) <> None
  /\ current_control_mode (fst (deactivate_gamepad_control false driving)) = idle.
Proof.
  assert (M : current_control_mode driving = gamepad) by reflexivity.
  assert (T : processing_thread (gamepad_controller driving) <> None) by discriminate.
  split; [exact M|]. split; [exact T|].
  exact (proj1 (@deactivation_stops_and_releases driving
                  (proj1 (run_spec [Activate true; WorkerStep false]
                            (init_inv true [] 0 (5 # 10))))
                  M T)).
Defined.

(** *** Emergency stop cleared without a worker thread *)

Definition payload_or_worker_step (ev : event) : bool :=
  match ev with
  | Payload q => negb (pressed_l3_or_r3 q)
  | WorkerStep _ => true
  | _ => false
  end.

Lemma stalled_step (ev : event) (s : MotionManager.t) :
  current_control_mode s = gamepad ->
  processing_thread (gamepad_controller s) = None ->
  payload_or_worker_step ev = true ->
  current_control_mode (fst (step ev s)) = gamepad
  /\ processing_thread (gamepad_controller (fst (step ev s))) = None
  /\ snd (step ev s) = [].
Proof.
  intros M T E. destruct ev as [q| | | | |b]; try discriminate; cbn [step].
  - cbn in E. apply negb_true_iff in E. unfold pressed_l3_or_r3 in E.
    unfold handle_gamepad_payload_from_tablet. rewrite E, M. cbn.
    rewrite M. cbn. unfold update_gamepad_state.
    destruct (emergency_stop_active_flag _); cbn; rewrite ?T; repeat split; assumption.
  - unfold loop_step. rewrite T. cbn. repeat split; assumption.
Qed.

(** X7. Releasing an emergency stop always leads to mode [gamepad], also
    when the stop was triggered in mode [idle], where no worker thread
    exists.  In the state reached, the released payload waits in the mailbox,
    [activate_gamepad_control] returns true without initialising the robot or
    starting the thread, and further payloads and worker steps make no
    call. *)
Theorem stop_released_without_worker
    (s : MotionManager.t) (p q : payload) (init_ok : bool) :
  current_control_mode s = idle ->
  processing_thread (gamepad_controller s) = None ->
  pressed_l3_or_r3 p = true ->
  pressed_l3_or_r3 q = false ->
  let s2 := fst (run [Payload p; Payload q] s) in
  current_control_mode s2 = gamepad
  /\ processing_thread (gamepad_controller s2) = None
  /\ latest_gamepad_payload (gamepad_controller s2) = Some q
  /\ activate_gamepad_control init_ok s2 = (s2, [], true)
  /\ (forall evs,
        forallb payload_or_worker_step evs = true ->
        snd (run evs s2) = []
        /\ processing_thread (gamepad_controller (fst (run evs s2))) = None).
Proof.
  intros M T P Q s2.
  assert (A : current_control_mode s2 = gamepad
              /\ processing_thread (gamepad_controller s2) = None
              /\ latest_gamepad_payload (gamepad_controller s2) = Some q).
  { unfold s2. cbn [run].
    assert (E1 : current_control_mode (fst (step (Payload p) s)) = emergency_stopped
                 /\ processing_thread (gamepad_controller (fst (step (Payload p) s)))
                    = None).
    { cbn [step]. unfold handle_gamepad_payload_from_tablet.
      unfold pressed_l3_or_r3 in P. rewrite P, M. cbn [mode_eqb negb andb].
      unfold trigger_internal_emergency_stop. rewrite M. cbn. rewrite T.
      split; reflexivity. }
    destruct (step (Payload p) s) as [s1 out1]. cbn [fst] in E1.
    destruct E1 as (M1 & T1).
    cbn [step]. rewrite (@release_payload_spec q s1 M1 Q). cbn [fst].
    unfold clear_internal_emergency_stop. rewrite M1. cbn. rewrite T1.
    repeat split. }
  destruct A as (A1 & A2 & A3).
  split; [exact A1|]. split; [exact A2|]. split; [exact A3|]. split.
  - unfold activate_gamepad_control. rewrite A1. reflexivity.
  - clearbody s2. clear - A1 A2. intros evs. revert s2 A1 A2.
    induction evs as [|ev rest IH]; intros s2 A1 A2 F; cbn [run].
    + split; [reflexivity | exact A2].
    + cbn [forallb] in F. apply andb_true_iff in F. destruct F as (F1 & F2).
      destruct (@stalled_step ev s2 A1 A2 F1) as (B1 & B2 & B3).
      destruct (step ev s2) as [s3 out1]. cbn [fst snd] in B1, B2, B3. subst out1.
      destruct (IH s3 B1 B2 F2) as (C1 & C2).
      destruct (run rest s3) as [s4 out2]. cbn [fst snd] in *. subst out2.
      split; [reflexivity | exact C2].
Qed.

Lemma stop_released_without_worker_witness :
  let s := MotionManager.init true [] 0 (5 # 10) in
  let p := sticks 0 0 0 true false in
  let q := sticks (1 # 2) (1 # 2) 0 false false in
  current_control_mode s = idle
  /\ processing_thread (gamepad_controller s) = None
  /\ pressed_l3_or_r3 p = true
  /\ pressed_l3_or_r3 q = false
  /\ current_control_mode (fst (run [Payload p; Payload q] s)) = gamepad.
Proof.
  cbv zeta. repeat (split; [reflexivity|]).
  exact (proj1 (@stop_released_without_worker
                  (MotionManager.init true [] 0 (5 # 10))
                  (sticks 0 0 0 true false) (sticks (1 # 2) (1 # 2) 0 false false)
                  true eq_refl eq_refl eq_refl eq_refl)).
Defined.


(** *** The global speed factor *)

Lemma clamp_speed_in_range (f : Q) : 1 # 10 <= f -> f <= 1 -> clamp_speed f == f.
Proof.
  intros Lo Hi. unfold clamp_speed, Py.max, Py.min,
    MIN_SPEED_MODIFIER_LIMIT, MAX_SPEED_MODIFIER_LIMIT.
  destruct (Py.Qltb f 1) eqn:A.
  - destruct (Py.Qgtb f (1 # 10)) eqn:B; [reflexivity|].
    apply PyFacts.Qgtb_false in B. apply Qle_antisym; assumption.
  - assert (E : f == 1).
    { apply Qle_antisym; [assumption|].
      unfold Py.Qltb in A. apply negb_false_iff in A. apply Qle_bool_iff in A.
      assumption. }
    destruct (Py.Qgtb 1 (1 # 10)) eqn:B; [symmetry; assumption|].
    discriminate.
Qed.

(** X8. [set_global_speed_factor] applies a factor between 0.1 and 1.0
    unchanged: it becomes the global factor and (the clamp of the gamepad
    controller being the identity on that range) the speed modifier, and the
    control mode is kept.  A factor outside the range leaves the manager as
    it was. *)
Theorem global_speed_factor_applied (f : Q) (s : MotionManager.t) :
  let s' := set_global_speed_factor f s in
  (1 # 10 <= f /\ f <= 1 ->
   global_speed_factor s' = f
   /\ current_speed_modifier (gamepad_controller s') == f
   /\ current_control_mode s' = current_control_mode s)
  /\ (f < 1 # 10 \/ 1 < f -> s' = s).
Proof.
  cbv zeta. unfold set_global_speed_factor. split.
  - intros (Lo & Hi).
    rewrite (proj2 (Qle_bool_iff (1 # 10) f) Lo), (proj2 (Qle_bool_iff f 1) Hi).
    cbn. split; [reflexivity|]. split; [|reflexivity].
    apply clamp_speed_in_range; assumption.
  - intros Out.
    destruct (Qle_bool (1 # 10) f && Qle_bool f 1) eqn:E; [|reflexivity].
    apply andb_true_iff in E. destruct E as (Lo & Hi).
    apply Qle_bool_iff in Lo. apply Qle_bool_iff in Hi.
    destruct Out as [Out|Out]; exfalso.
    + apply (Qlt_irrefl f). eapply Qlt_le_trans; eassumption.
    + apply (Qlt_irrefl 1). eapply Qlt_le_trans; eassumption.
Qed.

(** *** Action buttons *)

(** X9. Every call made by [_process_action_button_events] needs the
    speech controller, is never a velocity command, and comes from the entry
    that the current animation layer holds for a button which is pressed in
    this payload and was not in the previous one. *)
Theorem animation_needs_fresh_press
    (b : buttons) (s : MotionGamePad.t) (e : MotionGamePad.emission) :
  In e (snd (process_action_button_events b s)) ->
  asc_available s = true
  /\ at_estop_flag e = emergency_stop_active_flag s
  /\ (forall v, made e <> set_base_velocities v)
  /\ exists k layer cfg,
       pressed k b = true
       /\ pressed k (prev_action_button_events s) = false
       /\ Py.assoc (current_animation_layer s) (gamepad_anim_config s) = Some layer
       /\ layer_get k layer = Some cfg
       /\ In (made e) (dispatch_action (Some cfg)).
Proof.
  intros H.
  pose proof (process_action_button_events_no_velocity b s) as NV.
  rewrite Forall_forall in NV. specialize (NV e H).
  unfold process_action_button_events in H.
  destruct (asc_available s); cbn [negb] in H; [|contradiction].
  destruct (_ || _); [contradiction|].
  destruct (Py.assoc (current_animation_layer s) (gamepad_anim_config s))
    as [layer|]; [|contradiction].
  destruct layer as [|entry rest]; [contradiction|].
  cbn [snd] in H. apply in_map_iff in H. destruct H as (c & <- & H).
  split; [reflexivity|]. split; [reflexivity|]. split; [exact NV|].
  apply in_flat_map in H. destruct H as (k & _ & H).
  exists k, (entry :: rest).
  destruct (rising (pressed k b) (pressed k (prev_action_button_events s))) eqn:R;
    [|contradiction].
  unfold rising in R. apply andb_true_iff in R. destruct R as (R1 & R2).
  apply negb_true_iff in R2.
  destruct (layer_get k (entry :: rest)) as [cfg|] eqn:G; [|contradiction].
  exists cfg. repeat split; assumption.
Qed.

Lemma animation_needs_fresh_press_witness :
  let cfg := {| cfg_type := Some "standard_tag"%string; cfg_category := None;
                cfg_name := None; cfg_tag := Some "hello"%string;
                cfg_text := None |} in
  let s := MotionGamePad.init true [(0%Z, [(key_a, cfg)])] 0 (5 # 10) in
  let b := {| btn_a := true; btn_b := false; btn_x := false; btn_y := false |} in
  let e := {| at_estop_flag := false;
              made := play_standard_animation_by_tag "hello" |} in
  In e (snd (process_action_button_events b s)) /\ asc_available s = true.
Proof.
  cbv zeta.
  assert (H : In {| at_estop_flag := false;
                    made := play_standard_animation_by_tag "hello" |}
                (snd (process_action_button_events
                        {| btn_a := true; btn_b := false; btn_x := false;
                           btn_y := false |}
                        (MotionGamePad.init true
                           [(0%Z, [(key_a,
                                    {| cfg_type := Some "standard_tag"%string;
                                       cfg_category := None; cfg_name := None;
                                       cfg_tag := Some "hello"%string;
                                       cfg_text := None |})])] 0 (5 # 10)))))
    by (left; reflexivity).
  split; [exact H|].
  exact (proj1 (animation_needs_fresh_press _ _ _ H)).
Defined.

End MotionBehaviour.

(** ** The tablet gateway: accepted frames and their routing *)

Module GatewayBehaviour.

Import Messages TabletInterface ClientPayloads.
Local Open Scope string_scope.

Lemma bind_ok {A B : Type} (c : checked A) (k : A -> checked B) (b : B) :
  bind c k = Ok b -> exists a, c = Ok a /\ k a = Ok b.
Proof. destruct c as [a|m]; cbn; [eauto | discriminate]. Qed.

Lemma check_payload_ok (ty : string) (payload : option json) (d : dict) :
  check_payload ty payload = Ok d ->
  if needs_dict_payload ty then payload = Some (JObj d) else d = [].
Proof.
  unfold check_payload. destruct (needs_dict_payload ty).
  - destruct payload as [[| | | | | |fields]|]; try discriminate.
    intros [= ->]. reflexivity.
  - intros [= <-]. reflexivity.
Qed.

Lemma isinstance_str_iff (v : option json) :
  isinstance_str v = true <-> exists s, v = Some (JStr s).
Proof.
  split.
  - destruct v as [[| | | |s| |]|]; try discriminate. eauto.
  - intros (s & ->). reflexivity.
Qed.

(** What [deserialize_client_message] has checked when it returns. *)
Definition checked_payload (ty : string) (payload : option json) : Prop :=
  (ty = MSG_TYPE_INPUT ->
   exists p text, payload = Some (JObj p) /\ get "text" p = Some (JStr text))
  /\ (ty = MSG_TYPE_CONFIG ->
      exists p item,
        payload = Some (JObj p)
        /\ get "config_item" p = Some (JStr item)
        /\ contains "value" p = true)
  /\ (ty = MSG_TYPE_GAMEPAD_STATE ->
      exists p,
        payload = Some (JObj p)
        /\ check_required_keys
             ["left_stick"; "right_stick"; "dpad_events"; "action_button_events";
              "stick_button_states"] p = Ok tt
        /\ validate_gamepad_groups p = Ok tt).

Lemma accepted_shape (frame : loaded) (d : dict) :
  deserialize_client_message frame = Ok d ->
  frame = Loaded (JObj d)
  /\ exists ty,
       get "type" d = Some (JStr ty)
       /\ ty <> ""
       /\ checked_payload ty (get "payload" d).
Proof.
  unfold deserialize_client_message.
  destruct frame as [e|[| | | | | |message]]; try discriminate.
  destruct (get "type" message) as [[| | | |ty| |]|] eqn:T; try discriminate.
  destruct (String.eqb ty "") eqn:E; [discriminate|].
  apply String.eqb_neq in E.
  intros H. apply bind_ok in H. destruct H as (p & C & H).
  apply check_payload_ok in C.
  destruct (String.eqb ty MSG_TYPE_INPUT) eqn:E1.
  { apply String.eqb_eq in E1. subst ty. cbn in C.
    destruct (negb (contains "text" p) || negb (isinstance_str (get "text" p))) eqn:V;
      [discriminate|].
    injection H as <-. split; [reflexivity|]. exists MSG_TYPE_INPUT.
    split; [exact T|]. split; [exact E|].
    apply orb_false_iff in V. destruct V as (_ & V). apply negb_false_iff in V.
    apply isinstance_str_iff in V. destruct V as (text & V).
    repeat split; try discriminate. intros _. exists p, text. split; assumption. }
  destruct (String.eqb ty MSG_TYPE_CONFIG) eqn:E2.
  { apply String.eqb_eq in E2. subst ty. cbn in C.
    destruct (negb (contains "config_item" p)
              || negb (isinstance_str (get "config_item" p))) eqn:V; [discriminate|].
    destruct (negb (contains "value" p)) eqn:W; [discriminate|].
    injection H as <-. split; [reflexivity|]. exists MSG_TYPE_CONFIG.
    split; [exact T|]. split; [exact E|].
    apply orb_false_iff in V. destruct V as (_ & V). apply negb_false_iff in V.
    apply isinstance_str_iff in V. destruct V as (item & V).
    apply negb_false_iff in W.
    repeat split; try discriminate. intros _. exists p, item. repeat split; assumption. }
  destruct (String.eqb ty MSG_TYPE_GAMEPAD_STATE) eqn:E3.
  { apply String.eqb_eq in E3. subst ty. cbn in C.
    apply bind_ok in H. destruct H as ([] & K & H).
    apply bind_ok in H. destruct H as ([] & G & H).
    injection H as <-. split; [reflexivity|]. exists MSG_TYPE_GAMEPAD_STATE.
    split; [exact T|]. split; [exact E|].
    repeat split; try discriminate. intros _. exists p. repeat split; assumption. }
  injection H as <-. split; [reflexivity|]. exists ty.
  split; [exact T|]. split; [exact E|].
  apply String.eqb_neq in E1, E2, E3.
  repeat split; intros ->; contradiction.
Qed.

(** X10. A frame accepted by [deserialize_client_message] is returned
    unchanged: it is a JSON object whose [type] is a non-empty string.  For
    the types [input], [config] and [gamepad_state] its [payload] is an
    object; an accepted [input] carries a string [text], and an accepted
    [config] a string [config_item] and a [value] key. *)
Theorem accepted_message_unchanged (frame : loaded) (d : dict) :
  deserialize_client_message frame = Ok d ->
  frame = Loaded (JObj d)
  /\ exists ty,
       get "type" d = Some (JStr ty)
       /\ ty <> ""
       /\ (needs_dict_payload ty = true ->
           exists payload, get "payload" d = Some (JObj payload))
       /\ (ty = MSG_TYPE_INPUT ->
           exists payload text,
             get "payload" d = Some (JObj payload)
             /\ get "text" payload = Some (JStr text))
       /\ (ty = MSG_TYPE_CONFIG ->
           exists payload item,
             get "payload" d = Some (JObj payload)
             /\ get "config_item" payload = Some (JStr item)
             /\ contains "value" payload = true).
Proof.
  intros H. destruct (accepted_shape _ H) as (F & ty & T & N & I & C & G).
  split; [exact F|]. exists ty. split; [exact T|]. split; [exact N|].
  split; [|split; assumption].
  unfold needs_dict_payload. intros D.
  apply orb_true_iff in D. destruct D as [D|D];
    [apply orb_true_iff in D; destruct D as [D|D]|]; apply String.eqb_eq in D.
  - destruct (I D) as (p & _ & P & _). eauto.
  - destruct (C D) as (p & _ & P & _). eauto.
  - destruct (G D) as (p & P & _). eauto.
Qed.

(** *** Accepted gamepad frames *)

Definition numeric_stick (name : string) (payload : dict) : Prop :=
  exists d,
    get name payload = Some (JObj d)
    /\ isinstance_number (get "x" d) = true
    /\ isinstance_number (get "y" d) = true.

Definition boolean_group (name : string) (keys : list string) (payload : dict) : Prop :=
  exists d,
    get name payload = Some (JObj d)
    /\ forall k, In k keys -> exists b, get k d = Some (JBool b).

Definition well_formed_gamepad_state (payload : dict) : Prop :=
  numeric_stick "left_stick" payload
  /\ numeric_stick "right_stick" payload
  /\ boolean_group "dpad_events" ["up"; "down"; "left"; "right"] payload
  /\ boolean_group "action_button_events" ["a"; "b"; "x"; "y"] payload
  /\ boolean_group "stick_button_states" ["l3_pressed"; "r3_pressed"] payload.

Lemma number_contains (key : string) (d : dict) :
  isinstance_number (get key d) = true -> contains key d = true.
Proof. unfold contains. destruct (get key d); [reflexivity | discriminate]. Qed.

Lemma isinstance_bool_iff (v : option json) :
  isinstance_bool v = true <-> exists b, v = Some (JBool b).
Proof.
  split.
  - destruct v as [[| b | | | | |]|]; try discriminate. eauto.
  - intros (b & ->). reflexivity.
Qed.

Lemma joystick_ok (payload : dict) (name label : string) :
  (exists r, is_valid_joystick_object (get name payload) label = Ok r)
  <-> numeric_stick name payload.
Proof.
  unfold is_valid_joystick_object, numeric_stick. split.
  - intros (r & H).
    destruct (get name payload) as [[| | | | | |d]|]; try discriminate.
    destruct (negb (forallb _ _)); [discriminate|].
    destruct (isinstance_number (get "x" d)) eqn:X; [|discriminate].
    destruct (isinstance_number (get "y" d)) eqn:Y; [|discriminate].
    exists d. repeat split; assumption.
  - intros (d & -> & X & Y).
    cbn [forallb]. rewrite (number_contains _ _ X), (number_contains _ _ Y), X, Y.
    cbn. eauto.
Qed.

Lemma buttons_ok (payload : dict) (name label : string) (keys : list string) :
  (exists r, is_valid_button_object (get name payload) label keys = Ok r)
  <-> boolean_group name keys payload.
Proof.
  unfold is_valid_button_object, boolean_group. split.
  - intros (r & H).
    destruct (get name payload) as [[| | | | | |d]|]; try discriminate.
    destruct (forallb (fun key => contains key d) keys); [|discriminate].
    cbn [negb] in H.
    destruct (forallb (fun key => isinstance_bool (get key d)) keys) eqn:B;
      [|discriminate].
    exists d. split; [reflexivity|]. intros k K.
    rewrite forallb_forall in B. apply isinstance_bool_iff. apply B. exact K.
  - intros (d & -> & B).
    assert (B1 : forallb (fun key => contains key d) keys = true).
    { apply forallb_forall. intros k K. destruct (B k K) as (b & E).
      unfold contains. rewrite E. reflexivity. }
    assert (B2 : forallb (fun key => isinstance_bool (get key d)) keys = true).
    { apply forallb_forall. intros k K. apply isinstance_bool_iff. apply B. exact K. }
    rewrite B1, B2. cbn. eauto.
Qed.

Lemma group_contains (name : string) (payload d : dict) :
  get name payload = Some (JObj d) -> contains name payload = true.
Proof. unfold contains. intros ->. reflexivity. Qed.

Lemma validate_gamepad_groups_ok (payload : dict) :
  validate_gamepad_groups payload = Ok tt <-> well_formed_gamepad_state payload.
Proof.
  unfold validate_gamepad_groups, well_formed_gamepad_state.
  rewrite <- !joystick_ok with (label := "payload.left_stick") (name := "left_stick").
  rewrite <- !joystick_ok with (label := "payload.right_stick") (name := "right_stick").
  rewrite <- !buttons_ok with (label := "payload.dpad_events") (name := "dpad_events").
  rewrite <- !buttons_ok with (label := "payload.action_button_events")
    (name := "action_button_events").
  rewrite <- !buttons_ok with (label := "payload.stick_button_states")
    (name := "stick_button_states").
  destruct (is_valid_joystick_object (get "left_stick" payload) _) as [r1|m1];
    [|cbn; split; [discriminate | intros ((r & R) & _); discriminate]].
  destruct (is_valid_joystick_object (get "right_stick" payload) _) as [r2|m2];
    [|cbn; split; [discriminate | intros (_ & (r & R) & _); discriminate]].
  destruct (is_valid_button_object (get "dpad_events" payload) _ _) as [r3|m3];
    [|cbn; split; [discriminate | intros (_ & _ & (r & R) & _); discriminate]].
  destruct (is_valid_button_object (get "action_button_events" payload) _ _) as [r4|m4];
    [|cbn; split; [discriminate | intros (_ & _ & _ & (r & R) & _); discriminate]].
  destruct (is_valid_button_object (get "stick_button_states" payload) _ _) as [r5|m5];
    [|cbn; split; [discriminate | intros (_ & _ & _ & _ & (r & R)); discriminate]].
  cbn. split; [|reflexivity]. intros _. repeat split; eauto.
Qed.

Lemma well_formed_required_keys (payload : dict) :
  well_formed_gamepad_state payload ->
  check_required_keys
    ["left_stick"; "right_stick"; "dpad_events"; "action_button_events";
     "stick_button_states"] payload = Ok tt.
Proof.
  intros ((d1 & G1 & _) & (d2 & G2 & _) & (d3 & G3 & _) & (d4 & G4 & _) & (d5 & G5 & _)).
  cbn [check_required_keys].
  rewrite (group_contains _ _ G1), (group_contains _ _ G2), (group_contains _ _ G3),
    (group_contains _ _ G4), (group_contains _ _ G5).
  reflexivity.
Qed.

(** X11. A frame of type [gamepad_state] is accepted exactly when its
    payload is an object in which [left_stick] and [right_stick] are objects
    with numeric [x] and [y], and [dpad_events], [action_button_events] and
    [stick_button_states] are objects holding a boolean for each of their
    expected keys. *)
Theorem gamepad_state_accepted_iff_well_formed (message : dict) :
  get "type" message = Some (JStr MSG_TYPE_GAMEPAD_STATE) ->
  deserialize_client_message (Loaded (JObj message)) = Ok message
  <-> exists payload,
        get "payload" message = Some (JObj payload)
        /\ well_formed_gamepad_state payload.
Proof.
  intros T. unfold deserialize_client_message. rewrite T.
  replace (String.eqb MSG_TYPE_GAMEPAD_STATE "") with false by reflexivity.
  unfold check_payload.
  replace (needs_dict_payload MSG_TYPE_GAMEPAD_STATE) with true by reflexivity.
  replace (String.eqb MSG_TYPE_GAMEPAD_STATE MSG_TYPE_INPUT) with false by reflexivity.
  replace (String.eqb MSG_TYPE_GAMEPAD_STATE MSG_TYPE_CONFIG) with false by reflexivity.
  replace (String.eqb MSG_TYPE_GAMEPAD_STATE MSG_TYPE_GAMEPAD_STATE) with true
    by reflexivity.
  split.
  - intros H.
    destruct (get "payload" message) as [[| | | | | |payload]|]; try discriminate.
    cbn [bind] in H. exists payload. split; [reflexivity|].
    apply validate_gamepad_groups_ok.
    destruct (check_required_keys _ payload); [|discriminate]. cbn [bind] in H.
    destruct (validate_gamepad_groups payload) as [[]|]; [reflexivity | discriminate].
  - intros (payload & -> & W). cbn [bind].
    rewrite (well_formed_required_keys W). cbn [bind].
    rewrite (proj2 (validate_gamepad_groups_ok payload) W). reflexivity.
Qed.


(** A frame with both sticks centred and nothing pressed. *)
Definition centred_payload (l3 : bool) : dict :=
  [("left_stick", JObj [("x", JInt 0); ("y", JInt 0)]);
   ("right_stick", JObj [("x", JFloat 0); ("y", JFloat 0)]);
   ("dpad_events",
    JObj [("up", JBool false); ("down", JBool false); ("left", JBool false);
          ("right", JBool false)]);
   ("action_button_events",
    JObj [("a", JBool false); ("b", JBool false); ("x", JBool false);
          ("y", JBool false)]);
   ("stick_button_states", JObj [("l3_pressed", JBool l3); ("r3_pressed", JBool false)])].

Definition centred_frame (l3 : bool) : dict :=
  [("type", JStr MSG_TYPE_GAMEPAD_STATE); ("payload", JObj (centred_payload l3))].

Lemma accepted_message_unchanged_witness :
  deserialize_client_message (Loaded (JObj (centred_frame false)))
  = Ok (centred_frame false)
  /\ exists ty, get "type" (centred_frame false) = Some (JStr ty) /\ ty <> "".
Proof.
  assert (H : deserialize_client_message (Loaded (JObj (centred_frame false)))
              = Ok (centred_frame false)) by reflexivity.
  split; [exact H|].
  destruct (accepted_message_unchanged _ H) as (_ & ty & T & N & _).
  exists ty. split; assumption.
Defined.

Lemma gamepad_state_accepted_iff_well_formed_witness :
  get "type" (centred_frame true) = Some (JStr MSG_TYPE_GAMEPAD_STATE)
  /\ exists payload,
       get "payload" (centred_frame true) = Some (JObj payload)
       /\ well_formed_gamepad_state payload.
Proof.
  assert (T : get "type" (centred_frame true) = Some (JStr MSG_TYPE_GAMEPAD_STATE))
    by reflexivity.
  split; [exact T|].
  exact (proj1 (gamepad_state_accepted_iff_well_formed (centred_frame true) T) eq_refl).
Defined.

(** *** Routing of accepted frames *)

Lemma asserted_of_bool (name : string) (buttons : dict) :
  bool_of (get name buttons) = true -> button_asserted name buttons = true.
Proof.
  unfold button_asserted.
  destruct (get name buttons) as [[| b | | | | |]|]; cbn; try discriminate. auto.
Qed.

Lemma stick_buttons_group (payload : option json) :
  stick_buttons_of payload
  = group "stick_button_states"
      (match payload with Some (JObj d) => d | _ => [] end).
Proof.
  unfold stick_buttons_of, group.
  destruct payload as [[| | | | | |d]|]; reflexivity.
Qed.

Lemma pressed_decoded (payload : option json) :
  MotionArbiter.pressed_l3_or_r3 (gamepad_payload payload)
  = bool_of (get "l3_pressed" (stick_buttons_of payload))
    || bool_of (get "r3_pressed" (stick_buttons_of payload)).
Proof. rewrite stick_buttons_group. reflexivity. Qed.

Lemma handle_client_message_cases (s : TabletInterface.t) (ty payload : option json)
    (ws : client) (a : action) :
  In a (handle_client_message s ty payload ws) ->
  handle_client_message s ty payload ws = [a]
  /\ match a with
     | send_text _ _ => False
     | on_input_received p =>
         ty = Some (JStr MSG_TYPE_INPUT) /\ p = payload
         /\ has_on_input_received s = true
     | on_config_received p =>
         ty = Some (JStr MSG_TYPE_CONFIG) /\ p = payload
         /\ has_on_config_received s = true
     | on_gamepad_payload_received p =>
         ty = Some (JStr MSG_TYPE_GAMEPAD_STATE) /\ p = payload
         /\ has_on_gamepad_payload_received s = true
         /\ MotionArbiter.pressed_l3_or_r3 (gamepad_payload p) = false
     | on_gamepad_emergency_stop =>
         ty = Some (JStr MSG_TYPE_GAMEPAD_STATE)
         /\ has_on_gamepad_emergency_stop s = true
         /\ (button_asserted "l3_pressed" (stick_buttons_of payload)
             || button_asserted "r3_pressed" (stick_buttons_of payload)) = true
     end.
Proof.
  unfold handle_client_message.
  destruct ty as [[| | | |ty| |]|]; try contradiction.
  destruct (String.eqb ty MSG_TYPE_INPUT) eqn:E1.
  { apply String.eqb_eq in E1. subst ty.
    destruct (has_on_input_received s); [|contradiction].
    intros [<-|[]]. repeat split. }
  destruct (String.eqb ty MSG_TYPE_CONFIG) eqn:E2.
  { apply String.eqb_eq in E2. subst ty.
    destruct (has_on_config_received s); [|contradiction].
    intros [<-|[]]. repeat split. }
  destruct (String.eqb ty MSG_TYPE_GAMEPAD_STATE) eqn:E3; [|contradiction].
  apply String.eqb_eq in E3. subst ty.
  destruct (button_asserted "l3_pressed" (stick_buttons_of payload)
            || button_asserted "r3_pressed" (stick_buttons_of payload)) eqn:B.
  - destruct (has_on_gamepad_emergency_stop s); [|contradiction].
    intros [<-|[]]. repeat split.
  - destruct (has_on_gamepad_payload_received s); [|contradiction].
    intros [<-|[]]. repeat split.
    apply orb_false_iff in B. destruct B as (B1 & B2).
    rewrite pressed_decoded. apply orb_false_iff. split.
    + destruct (bool_of _) eqn:C; [|reflexivity].
      apply asserted_of_bool in C. congruence.
    + destruct (bool_of _) eqn:C; [|reflexivity].
      apply asserted_of_bool in C. congruence.
Qed.

(** X12. One received frame leads to at most one action of the gateway.
    An error frame goes to the sending client only, and only when the frame
    is rejected.  The payload callback is called only with a well-formed
    payload in which neither L3 nor R3 is pressed (so the motion manager
    never sees a pressed stick button through it), the emergency-stop
    callback only for a well-formed payload with L3 or R3 true, and the
    input and config callbacks only with a validated payload. *)
Theorem frame_routing (s : TabletInterface.t) (ws : client) (frame : loaded)
    (a : action) :
  In a (websocket_receive s ws frame) ->
  websocket_receive s ws frame = [a]
  /\ match a with
     | send_text to _ =>
         to = ws /\ exists e, deserialize_client_message frame = ValueError e
     | on_gamepad_payload_received p =>
         has_on_gamepad_payload_received s = true
         /\ MotionArbiter.pressed_l3_or_r3 (gamepad_payload p) = false
         /\ exists payload,
              p = Some (JObj payload) /\ well_formed_gamepad_state payload
     | on_gamepad_emergency_stop =>
         has_on_gamepad_emergency_stop s = true
         /\ exists payload d,
              well_formed_gamepad_state payload
              /\ get "stick_button_states" payload = Some (JObj d)
              /\ (get "l3_pressed" d = Some (JBool true)
                  \/ get "r3_pressed" d = Some (JBool true))
     | on_input_received p =>
         has_on_input_received s = true
         /\ exists payload text,
              p = Some (JObj payload) /\ get "text" payload = Some (JStr text)
     | on_config_received p =>
         has_on_config_received s = true
         /\ exists payload item,
              p = Some (JObj payload)
              /\ get "config_item" payload = Some (JStr item)
              /\ contains "value" payload = true
     end.
Proof.
  unfold websocket_receive.
  destruct (deserialize_client_message frame) as [d|e] eqn:D.
  - intros H. apply handle_client_message_cases in H. destruct H as (E & C).
    split; [exact E|].
    destruct (accepted_shape _ D) as (_ & ty & T & _ & I & Cf & G).
    rewrite T in C.
    destruct a as [to f|p|p|p|].
    + contradiction.
    + destruct C as ([= ->] & -> & Cb). split; [exact Cb|]. apply I. reflexivity.
    + destruct C as ([= ->] & -> & Cb). split; [exact Cb|]. apply Cf. reflexivity.
    + destruct C as ([= ->] & -> & Cb & P). split; [exact Cb|]. split; [exact P|].
      destruct (G eq_refl) as (payload & Pl & _ & V).
      exists payload. split; [exact Pl|]. apply validate_gamepad_groups_ok. exact V.
    + destruct C as ([= ->] & Cb & B). split; [exact Cb|].
      destruct (G eq_refl) as (payload & Pl & _ & V).
      apply validate_gamepad_groups_ok in V.
      pose proof V as (_ & _ & _ & _ & (b & Gb & Keys)).
      exists payload, b. split; [exact V|]. split; [exact Gb|].
      unfold stick_buttons_of in B. rewrite Pl, Gb in B.
      destruct (Keys "l3_pressed") as (b1 & K1); [left; reflexivity|].
      destruct (Keys "r3_pressed") as (b2 & K2); [right; left; reflexivity|].
      unfold button_asserted in B. rewrite K1, K2 in B.
      apply orb_true_iff in B. destruct B as [-> | ->]; [left | right]; assumption.
  - intros [<-|[]]. split; [reflexivity|]. split; [reflexivity|]. eauto.
Qed.

Lemma frame_routing_witness :
  In on_gamepad_emergency_stop
    (websocket_receive TabletGateway.wired 7%nat (Loaded (JObj (centred_frame true))))
  /\ websocket_receive TabletGateway.wired 7%nat (Loaded (JObj (centred_frame true)))
     = [on_gamepad_emergency_stop].
Proof.
  assert (H : In on_gamepad_emergency_stop
                (websocket_receive TabletGateway.wired 7%nat
                   (Loaded (JObj (centred_frame true)))))
    by (left; reflexivity).
  split; [exact H|].
  exact (proj1 (frame_routing _ _ _ _ H)).
Defined.


(** *** Payloads prepared by the test client *)

(** X13. The dictionaries built by [prepare_client_input_payload] and
    [prepare_client_config_payload] pass [deserialize_client_message]
    unchanged, for every text, source, configuration item and value
    ([null] included), and are routed to the input and the config callback
    with the payload that was prepared; a source that is absent or empty is
    left out of the payload. *)
Theorem prepared_payloads_accepted (s : TabletInterface.t) (ws : client)
    (text config_item : string) (source : option string) (value : json) :
  (exists fields payload,
     prepare_client_input_payload text source = JObj fields
     /\ deserialize_client_message (Loaded (JObj fields)) = Ok fields
     /\ get "text" payload = Some (JStr text)
     /\ get "source" payload
        = (if Py.truthy source then option_map JStr source else None)
     /\ websocket_receive s ws (Loaded (JObj fields))
        = if has_on_input_received s
          then [on_input_received (Some (JObj payload))] else [])
  /\ (exists fields,
        prepare_client_config_payload config_item value = JObj fields
        /\ deserialize_client_message (Loaded (JObj fields)) = Ok fields
        /\ websocket_receive s ws (Loaded (JObj fields))
           = if has_on_config_received s
             then [on_config_received
                     (Some (JObj [("config_item", JStr config_item);
                                  ("value", value)]))]
             else []).
Proof.
  split.
  - unfold prepare_client_input_payload. cbv zeta.
    set (rest := if Py.truthy source
                 then match source with
                      | Some src => [("source", JStr src)]
                      | None => []
                      end
                 else []).
    exists [("type", JStr MSG_TYPE_INPUT); ("payload", JObj (("text", JStr text) :: rest))],
      (("text", JStr text) :: rest).
    split; [reflexivity|].
    assert (D : forall rest,
               deserialize_client_message
                 (Loaded (JObj [("type", JStr MSG_TYPE_INPUT);
                                ("payload", JObj (("text", JStr text) :: rest))]))
               = Ok [("type", JStr MSG_TYPE_INPUT);
                     ("payload", JObj (("text", JStr text) :: rest))])
      by reflexivity.
    split; [apply D|]. split; [reflexivity|]. split.
    + unfold rest. destruct source as [src|]; [|reflexivity].
      cbn [Py.truthy]. destruct (negb (String.eqb src "")); reflexivity.
    + unfold websocket_receive. rewrite D. reflexivity.
  - unfold prepare_client_config_payload. eexists. split; [reflexivity|].
    assert (D : deserialize_client_message
                  (Loaded (JObj [("type", JStr MSG_TYPE_CONFIG);
                                 ("payload",
                                  JObj [("config_item", JStr config_item);
                                        ("value", value)])]))
                = Ok [("type", JStr MSG_TYPE_CONFIG);
                      ("payload",
                       JObj [("config_item", JStr config_item); ("value", value)])])
      by reflexivity.
    split; [exact D|]. unfold websocket_receive. rewrite D. reflexivity.
Qed.

End GatewayBehaviour.

(** ** The tablet gateway: active connections *)

Module ConnectionSet.

Import ConversationManager Connections.

Lemma disconnected_during_send_filter (send_text : client -> outcome unit)
    (current : list client) :
  disconnected_during_send current (map send_text current)
  = filter (fun ws => is_exception (send_text ws)) current.
Proof.
  unfold disconnected_during_send.
  induction current as [|ws rest IH]; [reflexivity|].
  cbn. destruct (is_exception (send_text ws)); cbn; rewrite IH; reflexivity.
Qed.

Lemma is_exception_iff (r : outcome unit) : is_exception r = true <-> r = raises Exception.
Proof.
  destruct r as [u|[|]]; cbn; split; try discriminate; reflexivity.
Qed.

Lemma broadcast_cleanup_spec (current : list client) (results : list (outcome unit))
    (active : connections) :
  NoDup active ->
  NoDup (broadcast_cleanup current results active)
  /\ forall ws,
       In ws (broadcast_cleanup current results active)
       <-> In ws active /\ ~ In ws (disconnected_during_send current results).
Proof.
  unfold broadcast_cleanup.
  generalize (disconnected_during_send current results) as failed.
  intros failed. revert active.
  induction failed as [|c rest IH]; intros active N; cbn [fold_left].
  - split; [exact N|]. intros ws. cbn. tauto.
  - destruct (IH (ListSet.set_remove Nat.eq_dec c active) (ListSet.set_remove_nodup Nat.eq_dec c N))
      as (A & B).
    split; [exact A|]. intros ws. rewrite B, (ListSet.set_remove_iff Nat.eq_dec ws c N).
    cbn. intuition congruence.
Qed.

(** X14. A broadcast sends the message once to each active connection.
    The connections left are the active ones whose [send_text] did not end
    in an [Exception]; a client whose send was cancelled (a
    [BaseException]) stays.  The removal is made on the set as it is after
    the sends: a connection added meanwhile is kept, and none is added. *)
Theorem broadcast_reaches_all_and_drops_failed (frame : Type) (message_str : frame)
    (send_text : client -> outcome unit) (active : connections) :
  NoDup active ->
  let r := broadcast_message message_str send_text active in
  Permutation.Permutation (fst r) (map (fun ws => (ws, message_str)) active)
  /\ NoDup (snd r)
  /\ (forall ws,
        In ws (snd r) <-> In ws active /\ send_text ws <> raises Exception)
  /\ (forall later : connections,
        NoDup later ->
        let left := broadcast_cleanup active (map send_text active) later in
        NoDup left
        /\ forall ws,
             In ws left
             <-> In ws later /\ ~ (In ws active /\ send_text ws = raises Exception)).
Proof.
  intros N r.
  assert (C : forall later : connections,
             NoDup later ->
             NoDup (broadcast_cleanup active (map send_text active) later)
             /\ forall ws,
                  In ws (broadcast_cleanup active (map send_text active) later)
                  <-> In ws later
                      /\ ~ (In ws active /\ send_text ws = raises Exception)).
  { intros later NL.
    destruct (broadcast_cleanup_spec active (map send_text active) NL) as (A & B).
    split; [exact A|]. intros ws. rewrite B, disconnected_during_send_filter.
    rewrite filter_In, is_exception_iff. reflexivity. }
  assert (R : r = (map (fun ws => (ws, message_str)) active,
                   broadcast_cleanup active (map send_text active) active)).
  { unfold r, broadcast_message. destruct active; reflexivity. }
  rewrite R. cbn [fst snd].
  destruct (C active N) as (A & B).
  split; [apply Permutation.Permutation_refl|]. split; [exact A|]. split; [|exact C].
  intros ws. rewrite B. tauto.
Qed.

Lemma broadcast_reaches_all_and_drops_failed_witness :
  let send_text := fun ws : client =>
                     if Nat.eqb ws 2 then raises Exception else returns tt in
  NoDup [1; 2; 3]%nat
  /\ NoDup (snd (broadcast_message tt send_text [1; 2; 3]%nat)).
Proof.
  cbv zeta.
  assert (N : NoDup [1; 2; 3]%nat).
  { repeat constructor; cbn; intuition discriminate. }
  split; [exact N|].
  exact (proj1 (proj2 (broadcast_reaches_all_and_drops_failed tt
                         (fun ws : client =>
                            if Nat.eqb ws 2 then raises Exception else returns tt)
                         N))).
Defined.

(** *** The set over time *)

Lemma step_nodup (ev : event) (active : connections) :
  NoDup active -> NoDup (step ev active).
Proof.
  intros N. destruct ev as [ws|ws|send_text]; cbn [step].
  - apply ListSet.set_add_nodup. exact N.
  - apply ListSet.set_remove_nodup. exact N.
  - unfold broadcast_message. destruct active as [|c rest]; [exact N|].
    cbn [snd]. apply broadcast_cleanup_spec. exact N.
Qed.

Lemma step_member (ev : event) (active : connections) (ws : client) :
  NoDup active -> In ws (step ev active) -> In ws active \/ ev = Register ws.
Proof.
  intros N. destruct ev as [c|c|send_text]; cbn [step].
  - intros H. apply ListSet.set_add_elim in H. destruct H as [->|H]; auto.
  - intros H. apply ListSet.set_remove_iff in H; [|exact N]. left. apply H.
  - unfold broadcast_message. destruct active as [|c rest]; [auto|].
    cbn [snd]. intros H. left.
    apply (proj2 (broadcast_cleanup_spec (c :: rest) (map send_text (c :: rest)) N)) in H.
    apply H.
Qed.

Lemma run_app (evs1 evs2 : list event) (active : connections) :
  run (evs1 ++ evs2) active = run evs2 (run evs1 active).
Proof. apply fold_left_app. Qed.

Lemma run_nodup (evs : list event) (active : connections) :
  NoDup active -> NoDup (run evs active).
Proof.
  revert active. induction evs as [|ev rest IH]; intros active N; [exact N|].
  cbn. apply IH, step_nodup, N.
Qed.

(** X15. Starting from no connection, after any sequence of
    registrations, unregistrations and broadcasts the set of active
    connections has no duplicate, holds only clients that were registered,
    holds a client that has just been registered, and does not hold a client
    that has just been unregistered (as the [finally] clause of the web
    socket endpoint does). *)
Theorem connection_set_over_time (evs : list event) :
  let active := run evs [] in
  NoDup active
  /\ (forall ws, In ws active -> In (Register ws) evs)
  /\ (forall ws before, evs = before ++ [Register ws] -> In ws active)
  /\ (forall ws before, evs = before ++ [Unregister ws] -> ~ In ws active).
Proof.
  cbv zeta. split; [apply run_nodup; constructor|]. split; [|split].
  - induction evs as [|ev before IH] using rev_ind; [contradiction|].
    intros ws. rewrite run_app. cbn [run fold_left]. intros H.
    apply in_or_app.
    apply step_member in H; [|apply run_nodup; constructor].
    destruct H as [H| ->]; [left; apply IH; exact H | right; left; reflexivity].
  - intros ws before ->. rewrite run_app. cbn. apply ListSet.set_add_intro2. reflexivity.
  - intros ws before ->. rewrite run_app. cbn. intros H.
    apply ListSet.set_remove_iff in H; [|apply run_nodup; constructor].
    destruct H as (_ & H). apply H. reflexivity.
Qed.

End ConnectionSet.

(** ** The local microphone: queues and sample rate *)

Module MicrophoneIntake.

Import MicLocal MicPipeline.

(** [l1] is [l2] with some elements left out, the order kept. *)
Inductive subsequence {A : Type} : list A -> list A -> Prop :=
| subsequence_nil : subsequence [] []
| subsequence_skip (l1 l2 : list A) (a : A) :
    subsequence l1 l2 -> subsequence l1 (a :: l2)
| subsequence_keep (l1 l2 : list A) (a : A) :
    subsequence l1 l2 -> subsequence (a :: l1) (a :: l2).

Lemma subsequence_refl {A : Type} (l : list A) : subsequence l l.
Proof. induction l; constructor; assumption. Qed.

Lemma subsequence_app {A : Type} (l1 l2 m1 m2 : list A) :
  subsequence l1 l2 -> subsequence m1 m2 -> subsequence (l1 ++ m1) (l2 ++ m2).
Proof.
  intros H K. induction H; cbn; try constructor; assumption.
Qed.

Lemma subsequence_nil_l {A : Type} (l : list A) : subsequence [] l.
Proof. induction l; constructor; assumption. Qed.

Lemma subsequence_trans {A : Type} (l1 l2 l3 : list A) :
  subsequence l1 l2 -> subsequence l2 l3 -> subsequence l1 l3.
Proof.
  intros H K. revert l1 H. induction K; intros l0 H.
  - exact H.
  - apply subsequence_skip. apply IHK. exact H.
  - inversion H; subst.
    + apply subsequence_skip. apply IHK. assumption.
    + apply subsequence_keep. apply IHK. assumption.
Qed.

Lemma subsequence_drop_middle {A : Type} (l1 l2 l3 : list A) :
  subsequence (l1 ++ l3) (l1 ++ l2 ++ l3).
Proof.
  apply subsequence_app; [apply subsequence_refl|].
  rewrite <- (app_nil_l l3) at 1.
  apply subsequence_app; [apply subsequence_nil_l | apply subsequence_refl].
Qed.

(** A queue respects its bound. *)
Definition bounded {A : Type} (q : queue A) : Prop :=
  (0 < maxsize q)%Z -> (Z.of_nat (List.length (items q)) <= maxsize q)%Z.

Lemma put_nowait_spec {A : Type} (item : A) (q : queue A) :
  match put_nowait item q with
  | Some q' => maxsize q' = maxsize q /\ items q' = items q ++ [item]
               /\ (bounded q -> bounded q')
  | None => full q = true
  end.
Proof.
  unfold put_nowait. destruct (full q) eqn:F; [reflexivity|].
  cbn. split; [reflexivity|]. split; [reflexivity|].
  unfold bounded. cbn. intros B P. specialize (B P).
  unfold full in F. apply andb_false_iff in F.
  rewrite length_app. cbn.
  destruct F as [F|F].
  - apply Z.ltb_ge in F. lia.
  - apply Z.leb_gt in F. lia.
Qed.

Lemma get_spec {A : Type} (q : queue A) :
  match get q with
  | Some (item, q') => maxsize q' = maxsize q /\ items q = item :: items q'
                       /\ (bounded q -> bounded q')
  | None => items q = []
  end.
Proof.
  unfold get. destruct (items q) as [|item rest] eqn:I; [reflexivity|].
  cbn. split; [reflexivity|]. split; [reflexivity|].
  unfold bounded. cbn. rewrite I. cbn [List.length]. intros B P. specialize (B P). lia.
Qed.

Section Pipeline.

Variable ndarray : Type.
Variable bytes : Type.
Variable convert : ndarray -> option bytes.

(** The chunks that the blocks of a list give, in order. *)
Definition converted (l : list ndarray) : list bytes :=
  flat_map (fun raw => match convert raw with Some c => [c] | None => [] end) l.

(** The same for the items of the raw queue, where [None] may stand. *)
Definition pending (l : list (option ndarray)) : list bytes :=
  flat_map (fun item => match item with
                        | Some raw => converted [raw]
                        | None => []
                        end) l.

(** What is still on its way: the processed chunks, then the raw blocks. *)
Definition in_flight (s : MicPipeline.t ndarray bytes) : list bytes :=
  items (audio_queue s) ++ pending (items (raw_audio_queue (handler s))).

Definition queues_bounded (s : MicPipeline.t ndarray bytes) : Prop :=
  bounded (raw_audio_queue (handler s)) /\ bounded (audio_queue s).

Definition sizes (s : MicPipeline.t ndarray bytes) : Z * Z :=
  (maxsize (raw_audio_queue (handler s)), maxsize (audio_queue s)).

Lemma converted_app (l1 l2 : list ndarray) :
  converted (l1 ++ l2) = converted l1 ++ converted l2.
Proof. apply flat_map_app. Qed.

Lemma pending_app (l1 l2 : list (option ndarray)) :
  pending (l1 ++ l2) = pending l1 ++ pending l2.
Proof. apply flat_map_app. Qed.

Lemma subsequence_app_r {A : Type} (l m : list A) : subsequence l (l ++ m).
Proof.
  rewrite <- (app_nil_r l) at 1.
  apply subsequence_app; [apply subsequence_refl | apply subsequence_nil_l].
Qed.

Lemma captured_spec (indata : ndarray) (status : callback_flags)
    (s : MicPipeline.t ndarray bytes) :
  let s' := captured indata status s in
  sizes s' = sizes s
  /\ (queues_bounded s -> queues_bounded s')
  /\ subsequence (in_flight s') (in_flight s ++ converted [indata]).
Proof.
  cbv zeta. unfold captured, audio_callback.
  destruct (capture_active_flag (handler s)); cbn [negb].
  - pose proof (put_nowait_spec (Some indata) (raw_audio_queue (handler s))) as P.
    destruct (put_nowait (Some indata) (raw_audio_queue (handler s))) as [q|].
    + destruct P as (P1 & P2 & P3).
      unfold sizes, queues_bounded, in_flight. cbn [fst set_handler handler
        raw_audio_queue audio_queue]. rewrite P1, P2, pending_app.
      split; [reflexivity|]. split; [intros (A & B); split; auto|].
      cbn [pending flat_map]. rewrite !app_nil_r, app_assoc.
      apply subsequence_refl.
    + cbn [fst]. split; [reflexivity|]. split; [destruct s; auto|].
      destruct s as [h a st sh]. apply subsequence_app_r.
  - cbn [fst]. destruct s as [h a st sh].
    split; [reflexivity|]. split; [auto|]. apply subsequence_app_r.
Qed.

Lemma resample_iteration_spec (s : MicPipeline.t ndarray bytes) :
  let s' := fst (resample_iteration convert s) in
  sizes s' = sizes s
  /\ (queues_bounded s -> queues_bounded s')
  /\ subsequence (in_flight s') (in_flight s).
Proof.
  cbv zeta. unfold resample_iteration.
  pose proof (get_spec (raw_audio_queue (handler s))) as G.
  destruct (get (raw_audio_queue (handler s))) as [[[raw|] q]|].
  - destruct G as (G1 & G2 & G3).
    assert (F : in_flight s
                = items (audio_queue s) ++ converted [raw] ++ pending (items q)).
    { unfold in_flight. rewrite G2. reflexivity. }
    rewrite F. clear F.
    unfold converted. cbn [flat_map]. rewrite app_nil_r.
    destruct (convert raw) as [final|].
    + pose proof (put_nowait_spec final (audio_queue s)) as P.
      change (audio_queue (set_raw_audio_queue q s)) with (audio_queue s).
      destruct (put_nowait final (audio_queue s)) as [q2|].
      * destruct P as (P1 & P2 & P3).
        unfold sizes, queues_bounded, in_flight.
        cbn [fst set_audio_queue set_raw_audio_queue set_handler handler
             raw_audio_queue audio_queue].
        rewrite G1, P1, P2.
        split; [reflexivity|]. split; [intros (A & B); split; auto|].
        rewrite <- app_assoc. apply subsequence_refl.
      * unfold sizes, queues_bounded, in_flight.
        cbn [fst set_raw_audio_queue set_handler handler raw_audio_queue audio_queue].
        rewrite G1.
        split; [reflexivity|]. split; [intros (A & B); split; auto|].
        apply (subsequence_drop_middle (items (audio_queue s)) [final]
                 (pending (items q))).
    + unfold sizes, queues_bounded, in_flight.
      cbn [fst set_raw_audio_queue set_handler handler raw_audio_queue audio_queue app].
      rewrite G1.
      split; [reflexivity|]. split; [intros (A & B); split; auto|].
      apply subsequence_refl.
  - destruct G as (G1 & G2 & G3).
    unfold sizes, queues_bounded, in_flight.
    cbn [fst set_raw_audio_queue set_handler handler raw_audio_queue audio_queue].
    rewrite G1, G2.
    split; [reflexivity|]. split; [intros (A & B); split; auto|].
    apply subsequence_refl.
  - cbn [fst]. split; [reflexivity|]. split; [auto|]. apply subsequence_refl.
Qed.

Lemma get_mono_chunk_spec (s : MicPipeline.t ndarray bytes) :
  let r := get_mono_chunk s in
  sizes (snd r) = sizes s
  /\ (queues_bounded s -> queues_bounded (snd r))
  /\ match fst r with Some c => [c] | None => [] end ++ in_flight (snd r)
     = in_flight s.
Proof.
  cbv zeta. unfold get_mono_chunk.
  destruct (negb (is_running_or_has_data_for_test s)).
  { cbn. split; [reflexivity|]. split; [auto|]. reflexivity. }
  pose proof (get_spec (audio_queue s)) as G.
  destruct (get (audio_queue s)) as [[chunk q]|].
  - destruct G as (G1 & G2 & G3).
    unfold sizes, queues_bounded, in_flight.
    cbn [fst snd set_audio_queue handler raw_audio_queue audio_queue].
    rewrite G1, G2.
    split; [reflexivity|]. split; [intros (A & B); split; auto|]. reflexivity.
  - cbn. split; [reflexivity|]. split; [auto|]. reflexivity.
Qed.

Lemma pipeline_step_spec (ev : event ndarray) (s : MicPipeline.t ndarray bytes) :
  let r := step convert ev s in
  sizes (fst r) = sizes s
  /\ (queues_bounded s -> queues_bounded (fst r))
  /\ subsequence (snd r ++ in_flight (fst r))
       (in_flight s ++ converted (blocks [ev])).
Proof.
  destruct ev as [indata status| | |b]; cbn [step blocks flat_map fst snd app].
  - apply captured_spec.
  - change (converted []) with (@nil bytes). rewrite app_nil_r.
    apply resample_iteration_spec.
  - change (converted []) with (@nil bytes). rewrite app_nil_r.
    pose proof (get_mono_chunk_spec s) as G. cbv zeta in G.
    destruct (get_mono_chunk s) as [chunk s1]. cbn [fst snd] in *.
    destruct G as (G1 & G2 & G3).
    split; [exact G1|]. split; [exact G2|]. rewrite G3. apply subsequence_refl.
  - change (converted []) with (@nil bytes). rewrite app_nil_r.
    destruct s as [[f q] a st sh]. cbn.
    split; [reflexivity|]. split; [auto|]. apply subsequence_refl.
Qed.

Lemma pipeline_run_spec (evs : list (event ndarray)) (s : MicPipeline.t ndarray bytes) :
  let r := run convert evs s in
  sizes (fst r) = sizes s
  /\ (queues_bounded s -> queues_bounded (fst r))
  /\ subsequence (snd r ++ in_flight (fst r))
       (in_flight s ++ converted (blocks evs)).
Proof.
  revert s. induction evs as [|ev rest IH]; intros s; cbn [run].
  - cbn. split; [reflexivity|]. split; [auto|]. rewrite app_nil_r.
    apply subsequence_refl.
  - pose proof (pipeline_step_spec ev s) as A. cbv zeta in A.
    destruct (step convert ev s) as [s1 out1]. cbn [fst snd] in A.
    destruct A as (A1 & A2 & A3).
    pose proof (IH s1) as B. cbv zeta in B.
    destruct (run convert rest s1) as [s2 out2]. cbn [fst snd] in *.
    destruct B as (B1 & B2 & B3).
    split; [congruence|]. split; [auto|].
    change (ev :: rest) with ([ev] ++ rest).
    unfold blocks in *. rewrite flat_map_app.
    fold (blocks [ev]). fold (blocks rest).
    rewrite converted_app, <- app_assoc.
    eapply subsequence_trans.
    + apply subsequence_app; [apply subsequence_refl | exact B3].
    + rewrite !app_assoc. apply subsequence_app; [|apply subsequence_refl].
      exact A3.
Qed.

(** X16. Between the capture callback and [get_mono_chunk] nothing is
    reordered or duplicated: after any sequence of captured blocks,
    iterations of the processing thread and calls of [get_mono_chunk], the
    chunks handed out so far, followed by those still in [audio_queue] and
    by the conversions of the blocks still in [_raw_audio_queue], are the
    conversions of the captured blocks, in capture order, with some left
    out (a full queue, a failed conversion, capture not active).  Both
    queues keep the size given to the constructor and, when it is positive,
    never hold more items than it. *)
Theorem chunks_delivered_in_capture_order (queue_size raw_queue_size : Z)
    (evs : list (event ndarray)) :
  let r := run convert evs (MicPipeline.init ndarray bytes queue_size raw_queue_size) in
  subsequence (snd r ++ in_flight (fst r)) (converted (blocks evs))
  /\ maxsize (raw_audio_queue (handler (fst r))) = raw_queue_size
  /\ maxsize (audio_queue (fst r)) = queue_size
  /\ ((0 < raw_queue_size)%Z ->
      (Z.of_nat (List.length (items (raw_audio_queue (handler (fst r)))))
       <= raw_queue_size)%Z)
  /\ ((0 < queue_size)%Z ->
      (Z.of_nat (List.length (items (audio_queue (fst r)))) <= queue_size)%Z).
Proof.
  intros r.
  destruct (pipeline_run_spec evs (MicPipeline.init ndarray bytes queue_size raw_queue_size))
    as (A & B & C).
  fold r in A, B, C. unfold sizes in A. cbn in A. injection A as A1 A2.
  split; [exact C|]. split; [exact A1|]. split; [exact A2|].
  assert (Q : queues_bounded (MicPipeline.init ndarray bytes queue_size raw_queue_size)).
  { split; intros P; cbn in *; lia. }
  destruct (B Q) as (B1 & B2). unfold bounded in B1, B2. rewrite A1 in B1. rewrite A2 in B2.
  split; assumption.
Qed.

End Pipeline.

(** *** The sample rate of the capture *)

Lemma mem_In (x : Z) (l : list Z) : existsb (Z.eqb x) l = true <-> In x l.
Proof.
  rewrite existsb_exists. split.
  - intros (y & I & E). apply Z.eqb_eq in E. subst y. exact I.
  - intros I. exists x. split; [exact I | apply Z.eqb_refl].
Qed.

Lemma append_if_new (x : Z) (l : list Z) :
  let l' := if negb (existsb (Z.eqb x) l) then l ++ [x] else l in
  (NoDup l -> NoDup l')
  /\ In x l'
  /\ (forall y, In y l -> In y l')
  /\ (forall y, In y l' -> In y l \/ y = x)
  /\ (l <> [] -> hd_error l' = hd_error l).
Proof.
  cbv zeta. destruct (existsb (Z.eqb x) l) eqn:M; cbn [negb].
  - apply mem_In in M. repeat split; auto.
  - assert (N : ~ In x l) by (rewrite <- mem_In, M; discriminate).
    split; [|split; [|split; [|split]]].
    + intros D. apply NoDup_app; [exact D | repeat constructor; intros [] |].
      intros a Ia [<-|[]]. contradiction.
    + apply in_or_app. right. left. reflexivity.
    + intros y I. apply in_or_app. left. exact I.
    + intros y I. apply in_app_or in I. destruct I as [I|[<-|[]]]; auto.
    + destruct l; [contradiction | reflexivity].
Qed.

Lemma find_first {A : Type} (f : A -> bool) (l : list A) :
  match find f l with
  | Some x =>
      f x = true
      /\ exists before after,
           l = before ++ x :: after /\ forall b, In b before -> f b = false
  | None => forall x, In x l -> f x = false
  end.
Proof.
  induction l as [|a l IH]; cbn [find]; [intros x []|].
  destruct (f a) eqn:F.
  - split; [exact F|]. exists [], l. split; [reflexivity | intros b []].
  - destruct (find f l) as [x|].
    + destruct IH as (Fx & before & after & -> & B).
      split; [exact Fx|]. exists (a :: before), after. split; [reflexivity|].
      intros b [<-|I]; auto.
    + intros x [<-|I]; auto.
Qed.

(** The list before the device default and the common rates are added. *)
Lemma preferred_then_target (preferred : option Z) (target dev_default : Z) :
  exists o2,
    sr_options_to_try preferred target dev_default
    = (let o3 := if negb (existsb (Z.eqb dev_default) o2)
                 then o2 ++ [dev_default] else o2 in
       let o4 := if negb (existsb (Z.eqb 48000%Z) o3) then o3 ++ [48000%Z] else o3 in
       if negb (existsb (Z.eqb 44100%Z) o4) then o4 ++ [44100%Z] else o4)
    /\ NoDup o2
    /\ In target o2
    /\ o2 <> []
    /\ (forall y, In y o2 -> y = target \/ preferred = Some y)
    /\ (forall p, preferred = Some p -> p <> 0%Z -> hd_error o2 = Some p)
    /\ (preferred = None \/ preferred = Some 0%Z -> hd_error o2 = Some target).
Proof.
  unfold sr_options_to_try.
  destruct preferred as [p|].
  - destruct (Z.eqb p 0) eqn:Z0; cbn [negb andb existsb orb].
    + apply Z.eqb_eq in Z0. subst p.
      exists [target]. cbn [app].
      split; [reflexivity|]. split; [repeat constructor; intros []|].
      split; [left; reflexivity|]. split; [discriminate|].
      split; [intros y [<-|[]]; left; reflexivity|].
      split; [intros p [= <-] N; contradiction | reflexivity].
    + apply Z.eqb_neq in Z0. rewrite orb_false_r.
      destruct (Z.eqb target p) eqn:T.
      * apply Z.eqb_eq in T. subst p. cbn [negb].
        exists [target].
        split; [reflexivity|]. split; [repeat constructor; intros []|].
        split; [left; reflexivity|]. split; [discriminate|].
        split; [intros y [<-|[]]; left; reflexivity|].
        split; [intros p [= <-] _; reflexivity|].
        intros [H|H]; [discriminate | congruence].
      * cbn [negb]. rewrite Z.eqb_sym, T. cbn [negb firstn skipn app].
        apply Z.eqb_neq in T.
        exists [p; target].
        split; [reflexivity|].
        split; [repeat constructor; cbn; intuition congruence|].
        split; [right; left; reflexivity|]. split; [discriminate|].
        split; [intros y [<-|[<-|[]]]; auto|].
        split; [intros q [= <-] _; reflexivity|].
        intros [H|H]; [discriminate | congruence].
  - cbn [negb andb existsb orb app].
    exists [target].
    split; [reflexivity|]. split; [repeat constructor; intros []|].
    split; [left; reflexivity|]. split; [discriminate|].
    split; [intros y [<-|[]]; left; reflexivity|].
    split; [intros p H; discriminate | reflexivity].
Qed.

(** X17. The sample rates tried for the capture hold no rate twice; they
    always include the target rate, the default rate of the device, 48000
    and 44100, and nothing but these and the preferred rate.  The preferred
    rate comes first when there is one (not zero), the target rate
    otherwise.  The rate chosen is the first one of the list that the device
    supports; when it supports none, it is the default rate of the
    device. *)
Theorem capture_rate_selection (check_sr_support : Z -> bool)
    (preferred : option Z) (target dev_default : Z) :
  let options := sr_options_to_try preferred target dev_default in
  let sr := actual_capture_sr check_sr_support preferred target dev_default in
  NoDup options
  /\ (In target options /\ In dev_default options
      /\ In 48000%Z options /\ In 44100%Z options)
  /\ (forall y, In y options ->
        preferred = Some y \/ y = target \/ y = dev_default
        \/ y = 48000%Z \/ y = 44100%Z)
  /\ (forall p, preferred = Some p -> p <> 0%Z -> hd_error options = Some p)
  /\ (preferred = None \/ preferred = Some 0%Z -> hd_error options = Some target)
  /\ In sr options
  /\ (check_sr_support sr = true ->
      exists before after,
        options = before ++ sr :: after
        /\ forall b, In b before -> check_sr_support b = false)
  /\ (check_sr_support sr = false ->
      sr = dev_default /\ forall o, In o options -> check_sr_support o = false).
Proof.
  cbv zeta.
  destruct (preferred_then_target preferred target dev_default)
    as (o2 & E & N2 & T2 & NE & From & Hp & Ht).
  cbv zeta in E.
  destruct (append_if_new dev_default o2) as (A1 & A2 & A3 & A4 & A5). cbv zeta in *.
  set (o3 := if negb (existsb (Z.eqb dev_default) o2) then o2 ++ [dev_default] else o2)
    in *.
  destruct (append_if_new 48000%Z o3) as (B1 & B2 & B3 & B4 & B5). cbv zeta in *.
  set (o4 := if negb (existsb (Z.eqb 48000%Z) o3) then o3 ++ [48000%Z] else o3) in *.
  destruct (append_if_new 44100%Z o4) as (C1 & C2 & C3 & C4 & C5). cbv zeta in *.
  set (o5 := if negb (existsb (Z.eqb 44100%Z) o4) then o4 ++ [44100%Z] else o4) in *.
  assert (NE3 : o3 <> []) by (intros X; apply (in_nil (a := target)); rewrite <- X; auto).
  assert (NE4 : o4 <> []) by (intros X; apply (in_nil (a := target)); rewrite <- X; auto).
  assert (H5 : hd_error o5 = hd_error o2).
  { rewrite (C5 NE4), (B5 NE3), (A5 NE). reflexivity. }
  assert (D : In dev_default o5) by auto.
  unfold actual_capture_sr. rewrite E. clear E.
  split; [auto|]. split; [repeat split; auto|]. split.
  { intros y I. apply C4 in I. destruct I as [I|I]; [|auto].
    apply B4 in I. destruct I as [I|I]; [|auto].
    apply A4 in I. destruct I as [I|I]; [|auto].
    apply From in I. destruct I; auto. }
  split; [intros p P NZ; rewrite H5; auto|].
  split; [intros P; rewrite H5; auto|].
  pose proof (find_first check_sr_support o5) as F.
  destruct (find check_sr_support o5) as [sr|].
  - destruct F as (Fs & before & after & Eo & Fb).
    split; [rewrite Eo; apply in_or_app; right; left; reflexivity|].
    split; [intros _; eauto | congruence].
  - split; [exact D|]. split; [intros S; rewrite (F _ D) in S; discriminate|].
    intros _. split; [reflexivity | exact F].
Qed.

End MicrophoneIntake.

(** ** Speech recognition *)

(** ** [str.strip] *)

Module StripFacts.

Import Re.

(** No white space at the start. *)
Definition headed (s : str) : Prop :=
  match s with
  | [] => True
  | c :: _ => isspace c = false
  end.

(** No white space at the end. *)
Definition ended (s : str) : Prop := headed (rev s).

Lemma lstrip_headed (s : str) : headed (lstrip s).
Proof.
  induction s as [|c t IH]; cbn; [exact I|].
  destruct (isspace c) eqn:E; [exact IH | cbn; exact E].
Qed.

Lemma lstrip_of_headed (s : str) : headed s -> lstrip s = s.
Proof. destruct s as [|c t]; cbn; [reflexivity|]. intros ->. reflexivity. Qed.

Lemma rstrip_snoc (l : str) (c : char) :
  rstrip (l ++ [c]) = if isspace c then rstrip l else l ++ [c].
Proof.
  unfold rstrip. rewrite rev_app_distr. cbn.
  destruct (isspace c); [reflexivity|].
  cbn. rewrite rev_involutive. reflexivity.
Qed.

Lemma rstrip_ended (s : str) : ended (rstrip s).
Proof. unfold ended, rstrip. rewrite rev_involutive. apply lstrip_headed. Qed.

Lemma rstrip_of_ended (s : str) : ended s -> rstrip s = s.
Proof.
  unfold ended, rstrip. intros H. rewrite (lstrip_of_headed _ H).
  apply rev_involutive.
Qed.

Lemma headed_prefix (l : str) (c : char) : headed (l ++ [c]) -> headed l.
Proof. destruct l; cbn; auto. Qed.

Lemma rstrip_headed (s : str) : headed s -> headed (rstrip s).
Proof.
  induction s as [|c l IH] using rev_ind; intros H; [exact I|].
  rewrite rstrip_snoc. destruct (isspace c); [|exact H].
  apply IH. eapply headed_prefix. exact H.
Qed.

Lemma strip_headed (s : str) : headed (strip s).
Proof. apply rstrip_headed, lstrip_headed. Qed.

Lemma strip_ended (s : str) : ended (strip s).
Proof. apply rstrip_ended. Qed.

Lemma strip_of_trimmed (s : str) : headed s -> ended s -> strip s = s.
Proof.
  intros H E. unfold strip. rewrite (lstrip_of_headed _ H). apply rstrip_of_ended, E.
Qed.

Lemma strip_strip (s : str) : strip (strip s) = strip s.
Proof. apply strip_of_trimmed; [apply strip_headed | apply strip_ended]. Qed.

End StripFacts.

Module RecognitionResults.

Import Re AudioProcessor StripFacts.

Lemma str_eqb_eq (a b : str) : str_eqb a b = true <-> a = b.
Proof.
  revert b. induction a as [|c a IH]; intros [|d b]; cbn; split;
    try discriminate; try reflexivity.
  - intros H. apply andb_true_iff in H. destruct H as (H1 & H2).
    apply N.eqb_eq in H1. apply IH in H2. congruence.
  - intros [= -> ->]. rewrite N.eqb_refl. cbn. apply IH. reflexivity.
Qed.

Lemma str_eqb_refl (a : str) : str_eqb a a = true.
Proof. apply str_eqb_eq. reflexivity. Qed.

(** The condition under which a partial result is sent is that it differs
    from the one sent last. *)
Lemma partial_condition (current last : str) :
  (nonempty current && negb (str_eqb current last))
  || (negb (nonempty current) && nonempty last)
  = negb (str_eqb current last).
Proof.
  destruct current as [|c current]; destruct last as [|d last]; cbn [nonempty negb andb];
    try reflexivity.
  rewrite orb_false_r. reflexivity.
Qed.

(** The texts of a list that differ from the one before them, [last]
    standing before the first. *)
Fixpoint changes (last : str) (texts : list str) : list str :=
  match texts with
  | [] => []
  | text :: rest =>
      if str_eqb text last then changes last rest
      else text :: changes text rest
  end.

Lemma last_cons {B : Type} (x : B) (l : list B) (d : B) : last (x :: l) d = last l x.
Proof.
  revert x d. induction l as [|y l IH]; intros x d; [reflexivity|].
  change (last (x :: y :: l) d) with (last (y :: l) d).
  rewrite (IH y d), (IH y x). reflexivity.
Qed.

Section Chunks.

Variable A : Type.
Variable final_text_segment_callback : callback A.
Variable partial_text_callback : callback A.

(** [process_chunk] on the chunks of a list, one after the other. *)
Fixpoint process_chunks (chunks : list (bytes * answers)) (s : AudioProcessor.t)
  : AudioProcessor.t * list A :=
  match chunks with
  | [] => (s, [])
  | (chunk, a) :: rest =>
      let (s1, out1) :=
        process_chunk final_text_segment_callback partial_text_callback chunk a s in
      let (s2, out2) := process_chunks rest s1 in
      (s2, out1 ++ out2)
  end.

(** A chunk that holds audio and does not end a segment. *)
Definition inside_segment (c : bytes * answers) : Prop :=
  nonempty (fst c) = true /\ process_audio_chunk (fst c) (snd c) = false.

Lemma send_partial_spec (a : answers) (s : AudioProcessor.t) :
  has_partial_text_callback s = true ->
  (forall text, fst (partial_text_callback text) = true) ->
  let r := send_partial partial_text_callback a s in
  fst r = set_last_sent_partial (get_partial_result a) s
  /\ snd r = flat_map (fun text => snd (partial_text_callback text))
               (changes (last_sent_partial s) [get_partial_result a]).
Proof.
  intros P R. cbv zeta. unfold send_partial. rewrite P, partial_condition.
  cbn [changes].
  destruct (str_eqb (get_partial_result a) (last_sent_partial s)) eqn:E; cbn [negb].
  - apply str_eqb_eq in E. split; [|reflexivity].
    rewrite E. destruct s; reflexivity.
  - assert (S : (if nonempty (get_partial_result a) then get_partial_result a else [])
                = get_partial_result a)
      by (destruct (get_partial_result a); reflexivity).
    rewrite S. specialize (R (get_partial_result a)).
    cbn [flat_map]. rewrite app_nil_r.
    destruct (partial_text_callback (get_partial_result a)) as [returned done].
    cbn in R. subst returned. split; reflexivity.
Qed.

(** X18. Inside a segment (chunks that hold audio and for which
    [AcceptWaveform] is false), with a partial-text callback that returns
    normally, the callback is called with exactly the partial results of
    the recognizer that differ from the one sent before them, in order and
    once each (a cleared partial is sent as the empty text); the partial
    remembered at the end is the last one the recognizer gave. *)
Theorem partials_follow_the_recogniser
    (chunks : list (bytes * answers)) (s : AudioProcessor.t) :
  vosk_helper s = true ->
  has_partial_text_callback s = true ->
  (forall text, fst (partial_text_callback text) = true) ->
  Forall inside_segment chunks ->
  let partials := map (fun c => get_partial_result (snd c)) chunks in
  let r := process_chunks chunks s in
  last_sent_partial (fst r) = last partials (last_sent_partial s)
  /\ snd r = flat_map (fun text => snd (partial_text_callback text))
               (changes (last_sent_partial s) partials).
Proof.
  intros V P R F. cbv zeta. revert s V P.
  induction F as [|[chunk a] rest (N & NF) F IH]; intros s V P; cbn [process_chunks map].
  - split; reflexivity.
  - cbn [fst snd] in N, NF.
    unfold process_chunk. rewrite V, N, NF. cbn [negb].
    destruct (send_partial_spec a s P R) as (E1 & E2).
    destruct (send_partial partial_text_callback a s) as [s1 out1].
    cbn [fst snd] in E1, E2. subst s1.
    destruct (IH (set_last_sent_partial (get_partial_result a) s) V P) as (I1 & I2).
    destruct (process_chunks rest _) as [s2 out2]. cbn [fst snd] in *.
    cbn [last_sent_partial set_last_sent_partial] in I1, I2.
    split.
    + rewrite I1, last_cons. reflexivity.
    + rewrite E2, I2. cbn [changes flat_map].
      destruct (str_eqb (get_partial_result a) (last_sent_partial s)) eqn:E.
      * apply str_eqb_eq in E. rewrite E. reflexivity.
      * cbn [flat_map]. rewrite app_nil_r. reflexivity.
Qed.

End Chunks.

Lemma partials_follow_the_recogniser_witness :
  let heard := fun text : str => (true, [text]) in
  let hears := fun text : str =>
                 {| AcceptWaveform := Some false; PartialResult := Some text;
                    Result := None |} in
  let chunks := [([Byte.x01], hears [104%N]); ([Byte.x02], hears [104%N]);
                 ([Byte.x03], hears [104%N; 105%N])] in
  Forall inside_segment chunks
  /\ snd (process_chunks heard heard chunks (AudioProcessor.init true true))
     = [[104%N]; [104%N; 105%N]].
Proof.
  cbv zeta.
  assert (F : Forall inside_segment
                [([Byte.x01], {| AcceptWaveform := Some false;
                                 PartialResult := Some [104%N]; Result := None |});
                 ([Byte.x02], {| AcceptWaveform := Some false;
                                 PartialResult := Some [104%N]; Result := None |});
                 ([Byte.x03], {| AcceptWaveform := Some false;
                                 PartialResult := Some [104%N; 105%N];
                                 Result := None |})]).
  { repeat constructor. }
  split; [exact F|].
  exact (proj2 (@partials_follow_the_recogniser str
                  (fun text : str => (true, [text])) (fun text : str => (true, [text]))
                  _ (AudioProcessor.init true true) eq_refl eq_refl
                  (fun _ => eq_refl) F)).
Defined.

End RecognitionResults.

Module RecognitionSystem.

Import Re AudioProcessor SpeechToTextSystem StripFacts.
Local Open Scope string_scope.

(** *** Calls made through the audio processor *)

Section Through.

Variable P : call -> Prop.
Hypothesis P_partial :
  forall text, strip text = text -> P (external_partial_text_callback text).
Hypothesis P_final :
  forall text, text <> [] -> strip text = text -> P (external_text_callback text).

Lemma stripped_field_trimmed (field : option str) :
  strip (stripped_field field) = stripped_field field.
Proof. destruct field; [apply strip_strip | reflexivity]. Qed.

Lemma internal_text_callback_calls (s : SpeechToTextSystem.t) (text : str) :
  Forall P (snd (internal_text_callback s text)).
Proof.
  unfold internal_text_callback.
  destruct (negb (nonempty text)); [constructor|].
  destruct (nonempty (strip text)) eqn:N; cbn [negb]; [|constructor].
  destruct (has_external_text_callback s); repeat constructor.
  apply P_final; [|apply strip_strip].
  intros E. rewrite E in N. discriminate.
Qed.

Lemma internal_partial_text_callback_calls (s : SpeechToTextSystem.t) (text : str) :
  strip text = text ->
  Forall P (snd (internal_partial_text_callback s text)).
Proof.
  intros T. unfold internal_partial_text_callback. cbn.
  destruct (has_external_partial_text_callback s); repeat constructor.
  apply P_partial, T.
Qed.

Lemma finalize_calls (final_result : option str) (s : SpeechToTextSystem.t) :
  Forall P (snd (finalize final_result s)).
Proof.
  unfold finalize. destruct (audio_processor s) as [p|]; [|constructor].
  unfold finalize_recognition.
  destruct (negb (vosk_helper p)); [constructor|]. cbn.
  destruct (has_final_text_segment_callback p); [|constructor].
  destruct (nonempty _); [apply internal_text_callback_calls | constructor].
Qed.

Lemma process_calls (chunk : bytes) (a : answers) (s : SpeechToTextSystem.t) :
  Forall P (snd (process chunk a s)).
Proof.
  unfold process. destruct (audio_processor s) as [p|]; [|constructor].
  unfold process_chunk.
  destruct (negb (vosk_helper p)); [constructor|].
  destruct (negb (nonempty chunk)); [constructor|].
  assert (S : Forall P (snd (send_partial (internal_partial_text_callback s) a p))).
  { unfold send_partial. destruct (has_partial_text_callback p); [|constructor].
    destruct (_ || _); [|constructor].
    assert (T : strip (if nonempty (get_partial_result a)
                       then get_partial_result a else [])
                = (if nonempty (get_partial_result a)
                   then get_partial_result a else [])).
    { destruct (nonempty (get_partial_result a));
        [apply stripped_field_trimmed | reflexivity]. }
    pose proof (internal_partial_text_callback_calls s T) as H.
    destruct (internal_partial_text_callback s _) as [returned done]. exact H. }
  destruct (send_partial (internal_partial_text_callback s) a p) as [p1 out1].
  cbn [snd] in S.
  destruct (process_audio_chunk chunk a); cbn; [|exact S].
  apply Forall_app. split; [exact S|].
  destruct (_ && _); [apply internal_text_callback_calls | constructor].
Qed.

Hypothesis P_speech : forall b, P (external_speech_state_callback b).
Hypothesis P_vad : forall frame, P (vad_is_speech frame).
Hypothesis P_start : P start_capture.
Hypothesis P_stop : P stop_capture.

Lemma end_of_speech_calls (s : SpeechToTextSystem.t) : Forall P (snd (end_of_speech s)).
Proof.
  unfold end_of_speech. destruct (is_currently_speaking_vad s); [|constructor].
  cbn. destruct (has_external_speech_state_callback s); repeat constructor.
  apply P_speech.
Qed.

Lemma activate_calls (m : mic_answers) (s : SpeechToTextSystem.t) :
  Forall P (snd (activate_current_source_if_needed m s)).
Proof.
  unfold activate_current_source_if_needed.
  repeat match goal with
         | |- context [if ?c then _ else _] => destruct c
         end; repeat constructor; assumption.
Qed.

Lemma deactivate_calls (m : mic_answers) (s : SpeechToTextSystem.t) :
  Forall P (deactivate_current_source_if_needed m s).
Proof.
  unfold deactivate_current_source_if_needed.
  repeat match goal with
         | |- context [if ?c then _ else _] => destruct c
         end; repeat constructor; assumption.
Qed.

Lemma vad_frames_calls (fuel : nat) (speech : bytes -> option bool)
    (s : SpeechToTextSystem.t) :
  Forall P (snd (vad_frames fuel speech s)).
Proof.
  revert s. induction fuel as [|fuel IH]; intros s; cbn [vad_frames]; [constructor|].
  destruct (_ <=? _)%Z; [|constructor].
  set (s1 := set_vad_buffer _ s).
  destruct (speech _) as [is_speech|].
  - destruct (negb (Bool.eqb is_speech (is_currently_speaking_vad s1))).
    + specialize (IH (set_speaking is_speech s1)).
      destruct (vad_frames fuel speech (set_speaking is_speech s1)) as [s3 rest].
      cbn [snd] in *. constructor; [apply P_vad|].
      apply Forall_app. split; [|exact IH].
      destruct (has_external_speech_state_callback s1); repeat constructor.
      apply P_speech.
    + specialize (IH s1). destruct (vad_frames fuel speech s1) as [s3 rest].
      cbn [snd] in *. constructor; [apply P_vad | exact IH].
  - specialize (IH s1). destruct (vad_frames fuel speech s1) as [s3 rest].
    cbn [snd] in *. constructor; [apply P_vad | exact IH].
Qed.

Lemma set_audio_source_calls (name : string) (m_old m_new : mic_answers)
    (final_result : option str) (s : SpeechToTextSystem.t) :
  Forall P (snd (set_audio_source name m_old m_new final_result s)).
Proof.
  unfold set_audio_source.
  destruct (negb _); [constructor|].
  destruct (String.eqb name (active_source s)); [constructor|].
  destruct (negb _); [constructor|]. cbv zeta.
  pose proof (end_of_speech_calls (set_vad_buffer [] s)) as E.
  destruct (end_of_speech (set_vad_buffer [] s)) as [s2 out2].
  pose proof (finalize_calls final_result s2) as F.
  destruct (finalize final_result s2) as [s3 out3].
  set (s5 := set_active_source name _).
  pose proof (activate_calls m_new s5) as A.
  destruct (if is_running s && negb (String.eqb (active_source s5) "none")
            then activate_current_source_if_needed m_new s5 else (true, []))
    as [activated_ok out4] eqn:Act.
  assert (A4 : Forall P out4).
  { destruct (is_running s && negb (String.eqb (active_source s5) "none")).
    - rewrite Act in A. exact A.
    - injection Act as _ <-. constructor. }
  cbn [snd]. repeat (apply Forall_app; split); try assumption.
  destruct (is_running s); [apply deactivate_calls | constructor].
Qed.

Lemma stt_loop_iteration_calls (w : loop_answers) (s : SpeechToTextSystem.t) :
  Forall P (snd (stt_loop_iteration w s)).
Proof.
  unfold stt_loop_iteration. destruct (fetch w s) as [chunk|]; [|constructor].
  assert (B : Forall P
                (snd (match chunk with
                      | Some chunk =>
                          let (sa, outa) := process chunk (recognizer w) s in
                          if vad sa && (0 <? vad_frame_bytes sa)%Z then
                            let sb := set_vad_buffer (vad_buffer sa ++ chunk)%list sa in
                            let (sc, outc) :=
                              vad_frames (S (List.length (vad_buffer sb)))
                                (is_speech w) sb in
                            (sc, (outa ++ outc)%list)
                          else (sa, outa)
                      | None => (s, [])
                      end))).
  { destruct chunk as [chunk|]; [|constructor].
    pose proof (process_calls chunk (recognizer w) s) as A.
    destruct (process chunk (recognizer w) s) as [sa outa]. cbn [snd] in A.
    destruct (vad sa && (0 <? vad_frame_bytes sa)%Z); [|exact A]. cbv zeta.
    pose proof (vad_frames_calls
                  (S (List.length (vad_buffer
                                     (set_vad_buffer (vad_buffer sa ++ chunk)%list sa))))
                  (is_speech w) (set_vad_buffer (vad_buffer sa ++ chunk)%list sa)) as V.
    destruct (vad_frames _ _ _) as [sc outc]. cbn [snd] in *.
    apply Forall_app. split; assumption. }
  destruct (match chunk with Some _ => _ | None => _ end) as [s1 out1].
  cbn [snd] in B.
  destruct (_ && negb _); [|exact B].
  destruct (_ || _); [|exact B].
  pose proof (finalize_calls (FinalResult w) s1) as F.
  destruct (finalize (FinalResult w) s1) as [s2 out2].
  pose proof (end_of_speech_calls s2) as E.
  destruct (end_of_speech s2) as [s3 out3]. cbn [snd] in *.
  repeat (apply Forall_app; split); assumption.
Qed.

Lemma stt_loop_exit_calls (final_result : option str) (s : SpeechToTextSystem.t) :
  Forall P (snd (stt_loop_exit final_result s)).
Proof.
  unfold stt_loop_exit.
  pose proof (finalize_calls final_result s) as F.
  destruct (finalize final_result s) as [s1 out1].
  pose proof (end_of_speech_calls s1) as E.
  destruct (end_of_speech s1) as [s2 out2]. cbn [snd] in *.
  apply Forall_app. split; assumption.
Qed.

Lemma step_calls (ev : event) (s : SpeechToTextSystem.t) : Forall P (snd (step ev s)).
Proof.
  destruct ev as [name m_old m_new f|m|m f1 f2|w]; cbn [step].
  - apply set_audio_source_calls.
  - unfold start. destruct (is_running s); [constructor|].
    destruct (audio_processor s); [|constructor].
    pose proof (activate_calls m s) as A.
    destruct (negb (String.eqb (active_source s) "none")).
    + destruct (activate_current_source_if_needed m s) as [ok out].
      destruct ok; exact A.
    + constructor.
  - unfold stop. destruct (negb (is_running s)); [constructor|]. cbv zeta.
    set (s1 := set_running false true (processing_thread s) s).
    assert (X : Forall P
                  (snd (if processing_thread s1
                        then stt_loop_exit f1 s1 else (s1, [])))).
    { destruct (processing_thread s1); [apply stt_loop_exit_calls | constructor]. }
    destruct (if processing_thread s1 then stt_loop_exit f1 s1 else (s1, []))
      as [s2 out2].
    pose proof (finalize_calls f2 (set_running false true false s2)) as F.
    destruct (finalize f2 (set_running false true false s2)) as [s4 out4].
    cbn [snd] in *.
    repeat (apply Forall_app; split); try assumption. apply deactivate_calls.
  - destruct (_ && _); [apply stt_loop_iteration_calls | constructor].
Qed.

Lemma run_calls (evs : list event) (s : SpeechToTextSystem.t) :
  Forall P (snd (run evs s)).
Proof.
  revert s. induction evs as [|ev rest IH]; intros s; cbn [run]; [constructor|].
  pose proof (step_calls ev s) as A. destruct (step ev s) as [s1 out1].
  specialize (IH s1). destruct (run rest s1) as [s2 out2]. cbn [snd] in *.
  apply Forall_app. split; assumption.
Qed.

End Through.

(** X19. Whatever the recognizer, the VAD and the microphone answer, and
    in whatever order the system is started, stopped, switched to another
    source and its loop runs: a text given to the callback for final texts
    is not empty and has no white space at its start or end, and a text
    given to the callback for partial texts has no white space at its start
    or end (it may be empty). *)
Theorem texts_are_trimmed_and_finals_not_empty
    (evs : list event) (s : SpeechToTextSystem.t) (text : str) :
  (In (external_text_callback text) (snd (run evs s)) ->
   text <> [] /\ strip text = text /\ headed text /\ ended text)
  /\ (In (external_partial_text_callback text) (snd (run evs s)) ->
      strip text = text).
Proof.
  pose proof (@run_calls
                (fun c => match c with
                          | external_text_callback t =>
                              t <> [] /\ strip t = t /\ headed t /\ ended t
                          | external_partial_text_callback t => strip t = t
                          | _ => True
                          end)) as R.
  assert (G : Forall (fun c => match c with
                               | external_text_callback t =>
                                   t <> [] /\ strip t = t /\ headed t /\ ended t
                               | external_partial_text_callback t => strip t = t
                               | _ => True
                               end) (snd (run evs s))).
  { apply R; auto.
    intros t N T. split; [exact N|]. split; [exact T|]. rewrite <- T.
    split; [apply strip_headed | apply strip_ended]. }
  rewrite Forall_forall in G.
  split; intros H; exact (G _ H).
Qed.

End RecognitionSystem.

Module VoiceActivity.

Import Re AudioProcessor SpeechToTextSystem.

(** The values given to the speech-state callback, in order. *)
Definition speech_states (out : list call) : list bool :=
  flat_map (fun c => match c with
                     | external_speech_state_callback b => [b]
                     | _ => []
                     end) out.

(** Each value is the opposite of the one before it, [current] standing
    before the first. *)
Fixpoint alternates (current : bool) (l : list bool) : Prop :=
  match l with
  | [] => True
  | b :: rest => b = negb current /\ alternates b rest
  end.

Lemma alternates_app (current : bool) (l1 l2 : list bool) :
  alternates current l1 -> alternates (last l1 current) l2 ->
  alternates current (l1 ++ l2).
Proof.
  revert current. induction l1 as [|b l1 IH]; intros current; cbn [app alternates].
  - intros _ H. exact H.
  - intros (E & A) H. split; [exact E|]. apply IH; [exact A|].
    rewrite RecognitionResults.last_cons in H. exact H.
Qed.

Lemma last_app_default {B : Type} (l1 l2 : list B) (d : B) :
  last (l1 ++ l2) d = last l2 (last l1 d).
Proof.
  revert d. induction l1 as [|b l1 IH]; intros d; [reflexivity|].
  change ((b :: l1) ++ l2) with (b :: l1 ++ l2).
  rewrite !RecognitionResults.last_cons. apply IH.
Qed.

Lemma speech_states_app (l1 l2 : list call) :
  speech_states (l1 ++ l2) = speech_states l1 ++ speech_states l2.
Proof. apply flat_map_app. Qed.

(** The callback is told every change of the flag: what [out] tells takes
    the flag from its value in [s] to its value in [s']. *)
Definition tells (s s' : SpeechToTextSystem.t) (out : list call) : Prop :=
  has_external_speech_state_callback s' = has_external_speech_state_callback s
  /\ (has_external_speech_state_callback s = true ->
      alternates (is_currently_speaking_vad s) (speech_states out)
      /\ is_currently_speaking_vad s'
         = last (speech_states out) (is_currently_speaking_vad s)).

Lemma tells_silent (s s' : SpeechToTextSystem.t) (out : list call) :
  has_external_speech_state_callback s' = has_external_speech_state_callback s ->
  is_currently_speaking_vad s' = is_currently_speaking_vad s ->
  speech_states out = [] ->
  tells s s' out.
Proof.
  intros H F O. split; [exact H|]. intros _. rewrite O. cbn. auto.
Qed.

Lemma tells_trans (s1 s2 s3 : SpeechToTextSystem.t) (out1 out2 : list call) :
  tells s1 s2 out1 -> tells s2 s3 out2 -> tells s1 s3 (out1 ++ out2).
Proof.
  intros (H1 & A1) (H2 & A2). split; [congruence|]. intros C.
  destruct (A1 C) as (B1 & L1). rewrite H1 in A2. destruct (A2 C) as (B2 & L2).
  rewrite speech_states_app, last_app_default. split.
  - apply alternates_app; [exact B1|]. rewrite <- L1. exact B2.
  - rewrite L2, L1. reflexivity.
Qed.

(** [s'] has the flag and the callback of [s]. *)
Definition same_speech (s s' : SpeechToTextSystem.t) : Prop :=
  has_external_speech_state_callback s' = has_external_speech_state_callback s
  /\ is_currently_speaking_vad s' = is_currently_speaking_vad s.

Lemma tells_before (s0 s s' : SpeechToTextSystem.t) (out : list call) :
  same_speech s0 s -> tells s s' out -> tells s0 s' out.
Proof.
  intros (H & F) (H1 & A). unfold tells. rewrite <- F. split; [congruence|].
  intros C. apply A. congruence.
Qed.

Lemma tells_after (s s' s'' : SpeechToTextSystem.t) (out : list call) :
  tells s s' out -> same_speech s' s'' -> tells s s'' out.
Proof.
  intros (H1 & A) (H & F). unfold tells. rewrite H, F. split; assumption.
Qed.

Lemma tells_nothing (s s' : SpeechToTextSystem.t) : same_speech s s' -> tells s s' [].
Proof. intros (H & F). apply tells_silent; auto. Qed.

Lemma silent_calls (out : list call) :
  Forall (fun c => speech_states [c] = []) out -> speech_states out = [].
Proof.
  induction 1 as [|c l Hc Q IH]; [reflexivity|].
  change (c :: l) with ([c] ++ l). rewrite speech_states_app, Hc, IH. reflexivity.
Qed.

Lemma finalize_tells (f : option str) (s : SpeechToTextSystem.t) :
  tells s (fst (finalize f s)) (snd (finalize f s)).
Proof.
  pose proof (@RecognitionSystem.finalize_calls
                (fun c => speech_states [c] = []) (fun _ _ _ => eq_refl) f s) as Q.
  apply silent_calls in Q.
  unfold finalize in *. destruct (audio_processor s) as [p|].
  - destruct (finalize_recognition (internal_text_callback s) f p) as [p' out].
    apply tells_silent; [reflexivity | reflexivity | exact Q].
  - apply tells_silent; reflexivity.
Qed.

Lemma process_tells (chunk : bytes) (a : answers) (s : SpeechToTextSystem.t) :
  tells s (fst (process chunk a s)) (snd (process chunk a s)).
Proof.
  pose proof (@RecognitionSystem.process_calls
                (fun c => speech_states [c] = []) (fun _ _ => eq_refl)
                (fun _ _ _ => eq_refl) chunk a s) as Q.
  apply silent_calls in Q.
  unfold process in *. destruct (audio_processor s) as [p|].
  - destruct (process_chunk _ _ chunk a p) as [p' out].
    apply tells_silent; [reflexivity | reflexivity | exact Q].
  - apply tells_silent; reflexivity.
Qed.

Lemma end_of_speech_tells (s : SpeechToTextSystem.t) :
  tells s (fst (end_of_speech s)) (snd (end_of_speech s))
  /\ is_currently_speaking_vad (fst (end_of_speech s)) = false.
Proof.
  unfold end_of_speech, tells.
  destruct (is_currently_speaking_vad s) eqn:F; cbn [fst snd].
  - split; [|reflexivity]. split; [reflexivity|]. intros C.
    cbn. rewrite C. cbn. auto.
  - split; [|exact F]. split; [reflexivity|]. intros _. cbn. auto.
Qed.

Lemma vad_frames_tells (fuel : nat) (speech : bytes -> option bool)
    (s : SpeechToTextSystem.t) :
  tells s (fst (vad_frames fuel speech s)) (snd (vad_frames fuel speech s)).
Proof.
  revert s. induction fuel as [|fuel IH]; intros s; cbn [vad_frames].
  - apply tells_nothing. split; reflexivity.
  - destruct (_ <=? _)%Z; [|apply tells_nothing; split; reflexivity].
    set (s1 := set_vad_buffer _ s).
    assert (S1 : same_speech s s1) by (split; reflexivity).
    destruct (speech _) as [is_speech|].
    + destruct (Bool.eqb is_speech (is_currently_speaking_vad s1)) eqn:E; cbn [negb].
      * specialize (IH s1). destruct (vad_frames fuel speech s1) as [s3 rest].
        cbn [fst snd app] in *.
        apply (tells_before S1).
        change (vad_is_speech (firstn (Z.to_nat (vad_frame_bytes s)) (vad_buffer s))
                :: rest)
          with ([vad_is_speech (firstn (Z.to_nat (vad_frame_bytes s)) (vad_buffer s))]
                ++ rest).
        apply tells_trans with (s2 := s1); [|exact IH].
        apply tells_silent; reflexivity.
      * specialize (IH (set_speaking is_speech s1)).
        destruct (vad_frames fuel speech (set_speaking is_speech s1)) as [s3 rest].
        cbn [fst snd] in *.
        apply (tells_before S1).
        change (vad_is_speech (firstn (Z.to_nat (vad_frame_bytes s)) (vad_buffer s))
                :: (if has_external_speech_state_callback s1
                    then [external_speech_state_callback is_speech] else []) ++ rest)
          with (([vad_is_speech (firstn (Z.to_nat (vad_frame_bytes s)) (vad_buffer s))]
                 ++ (if has_external_speech_state_callback s1
                     then [external_speech_state_callback is_speech] else []))
                ++ rest).
        apply tells_trans with (s2 := set_speaking is_speech s1); [|exact IH].
        split; [reflexivity|]. intros C. rewrite C. cbn.
        apply eqb_false_iff in E.
        change (is_currently_speaking_vad s1) with (is_currently_speaking_vad s) in E.
        destruct is_speech, (is_currently_speaking_vad s);
          first [exfalso; apply E; reflexivity | repeat split].
    + specialize (IH s1). destruct (vad_frames fuel speech s1) as [s3 rest].
      cbn [fst snd app] in *.
      apply (tells_before S1).
      change (vad_is_speech (firstn (Z.to_nat (vad_frame_bytes s)) (vad_buffer s))
              :: rest)
        with ([vad_is_speech (firstn (Z.to_nat (vad_frame_bytes s)) (vad_buffer s))]
              ++ rest).
      apply tells_trans with (s2 := s1); [|exact IH].
      apply tells_silent; reflexivity.
Qed.

Lemma activate_silent (m : mic_answers) (s : SpeechToTextSystem.t) :
  speech_states (snd (activate_current_source_if_needed m s)) = [].
Proof.
  apply silent_calls.
  apply (@RecognitionSystem.activate_calls (fun c => speech_states [c] = []));
    reflexivity.
Qed.

Lemma deactivate_silent (m : mic_answers) (s : SpeechToTextSystem.t) :
  speech_states (deactivate_current_source_if_needed m s) = [].
Proof.
  apply silent_calls.
  apply (@RecognitionSystem.deactivate_calls (fun c => speech_states [c] = []));
    reflexivity.
Qed.

Lemma tells_silent_before (s s' : SpeechToTextSystem.t) (quiet out : list call) :
  speech_states quiet = [] -> tells s s' out -> tells s s' (quiet ++ out).
Proof.
  intros Q T. apply tells_trans with (s2 := s); [|exact T].
  apply tells_silent; auto.
Qed.

Lemma tells_silent_after (s s' : SpeechToTextSystem.t) (quiet out : list call) :
  speech_states quiet = [] -> tells s s' out -> tells s s' (out ++ quiet).
Proof.
  intros Q T. apply tells_trans with (s2 := s'); [exact T|].
  apply tells_silent; auto.
Qed.

Lemma stt_loop_exit_tells (f : option str) (s : SpeechToTextSystem.t) :
  tells s (fst (stt_loop_exit f s)) (snd (stt_loop_exit f s))
  /\ is_currently_speaking_vad (fst (stt_loop_exit f s)) = false
  /\ vad_buffer (fst (stt_loop_exit f s)) = [].
Proof.
  unfold stt_loop_exit.
  pose proof (finalize_tells f s) as F.
  destruct (finalize f s) as [s1 out1].
  destruct (end_of_speech_tells s1) as (E & Z).
  destruct (end_of_speech s1) as [s2 out2]. cbn [fst snd] in *.
  split; [|split; [exact Z | reflexivity]].
  apply tells_after with (s' := s2); [|split; reflexivity].
  eapply tells_trans; eassumption.
Qed.

Lemma set_audio_source_tells (name : string) (m_old m_new : mic_answers)
    (f : option str) (s : SpeechToTextSystem.t) :
  tells s (fst (set_audio_source name m_old m_new f s))
    (snd (set_audio_source name m_old m_new f s)).
Proof.
  unfold set_audio_source.
  destruct (negb _); [apply tells_nothing; split; reflexivity|].
  destruct (String.eqb name (active_source s));
    [apply tells_nothing; split; reflexivity|].
  destruct (negb _); [apply tells_nothing; split; reflexivity|]. cbv zeta.
  destruct (end_of_speech_tells (set_vad_buffer [] s)) as (E & _).
  destruct (end_of_speech (set_vad_buffer [] s)) as [s2 out2].
  pose proof (finalize_tells f s2) as F.
  destruct (finalize f s2) as [s3 out3]. cbn [fst snd] in E, F.
  set (s4 := match audio_processor s3 with
             | Some p => set_audio_processor (Some (reset_recognizer p)) s3
             | None => s3
             end).
  assert (S4 : same_speech s3 s4)
    by (unfold s4; destruct (audio_processor s3); split; reflexivity).
  set (s5 := set_active_source name s4).
  pose proof (activate_silent m_new s5) as A.
  destruct (if is_running s && negb (String.eqb (active_source s5) "none")
            then activate_current_source_if_needed m_new s5 else (true, []))
    as [activated_ok out4] eqn:Act.
  assert (A4 : speech_states out4 = []).
  { destruct (is_running s && negb (String.eqb (active_source s5) "none")).
    - rewrite Act in A. exact A.
    - injection Act as _ <-. reflexivity. }
  cbn [fst snd].
  apply tells_silent_before.
  { destruct (is_running s); [apply deactivate_silent | reflexivity]. }
  rewrite app_assoc. apply tells_silent_after; [exact A4|].
  apply tells_after with (s' := s3).
  - apply tells_trans with (s2 := s2); [|exact F].
    apply (tells_before (s := set_vad_buffer [] s)); [split; reflexivity | exact E].
  - destruct S4 as (S4a & S4b). destruct activated_ok; split; assumption.
Qed.

Lemma stt_loop_iteration_tells (w : loop_answers) (s : SpeechToTextSystem.t) :
  tells s (fst (stt_loop_iteration w s)) (snd (stt_loop_iteration w s)).
Proof.
  unfold stt_loop_iteration.
  destruct (fetch w s) as [chunk|]; [|apply tells_nothing; split; reflexivity].
  assert (B : let r := match chunk with
                       | Some chunk =>
                           let (sa, outa) := process chunk (recognizer w) s in
                           if vad sa && (0 <? vad_frame_bytes sa)%Z then
                             let sb := set_vad_buffer (vad_buffer sa ++ chunk) sa in
                             let (sc, outc) :=
                               vad_frames (S (List.length (vad_buffer sb)))
                                 (is_speech w) sb in
                             (sc, outa ++ outc)
                           else (sa, outa)
                       | None => (s, [])
                       end in
              tells s (fst r) (snd r)).
  { cbv zeta. destruct chunk as [chunk|]; [|apply tells_nothing; split; reflexivity].
    pose proof (process_tells chunk (recognizer w) s) as A.
    destruct (process chunk (recognizer w) s) as [sa outa]. cbn [fst snd] in A.
    destruct (vad sa && (0 <? vad_frame_bytes sa)%Z); [|exact A].
    pose proof (vad_frames_tells
                  (S (List.length (vad_buffer (set_vad_buffer (vad_buffer sa ++ chunk) sa))))
                  (is_speech w) (set_vad_buffer (vad_buffer sa ++ chunk) sa)) as V.
    destruct (vad_frames _ _ _) as [sc outc]. cbn [fst snd] in *.
    apply tells_trans with (s2 := sa); [exact A|].
    apply (tells_before (s := set_vad_buffer (vad_buffer sa ++ chunk) sa));
      [split; reflexivity | exact V]. }
  cbv zeta in B.
  destruct (match chunk with Some _ => _ | None => _ end) as [s1 out1].
  cbn [fst snd] in B.
  destruct (_ && negb _); [|exact B].
  destruct (_ || _); [|exact B].
  pose proof (finalize_tells (FinalResult w) s1) as F.
  destruct (finalize (FinalResult w) s1) as [s2 out2].
  destruct (end_of_speech_tells s2) as (E & _).
  destruct (end_of_speech s2) as [s3 out3]. cbn [fst snd] in *.
  apply tells_after with (s' := s3); [|split; reflexivity].
  apply tells_trans with (s2 := s1); [exact B|].
  eapply tells_trans; eassumption.
Qed.

Lemma step_tells (ev : event) (s : SpeechToTextSystem.t) :
  tells s (fst (step ev s)) (snd (step ev s)).
Proof.
  destruct ev as [name m_old m_new f|m|m f1 f2|w]; cbn [step].
  - apply set_audio_source_tells.
  - unfold start.
    destruct (is_running s); [apply tells_nothing; split; reflexivity|].
    destruct (audio_processor s); [|apply tells_nothing; split; reflexivity].
    pose proof (activate_silent m s) as A.
    destruct (negb (String.eqb (active_source s) "none")).
    + destruct (activate_current_source_if_needed m s) as [ok out].
      destruct ok; cbn [negb fst snd] in *; apply tells_silent; auto.
    + apply tells_silent; auto.
  - unfold stop.
    destruct (negb (is_running s)); [apply tells_nothing; split; reflexivity|].
    cbv zeta.
    set (s1 := set_running false true (processing_thread s) s).
    assert (X : let r := if processing_thread s1
                         then stt_loop_exit f1 s1 else (s1, []) in
                tells s1 (fst r) (snd r)).
    { cbv zeta. destruct (processing_thread s1);
        [apply stt_loop_exit_tells | apply tells_nothing; split; reflexivity]. }
    cbv zeta in X.
    destruct (if processing_thread s1 then stt_loop_exit f1 s1 else (s1, []))
      as [s2 out2].
    pose proof (finalize_tells f2 (set_running false true false s2)) as F.
    destruct (finalize f2 (set_running false true false s2)) as [s4 out4].
    cbn [fst snd] in *.
    apply (tells_before (s := s1)); [split; reflexivity|].
    apply tells_trans with (s2 := s2); [exact X|].
    apply tells_silent_before; [apply deactivate_silent|].
    apply (tells_before (s := set_running false true false s2));
      [split; reflexivity | exact F].
  - destruct (_ && _);
      [apply stt_loop_iteration_tells | apply tells_nothing; split; reflexivity].
Qed.

Lemma run_tells (evs : list event) (s : SpeechToTextSystem.t) :
  tells s (fst (run evs s)) (snd (run evs s)).
Proof.
  revert s. induction evs as [|ev rest IH]; intros s; cbn [run].
  - apply tells_nothing. split; reflexivity.
  - pose proof (step_tells ev s) as A. destruct (step ev s) as [s1 out1].
    specialize (IH s1). destruct (run rest s1) as [s2 out2]. cbn [fst snd] in *.
    eapply tells_trans; eassumption.
Qed.

(** X20. With a speech-state callback, the values it is given alternate:
    each is the opposite of the one before it, the first the opposite of
    the flag at the start, so that from silence the first one is [True];
    the flag [_is_currently_speaking_vad] is always the value given last.
    Holds over every sequence of calls and loop iterations, each taken as
    one step. *)
Theorem speech_state_notifications_alternate
    (evs : list event) (s : SpeechToTextSystem.t) :
  has_external_speech_state_callback s = true ->
  let states := speech_states (snd (run evs s)) in
  alternates (is_currently_speaking_vad s) states
  /\ is_currently_speaking_vad (fst (run evs s))
     = last states (is_currently_speaking_vad s)
  /\ (is_currently_speaking_vad s = false -> hd true states = true).
Proof.
  intros C states. destruct (run_tells evs s) as (_ & T).
  destruct (T C) as (A & L). fold states in A, L.
  split; [exact A|]. split; [exact L|].
  intros F. destruct states as [|b rest]; [reflexivity|].
  cbn in A. destruct A as (A & _). rewrite F in A. exact A.
Qed.

(** A microphone that starts, and a loop iteration that reads [chunk]
    while the VAD answers [speech]. *)
Definition ready : mic_answers :=
  {| is_capture_thread_alive := false; is_stream_active := false;
     start_capture_result := true; is_stream_active_after_start := true |}.

Definition hears (chunk : bytes) (speech : bool) : loop_answers :=
  {| robot_queue_get := None;
     get_mono_chunk := Some chunk;
     recognizer := {| AcceptWaveform := Some false; PartialResult := None;
                      Result := None |};
     FinalResult := None;
     is_speech := fun _ => Some speech;
     silence_timeout_exceeded := false |}.

Definition listening : list event :=
  [Start ready; LoopIteration (hears [Byte.x01; Byte.x02; Byte.x03] true);
   LoopIteration (hears [Byte.x04; Byte.x05] false)].

Lemma speech_state_notifications_alternate_witness :
  let s := SpeechToTextSystem.init true true false true true "local" true 2 in
  has_external_speech_state_callback s = true
  /\ speech_states (snd (run listening s)) = [true; false]
  /\ alternates false (speech_states (snd (run listening s))).
Proof.
  cbv zeta. split; [reflexivity|]. split; [reflexivity|].
  exact (proj1 (@speech_state_notifications_alternate listening
                  (SpeechToTextSystem.init true true false true true "local" true 2)
                  eq_refl)).
Defined.

End VoiceActivity.

Module RecognitionLifecycle.

Import Re AudioProcessor SpeechToTextSystem.

(** The active source is one of the three names, and what it reads from
    exists. *)
Definition source_ok (s : SpeechToTextSystem.t) : Prop :=
  (active_source s = "local"%string /\ local_mic_handler s = true)
  \/ (active_source s = "robot"%string /\ robot_audio_queue s = true)
  \/ active_source s = "none"%string.

(** The thread lives exactly while the system is running; a system that
    is not running has given up the utterance it was hearing. *)
Record coherent (s : SpeechToTextSystem.t) : Prop := {
  thread_alive : processing_thread s = is_running s;
  not_stopping : is_running s = true -> stop_event s = false;
  at_rest : is_running s = false ->
            is_currently_speaking_vad s = false /\ vad_buffer s = []
}.

(** What no operation changes. *)
Definition same_parts (s s' : SpeechToTextSystem.t) : Prop :=
  local_mic_handler s' = local_mic_handler s
  /\ robot_audio_queue s' = robot_audio_queue s
  /\ vad s' = vad s
  /\ vad_frame_bytes s' = vad_frame_bytes s
  /\ (audio_processor s = None <-> audio_processor s' = None).

(** What the operations of the audio processor and of the VAD leave
    alone. *)
Definition same_control (s s' : SpeechToTextSystem.t) : Prop :=
  same_parts s s'
  /\ active_source s' = active_source s
  /\ is_running s' = is_running s
  /\ stop_event s' = stop_event s
  /\ processing_thread s' = processing_thread s.

Lemma same_control_refl (s : SpeechToTextSystem.t) : same_control s s.
Proof. repeat split; auto. Qed.

Lemma same_control_trans (s1 s2 s3 : SpeechToTextSystem.t) :
  same_control s1 s2 -> same_control s2 s3 -> same_control s1 s3.
Proof.
  unfold same_control, same_parts.
  intros ((A1 & A2 & A3 & A4 & A5) & B1 & B2 & B3 & B4)
         ((C1 & C2 & C3 & C4 & C5) & D1 & D2 & D3 & D4).
  repeat split; try congruence; tauto.
Qed.

Lemma finalize_control (f : option str) (s : SpeechToTextSystem.t) :
  same_control s (fst (finalize f s))
  /\ is_currently_speaking_vad (fst (finalize f s)) = is_currently_speaking_vad s
  /\ vad_buffer (fst (finalize f s)) = vad_buffer s.
Proof.
  unfold finalize. destruct (audio_processor s) as [p|] eqn:P.
  - destruct (finalize_recognition (internal_text_callback s) f p) as [p' out].
    cbn. unfold same_control, same_parts. cbn. rewrite P.
    repeat split; auto; discriminate.
  - split; [apply same_control_refl | split; reflexivity].
Qed.

Lemma process_control (chunk : bytes) (a : answers) (s : SpeechToTextSystem.t) :
  same_control s (fst (process chunk a s))
  /\ is_currently_speaking_vad (fst (process chunk a s)) = is_currently_speaking_vad s
  /\ vad_buffer (fst (process chunk a s)) = vad_buffer s.
Proof.
  unfold process. destruct (audio_processor s) as [p|] eqn:P.
  - destruct (process_chunk _ _ chunk a p) as [p' out].
    cbn. unfold same_control, same_parts. cbn. rewrite P.
    repeat split; auto; discriminate.
  - split; [apply same_control_refl | split; reflexivity].
Qed.

Lemma end_of_speech_control (s : SpeechToTextSystem.t) :
  same_control s (fst (end_of_speech s))
  /\ is_currently_speaking_vad (fst (end_of_speech s)) = false
  /\ vad_buffer (fst (end_of_speech s)) = vad_buffer s.
Proof.
  unfold end_of_speech. destruct (is_currently_speaking_vad s) eqn:F; cbn.
  - unfold same_control, same_parts. cbn. repeat split; auto.
  - split; [apply same_control_refl | split; [exact F | reflexivity]].
Qed.

Lemma vad_frames_control (fuel : nat) (speech : bytes -> option bool)
    (s : SpeechToTextSystem.t) :
  same_control s (fst (vad_frames fuel speech s)).
Proof.
  revert s. induction fuel as [|fuel IH]; intros s; cbn [vad_frames].
  - apply same_control_refl.
  - destruct (_ <=? _)%Z; [|apply same_control_refl].
    set (s1 := set_vad_buffer _ s).
    assert (S1 : same_control s s1) by (unfold same_control, same_parts; cbn; tauto).
    destruct (speech _) as [is_speech|].
    + destruct (negb _).
      * specialize (IH (set_speaking is_speech s1)).
        destruct (vad_frames fuel speech (set_speaking is_speech s1)) as [s3 rest].
        cbn [fst] in *. apply (same_control_trans S1).
        eapply same_control_trans; [|exact IH].
        unfold same_control, same_parts; cbn; tauto.
      * specialize (IH s1). destruct (vad_frames fuel speech s1) as [s3 rest].
        cbn [fst] in *. apply (same_control_trans S1 IH).
    + specialize (IH s1). destruct (vad_frames fuel speech s1) as [s3 rest].
      cbn [fst] in *. apply (same_control_trans S1 IH).
Qed.

Lemma stt_loop_exit_control (f : option str) (s : SpeechToTextSystem.t) :
  same_control s (fst (stt_loop_exit f s))
  /\ is_currently_speaking_vad (fst (stt_loop_exit f s)) = false
  /\ vad_buffer (fst (stt_loop_exit f s)) = [].
Proof.
  unfold stt_loop_exit.
  destruct (finalize_control f s) as (A & _).
  destruct (finalize f s) as [s1 out1].
  destruct (end_of_speech_control s1) as (B & Z & _).
  destruct (end_of_speech s1) as [s2 out2]. cbn [fst] in *.
  split; [|split; [exact Z | reflexivity]].
  eapply same_control_trans; [exact A|].
  eapply same_control_trans; [exact B|].
  unfold same_control, same_parts; cbn; tauto.
Qed.

Lemma stt_loop_iteration_control (w : loop_answers) (s : SpeechToTextSystem.t) :
  same_control s (fst (stt_loop_iteration w s)).
Proof.
  unfold stt_loop_iteration.
  destruct (fetch w s) as [chunk|]; [|apply same_control_refl].
  assert (B : same_control s
                (fst (match chunk with
                      | Some chunk =>
                          let (sa, outa) := process chunk (recognizer w) s in
                          if vad sa && (0 <? vad_frame_bytes sa)%Z then
                            let sb := set_vad_buffer (vad_buffer sa ++ chunk) sa in
                            let (sc, outc) :=
                              vad_frames (S (List.length (vad_buffer sb)))
                                (is_speech w) sb in
                            (sc, outa ++ outc)
                          else (sa, outa)
                      | None => (s, [])
                      end))).
  { destruct chunk as [chunk|]; [|apply same_control_refl].
    destruct (process_control chunk (recognizer w) s) as (A & _).
    destruct (process chunk (recognizer w) s) as [sa outa]. cbn [fst] in A.
    destruct (vad sa && (0 <? vad_frame_bytes sa)%Z); [|exact A]. cbv zeta.
    pose proof (vad_frames_control
                  (S (List.length (vad_buffer (set_vad_buffer (vad_buffer sa ++ chunk) sa))))
                  (is_speech w) (set_vad_buffer (vad_buffer sa ++ chunk) sa)) as V.
    destruct (vad_frames _ _ _) as [sc outc]. cbn [fst] in *.
    eapply same_control_trans; [exact A|].
    eapply same_control_trans; [|exact V].
    unfold same_control, same_parts; cbn; tauto. }
  destruct (match chunk with Some _ => _ | None => _ end) as [s1 out1].
  cbn [fst] in B.
  destruct (_ && negb _); [|exact B].
  destruct (_ || _); [|exact B].
  destruct (finalize_control (FinalResult w) s1) as (F & _).
  destruct (finalize (FinalResult w) s1) as [s2 out2].
  destruct (end_of_speech_control s2) as (E & _).
  destruct (end_of_speech s2) as [s3 out3]. cbn [fst] in *.
  eapply same_control_trans; [exact B|].
  eapply same_control_trans; [exact F|].
  eapply same_control_trans; [exact E|].
  unfold same_control, same_parts; cbn; tauto.
Qed.

Definition known_source (name : string) : Prop :=
  name = "local"%string \/ name = "robot"%string \/ name = "none"%string.

Lemma known_source_test (name : string) :
  (String.eqb name "local" || String.eqb name "robot" || String.eqb name "none") = true
  <-> known_source name.
Proof.
  unfold known_source. rewrite !orb_true_iff, !String.eqb_eq. tauto.
Qed.

Lemma set_audio_source_inv (name : string) (m_old m_new : mic_answers)
    (f : option str) (s : SpeechToTextSystem.t) :
  let s' := fst (set_audio_source name m_old m_new f s) in
  same_parts s s'
  /\ (source_ok s -> source_ok s')
  /\ (coherent s -> coherent s')
  /\ (active_source s' = active_source s \/ active_source s' = name
      \/ active_source s' = "none"%string).
Proof.
  cbv zeta. unfold set_audio_source.
  destruct (negb _) eqn:K.
  { cbn. split; [apply same_control_refl|]. auto. }
  apply negb_false_iff in K.
  destruct (String.eqb name (active_source s)).
  { cbn. split; [apply same_control_refl|]. auto. }
  destruct (negb (if String.eqb name "local" then local_mic_handler s
                  else if String.eqb name "robot" then robot_audio_queue s
                       else if String.eqb name "none" then true else false)) eqn:Can.
  { cbn. split; [apply same_control_refl|]. auto. }
  apply negb_false_iff in Can. cbv zeta.
  destruct (end_of_speech_control (set_vad_buffer [] s)) as (E & EZ & EB).
  destruct (end_of_speech (set_vad_buffer [] s)) as [s2 out2].
  destruct (finalize_control f s2) as (F & FZ & FB).
  destruct (finalize f s2) as [s3 out3]. cbn [fst] in *.
  set (s4 := match audio_processor s3 with
             | Some p => set_audio_processor (Some (reset_recognizer p)) s3
             | None => s3
             end).
  assert (S4 : same_control s3 s4
               /\ is_currently_speaking_vad s4 = is_currently_speaking_vad s3
               /\ vad_buffer s4 = vad_buffer s3).
  { unfold s4. destruct (audio_processor s3) eqn:P.
    - unfold same_control, same_parts. cbn. rewrite P. repeat split; auto; discriminate.
    - split; [apply same_control_refl | split; reflexivity]. }
  destruct S4 as (S4 & S4Z & S4B).
  assert (C : same_control s s4).
  { eapply same_control_trans; [|exact S4].
    eapply same_control_trans; [|exact F].
    eapply same_control_trans; [|exact E].
    unfold same_control, same_parts; cbn; tauto. }
  destruct C as ((C1 & C2 & C3 & C4 & C5) & C6 & C7 & C8 & C9).
  assert (Z4 : is_currently_speaking_vad s4 = false) by congruence.
  assert (B4 : vad_buffer s4 = []) by (rewrite S4B, FB, EB; reflexivity).
  set (s5 := set_active_source name s4).
  destruct (if is_running s && negb (String.eqb (active_source s5) "none")
            then activate_current_source_if_needed m_new s5 else (true, []))
    as [activated_ok out4].
  cbn [fst].
  assert (Final : exists final_name,
             (if activated_ok then s5 else set_active_source "none" s5)
             = set_active_source final_name s4
             /\ (final_name = name \/ final_name = "none"%string)).
  { destruct activated_ok; [exists name | exists "none"%string]; auto. }
  destruct Final as (final_name & -> & FN).
  split; [unfold same_parts; cbn; tauto|]. split; [|split].
  - intros _. unfold source_ok. cbn. rewrite C1, C2.
    destruct FN as [-> | ->]; [|auto].
    destruct (String.eqb name "local") eqn:L;
      [apply String.eqb_eq in L; subst name; auto|].
    destruct (String.eqb name "robot") eqn:R;
      [apply String.eqb_eq in R; subst name; auto|].
    destruct (String.eqb name "none") eqn:N;
      [apply String.eqb_eq in N; subst name; auto | discriminate].
  - intros [T NS R]. constructor; cbn.
    + congruence.
    + rewrite C7, C8. exact NS.
    + intros _. split; assumption.
  - cbn. destruct FN as [-> | ->]; auto.
Qed.

Lemma control_source (s s' : SpeechToTextSystem.t) :
  same_control s s' -> source_ok s -> source_ok s'.
Proof.
  unfold source_ok. intros ((A1 & A2 & _) & B & _). rewrite A1, A2, B. auto.
Qed.

Lemma control_coherent (s s' : SpeechToTextSystem.t) :
  same_control s s' -> is_running s = true -> coherent s -> coherent s'.
Proof.
  intros (_ & _ & B & C & D) Run [T NS R]. constructor.
  - congruence.
  - rewrite C. intros _. apply NS, Run.
  - rewrite B, Run. discriminate.
Qed.

Lemma start_cases (m : mic_answers) (s : SpeechToTextSystem.t) :
  (fst (fst (start m s)) = s /\ snd (start m s) = is_running s)
  \/ (fst (fst (start m s)) = set_running true false true s
      /\ snd (start m s) = true /\ is_running s = false).
Proof.
  unfold start. destruct (is_running s); [left; auto|].
  destruct (audio_processor s); [|left; auto].
  destruct (if negb (String.eqb (active_source s) "none")
            then activate_current_source_if_needed m s else (true, []))
    as [activated out].
  destruct activated; cbn; [right; auto | left; auto].
Qed.

Lemma stop_spec (m : mic_answers) (f1 f2 : option str) (s : SpeechToTextSystem.t) :
  coherent s ->
  let s' := fst (stop m f1 f2 s) in
  same_parts s s'
  /\ active_source s' = active_source s
  /\ is_running s' = false
  /\ processing_thread s' = false
  /\ is_currently_speaking_vad s' = false
  /\ vad_buffer s' = []
  /\ coherent s'.
Proof.
  intros [T NS R]. cbv zeta. unfold stop.
  destruct (is_running s) eqn:Run; cbn [negb].
  - cbv zeta. set (s1 := set_running false true (processing_thread s) s).
    change (processing_thread s1) with (processing_thread s). rewrite T.
    destruct (stt_loop_exit_control f1 s1) as (X & XZ & XB).
    destruct (stt_loop_exit f1 s1) as [s2 out2]. cbn [fst] in *.
    destruct (finalize_control f2 (set_running false true false s2)) as (F & FZ & FB).
    destruct (finalize f2 (set_running false true false s2)) as [s4 out4].
    cbn [fst] in *.
    destruct X as ((X1 & X2 & X3 & X4 & X5) & X6 & _).
    destruct F as ((F1 & F2 & F3 & F4 & F5) & F6 & F7 & F8 & F9).
    cbn in *.
    assert (Z : is_currently_speaking_vad s4 = false) by congruence.
    assert (B : vad_buffer s4 = []) by congruence.
    split; [unfold same_parts; repeat split; try congruence; tauto|].
    split; [congruence|]. split; [exact F7|]. split; [exact F9|].
    split; [exact Z|]. split; [exact B|].
    constructor; [congruence | congruence|].
    intros _. split; assumption.
  - cbn. destruct (R eq_refl) as (Z & B).
    split; [apply same_control_refl|]. split; [reflexivity|].
    split; [exact Run|]. split; [congruence|].
    split; [exact Z|]. split; [exact B|]. constructor; rewrite ?Run; assumption.
Qed.

Definition sound (s : SpeechToTextSystem.t) : Prop := source_ok s /\ coherent s.

Lemma started_sound (s : SpeechToTextSystem.t) :
  sound s -> sound (set_running true false true s)
             /\ same_parts s (set_running true false true s).
Proof.
  intros (S & C). split; [split|].
  - exact S.
  - constructor; cbn; auto; discriminate.
  - unfold same_parts. cbn. tauto.
Qed.

Lemma step_sound (ev : event) (s : SpeechToTextSystem.t) :
  sound s -> sound (fst (step ev s)) /\ same_parts s (fst (step ev s)).
Proof.
  intros H. pose proof H as (S & C).
  destruct ev as [name m_old m_new f|m|m f1 f2|w]; cbn [step].
  - destruct (set_audio_source_inv name m_old m_new f s) as (P & So & Co & _).
    split; [split; auto | exact P].
  - destruct (start_cases m s) as [(K & _) | (K & _)]; rewrite K.
    + split; [exact H | apply same_control_refl].
    + apply started_sound, H.
  - destruct (stop_spec m f1 f2 C) as (P & A & _ & _ & _ & _ & Co).
    split; [split; [|exact Co] | exact P].
    unfold source_ok in *. destruct P as (P1 & P2 & _). rewrite A, P1, P2. exact S.
  - destruct (processing_thread s && is_running s && negb (stop_event s)) eqn:G.
    + apply andb_true_iff in G. destruct G as (G & _).
      apply andb_true_iff in G. destruct G as (_ & Run).
      pose proof (stt_loop_iteration_control w s) as K.
      split; [split; [eapply control_source | eapply control_coherent]|];
        try eassumption. apply K.
    + cbn. split; [exact H | apply same_control_refl].
Qed.

Lemma same_parts_trans (s1 s2 s3 : SpeechToTextSystem.t) :
  same_parts s1 s2 -> same_parts s2 s3 -> same_parts s1 s3.
Proof.
  unfold same_parts.
  intros (A1 & A2 & A3 & A4 & A5) (C1 & C2 & C3 & C4 & C5).
  repeat split; try congruence; tauto.
Qed.

Lemma run_sound (evs : list event) (s : SpeechToTextSystem.t) :
  sound s -> sound (fst (run evs s)) /\ same_parts s (fst (run evs s)).
Proof.
  revert s. induction evs as [|ev rest IH]; intros s H; cbn [run].
  - split; [exact H | apply same_control_refl].
  - destruct (step_sound ev H) as (A & B). destruct (step ev s) as [s1 out1].
    cbn [fst] in *. destruct (IH s1 A) as (A' & B').
    destruct (run rest s1) as [s2 out2]. cbn [fst] in *.
    split; [exact A' | exact (same_parts_trans B B')].
Qed.

Lemma init_sound (text_cb mic queue speech_cb partial_cb : bool)
    (default_source : string) (with_vad : bool) (frame_bytes : Z) :
  let s := SpeechToTextSystem.init text_cb mic queue speech_cb partial_cb
             default_source with_vad frame_bytes in
  sound s /\ local_mic_handler s = mic /\ robot_audio_queue s = queue.
Proof.
  unfold SpeechToTextSystem.init, set_initial_source. cbn.
  destruct (String.eqb default_source "robot");
    [destruct queue | destruct (String.eqb default_source "local");
                      [destruct mic|]];
    (split; [split; [unfold source_ok; cbn; auto
                    | constructor; cbn; auto; discriminate]
            | split; reflexivity]).
Qed.

(** X21. After the constructor and any sequence of calls and loop
    iterations, the active source is [local], [robot] or [none]; it is
    [local] only if a microphone handler was given and [robot] only if a
    queue was given.  [set_audio_source] with a name that is not one of
    the three, with the name of the active source, or with a source whose
    handler or queue was not given, changes nothing and calls nothing. *)
Theorem active_source_is_known_and_available
    (text_cb mic queue speech_cb partial_cb : bool) (default_source : string)
    (with_vad : bool) (frame_bytes : Z) (evs : list event) :
  let s := fst (run evs (SpeechToTextSystem.init text_cb mic queue speech_cb
                           partial_cb default_source with_vad frame_bytes)) in
  known_source (active_source s)
  /\ (active_source s = "local"%string -> mic = true)
  /\ (active_source s = "robot"%string -> queue = true)
  /\ (forall name m_old m_new f,
        ~ known_source name \/ name = active_source s
        \/ (name = "local"%string /\ mic = false)
        \/ (name = "robot"%string /\ queue = false) ->
        set_audio_source name m_old m_new f s = (s, [])).
Proof.
  intros s.
  destruct (init_sound text_cb mic queue speech_cb partial_cb
              default_source with_vad frame_bytes) as (I & IM & IQ).
  destruct (run_sound evs I) as ((S & _) & P).
  fold s in S, P. destruct P as (P1 & P2 & _).
  assert (M : local_mic_handler s = mic) by congruence.
  assert (Q : robot_audio_queue s = queue) by congruence.
  clearbody s. clear I IM IQ P1 P2. unfold source_ok in S. rewrite M, Q in S.
  split; [unfold known_source; tauto|].
  split; [intros E; rewrite E in S; destruct S as [(_ & S) | [(S & _) | S]];
          [exact S | discriminate | discriminate]|].
  split; [intros E; rewrite E in S; destruct S as [(S & _) | [(_ & S) | S]];
          [discriminate | exact S | discriminate]|].
  intros name m_old m_new f H. unfold set_audio_source.
  destruct (String.eqb name "local" || String.eqb name "robot"
            || String.eqb name "none") eqn:K; cbn [negb]; [|reflexivity].
  apply known_source_test in K.
  destruct H as [H | [H | [(H1 & H2) | (H1 & H2)]]].
  - contradiction.
  - rewrite H, String.eqb_refl. reflexivity.
  - subst name. destruct (String.eqb "local" (active_source s)); [reflexivity|].
    cbn. rewrite M, H2. reflexivity.
  - subst name. destruct (String.eqb "robot" (active_source s)); [reflexivity|].
    cbn. rewrite Q, H2. reflexivity.
Qed.

(** X22. After the constructor and any sequence of calls and loop
    iterations (the thread taken to end within the [join] of [stop]): the
    processing thread is alive exactly when [is_running()] holds; while
    running the stop event is clear; while not running the VAD flag is
    down, the VAD buffer empty and the loop does nothing.  [start] returns
    what [is_running()] gives afterwards, does nothing when already
    running, leaves the state as it was when it returns [False], and
    otherwise clears the stop event and starts the thread.  After [stop]
    the system is not running, has no thread, no speech flag and an empty
    buffer, and keeps its source. *)
Theorem running_flag_and_thread_agree
    (text_cb mic queue speech_cb partial_cb : bool) (default_source : string)
    (with_vad : bool) (frame_bytes : Z) (evs : list event) :
  let s := fst (run evs (SpeechToTextSystem.init text_cb mic queue speech_cb
                           partial_cb default_source with_vad frame_bytes)) in
  processing_thread s = get_is_running s
  /\ (get_is_running s = true -> stop_event s = false)
  /\ (get_is_running s = false ->
      is_currently_speaking_vad s = false /\ vad_buffer s = []
      /\ forall w, step (LoopIteration w) s = (s, []))
  /\ (forall m,
        snd (start m s) = get_is_running (fst (fst (start m s)))
        /\ (get_is_running s = true -> start m s = (s, [], true))
        /\ (snd (start m s) = false -> fst (fst (start m s)) = s)
        /\ (get_is_running s = false -> snd (start m s) = true ->
            stop_event (fst (fst (start m s))) = false
            /\ processing_thread (fst (fst (start m s))) = true))
  /\ (forall m f1 f2,
        let s' := fst (stop m f1 f2 s) in
        get_is_running s' = false /\ processing_thread s' = false
        /\ is_currently_speaking_vad s' = false /\ vad_buffer s' = []
        /\ active_source s' = active_source s).
Proof.
  intros s.
  destruct (init_sound text_cb mic queue speech_cb partial_cb
              default_source with_vad frame_bytes) as (I & _).
  destruct (run_sound evs I) as ((_ & C) & _).
  fold s in C. clearbody s. clear I. unfold get_is_running.
  pose proof C as [T NS R].
  split; [exact T|]. split; [exact NS|]. split; [|split].
  - intros Run. destruct (R Run) as (Z & B). split; [exact Z|]. split; [exact B|].
    intros w. cbn [step]. rewrite Run, andb_false_r. reflexivity.
  - intros m. split; [|split; [|split]].
    + destruct (start_cases m s) as [(K & L) | (K & L & _)]; rewrite K, L; reflexivity.
    + intros Run. unfold start. rewrite Run. reflexivity.
    + intros F. destruct (start_cases m s) as [(K & _) | (_ & L & _)];
        [exact K | congruence].
    + intros Run Ok. destruct (start_cases m s) as [(_ & L) | (K & _)];
        [congruence | rewrite K; split; reflexivity].
  - intros m f1 f2. destruct (stop_spec m f1 f2 C) as (_ & A & B & D & E & F & _).
    cbv zeta. auto.
Qed.

End RecognitionLifecycle.

Module VoiceActivityFrames.

Import Re AudioProcessor SpeechToTextSystem.

(** The frames given to the VAD, in order. *)
Definition frames_of (out : list call) : list bytes :=
  flat_map (fun c => match c with
                     | vad_is_speech frame => [frame]
                     | _ => []
                     end) out.

Lemma frames_of_app (l1 l2 : list call) :
  frames_of (l1 ++ l2) = frames_of l1 ++ frames_of l2.
Proof. apply flat_map_app. Qed.

Lemma no_frames (out : list call) :
  Forall (fun c => frames_of [c] = []) out -> frames_of out = [].
Proof.
  induction 1 as [|c l Hc Q IH]; [reflexivity|].
  change (c :: l) with ([c] ++ l). rewrite frames_of_app, Hc, IH. reflexivity.
Qed.

Lemma frames_of_callback (b : bool) (out : list call) :
  frames_of ((if b then [external_speech_state_callback true] else []) ++ out)
  = frames_of out
  /\ frames_of ((if b then [external_speech_state_callback false] else []) ++ out)
     = frames_of out.
Proof. destruct b; split; reflexivity. Qed.

(** What the [while] loop over the buffer does with a buffer of whole
    frames followed by less than a frame. *)
Lemma vad_frames_spec (fuel : nat) (speech : bytes -> option bool)
    (s : SpeechToTextSystem.t) :
  (0 < vad_frame_bytes s)%Z ->
  (List.length (vad_buffer s) < fuel)%nat ->
  let r := vad_frames fuel speech s in
  Forall (fun frame => Z.of_nat (List.length frame) = vad_frame_bytes s)
    (frames_of (snd r))
  /\ List.concat (frames_of (snd r)) ++ vad_buffer (fst r) = vad_buffer s
  /\ (Z.of_nat (List.length (vad_buffer (fst r))) < vad_frame_bytes s)%Z.
Proof.
  revert s. induction fuel as [|fuel IH]; intros s Pos Fuel; [lia|].
  cbn [vad_frames]. cbv zeta.
  destruct (vad_frame_bytes s <=? Z.of_nat (List.length (vad_buffer s)))%Z eqn:Le.
  - apply Z.leb_le in Le.
    set (n := Z.to_nat (vad_frame_bytes s)).
    assert (N : (n <= List.length (vad_buffer s))%nat) by (unfold n; lia).
    assert (N0 : (0 < n)%nat) by (unfold n; lia).
    set (s1 := set_vad_buffer (skipn n (vad_buffer s)) s).
    assert (K : forall s2,
               vad_frame_bytes s2 = vad_frame_bytes s ->
               vad_buffer s2 = skipn n (vad_buffer s) ->
               forall out,
                 frames_of out = [] ->
                 let r := let (s3, rest) := vad_frames fuel speech s2 in
                          (s3, vad_is_speech (firstn n (vad_buffer s)) :: out ++ rest) in
                 Forall (fun frame => Z.of_nat (List.length frame) = vad_frame_bytes s)
                   (frames_of (snd r))
                 /\ List.concat (frames_of (snd r)) ++ vad_buffer (fst r) = vad_buffer s
                 /\ (Z.of_nat (List.length (vad_buffer (fst r)))
                     < vad_frame_bytes s)%Z).
    { intros s2 E2 B2 out O.
      assert (Pos2 : (0 < vad_frame_bytes s2)%Z) by lia.
      assert (Fuel2 : (List.length (vad_buffer s2) < fuel)%nat).
      { rewrite B2, length_skipn. lia. }
      specialize (IH s2 Pos2 Fuel2). cbv zeta in IH.
      destruct (vad_frames fuel speech s2) as [s3 rest]. cbn [fst snd] in *.
      destruct IH as (A & B & C).
      change (vad_is_speech (firstn n (vad_buffer s)) :: out ++ rest)
        with ([vad_is_speech (firstn n (vad_buffer s))] ++ out ++ rest).
      rewrite !frames_of_app, O. cbn [frames_of flat_map app List.concat].
      split; [|split].
      - constructor; [|rewrite <- E2; exact A].
        rewrite length_firstn. unfold n. lia.
      - rewrite <- app_assoc, B, B2. apply firstn_skipn.
      - rewrite <- E2. exact C. }
    destruct (speech (firstn n (vad_buffer s))) as [is_speech|].
    + destruct (negb (Bool.eqb is_speech (is_currently_speaking_vad s1))).
      * apply (K (set_speaking is_speech s1)); [reflexivity | reflexivity|].
        destruct (has_external_speech_state_callback s1); reflexivity.
      * apply (K s1); reflexivity.
    + apply (K s1); reflexivity.
  - apply Z.leb_gt in Le. cbn. split; [constructor|]. split; [reflexivity | exact Le].
Qed.

Lemma quiet_frames (P : call -> Prop) (out : list call) :
  (forall c, P c -> frames_of [c] = []) -> Forall P out -> frames_of out = [].
Proof.
  intros H F. apply no_frames. eapply Forall_impl; [exact H | exact F].
Qed.

Lemma finalize_frames (f : option str) (s : SpeechToTextSystem.t) :
  frames_of (snd (finalize f s)) = [].
Proof.
  apply no_frames.
  apply (@RecognitionSystem.finalize_calls (fun c => frames_of [c] = []));
    reflexivity.
Qed.

Lemma process_frames (chunk : bytes) (a : answers) (s : SpeechToTextSystem.t) :
  frames_of (snd (process chunk a s)) = [].
Proof.
  apply no_frames.
  apply (@RecognitionSystem.process_calls (fun c => frames_of [c] = []));
    reflexivity.
Qed.

Lemma end_of_speech_frames (s : SpeechToTextSystem.t) :
  frames_of (snd (end_of_speech s)) = [].
Proof.
  unfold end_of_speech. destruct (is_currently_speaking_vad s); [|reflexivity].
  cbn. destruct (has_external_speech_state_callback s); reflexivity.
Qed.

Lemma activate_frames (m : mic_answers) (s : SpeechToTextSystem.t) :
  frames_of (snd (activate_current_source_if_needed m s)) = [].
Proof.
  unfold activate_current_source_if_needed.
  repeat match goal with
         | |- context [if ?c then _ else _] => destruct c
         end; reflexivity.
Qed.

Lemma deactivate_frames (m : mic_answers) (s : SpeechToTextSystem.t) :
  frames_of (deactivate_current_source_if_needed m s) = [].
Proof.
  unfold deactivate_current_source_if_needed.
  repeat match goal with
         | |- context [if ?c then _ else _] => destruct c
         end; reflexivity.
Qed.

Lemma set_audio_source_frames (name : string) (m_old m_new : mic_answers)
    (f : option str) (s : SpeechToTextSystem.t) :
  let r := set_audio_source name m_old m_new f s in
  frames_of (snd r) = []
  /\ (vad_buffer (fst r) = vad_buffer s \/ vad_buffer (fst r) = []).
Proof.
  cbv zeta. unfold set_audio_source.
  destruct (negb _); [split; auto|].
  destruct (String.eqb name (active_source s)); [split; auto|].
  destruct (negb _); [split; auto|]. cbv zeta.
  pose proof (end_of_speech_frames (set_vad_buffer [] s)) as E.
  destruct (RecognitionLifecycle.end_of_speech_control (set_vad_buffer [] s))
    as (_ & _ & EB).
  destruct (end_of_speech (set_vad_buffer [] s)) as [s2 out2].
  pose proof (finalize_frames f s2) as F.
  destruct (RecognitionLifecycle.finalize_control f s2) as (_ & _ & FB).
  destruct (finalize f s2) as [s3 out3]. cbn [fst snd] in *.
  set (s4 := match audio_processor s3 with
             | Some p => set_audio_processor (Some (reset_recognizer p)) s3
             | None => s3
             end).
  assert (B4 : vad_buffer s4 = []).
  { change (vad_buffer (set_vad_buffer [] s)) with (@nil Byte.byte) in EB.
    unfold s4. destruct (audio_processor s3); cbn; congruence. }
  set (s5 := set_active_source name s4).
  pose proof (activate_frames m_new s5) as A.
  destruct (if is_running s && negb (String.eqb (active_source s5) "none")
            then activate_current_source_if_needed m_new s5 else (true, []))
    as [activated_ok out4] eqn:Act.
  assert (A4 : frames_of out4 = []).
  { destruct (is_running s && negb (String.eqb (active_source s5) "none")).
    - rewrite Act in A. exact A.
    - injection Act as _ <-. reflexivity. }
  cbn [fst snd]. split.
  - rewrite !frames_of_app, E, F, A4.
    destruct (is_running s); [rewrite deactivate_frames|]; reflexivity.
  - right. destruct activated_ok; exact B4.
Qed.

Lemma stt_loop_exit_frames (f : option str) (s : SpeechToTextSystem.t) :
  frames_of (snd (stt_loop_exit f s)) = [].
Proof.
  unfold stt_loop_exit.
  pose proof (finalize_frames f s) as F. destruct (finalize f s) as [s1 out1].
  pose proof (end_of_speech_frames s1) as E. destruct (end_of_speech s1) as [s2 out2].
  cbn [snd] in *. rewrite frames_of_app, E, F. reflexivity.
Qed.

Lemma stop_frames (m : mic_answers) (f1 f2 : option str) (s : SpeechToTextSystem.t) :
  let r := stop m f1 f2 s in
  frames_of (snd r) = []
  /\ (vad_buffer (fst r) = vad_buffer s \/ vad_buffer (fst r) = []).
Proof.
  cbv zeta. unfold stop. destruct (negb (is_running s)); [split; auto|]. cbv zeta.
  set (s1 := set_running false true (processing_thread s) s).
  assert (X : let r := if processing_thread s1
                       then stt_loop_exit f1 s1 else (s1, []) in
              frames_of (snd r) = []
              /\ (vad_buffer (fst r) = vad_buffer s \/ vad_buffer (fst r) = [])).
  { cbv zeta. destruct (processing_thread s1).
    - split; [apply stt_loop_exit_frames|]. right.
      apply RecognitionLifecycle.stt_loop_exit_control.
    - split; auto. }
  cbv zeta in X.
  destruct (if processing_thread s1 then stt_loop_exit f1 s1 else (s1, []))
    as [s2 out2].
  pose proof (finalize_frames f2 (set_running false true false s2)) as F.
  destruct (RecognitionLifecycle.finalize_control f2 (set_running false true false s2))
    as (_ & _ & FB).
  destruct (finalize f2 (set_running false true false s2)) as [s4 out4].
  cbn [fst snd] in *. destruct X as (X & XB). split.
  - rewrite !frames_of_app, X, F, deactivate_frames. reflexivity.
  - rewrite FB. exact XB.
Qed.

(** The part of one iteration that handles a chunk. *)
Lemma chunk_frames (w : loop_answers) (chunk : bytes) (s : SpeechToTextSystem.t) :
  (Z.of_nat (List.length (vad_buffer s)) < vad_frame_bytes s)%Z ->
  let r := let (sa, outa) := process chunk (recognizer w) s in
           if vad sa && (0 <? vad_frame_bytes sa)%Z then
             let sb := set_vad_buffer (vad_buffer sa ++ chunk) sa in
             let (sc, outc) :=
               vad_frames (S (List.length (vad_buffer sb))) (is_speech w) sb in
             (sc, outa ++ outc)
           else (sa, outa) in
  Forall (fun frame => Z.of_nat (List.length frame) = vad_frame_bytes s)
    (frames_of (snd r))
  /\ (Z.of_nat (List.length (vad_buffer (fst r))) < vad_frame_bytes s)%Z
  /\ (vad s = true ->
      List.concat (frames_of (snd r)) ++ vad_buffer (fst r) = vad_buffer s ++ chunk).
Proof.
  intros Small. cbv zeta.
  pose proof (process_frames chunk (recognizer w) s) as PF.
  destruct (RecognitionLifecycle.process_control chunk (recognizer w) s)
    as (((_ & _ & V & N & _) & _) & _ & PB).
  destruct (process chunk (recognizer w) s) as [sa outa]. cbn [fst snd] in *.
  rewrite V, N.
  assert (Pos : (0 < vad_frame_bytes s)%Z) by lia.
  destruct (vad s) eqn:Vad; cbn [andb].
  - destruct (Z.ltb_spec 0 (vad_frame_bytes s)) as [_|]; [|lia].
    set (sb := set_vad_buffer (vad_buffer sa ++ chunk) sa).
    assert (Nb : vad_frame_bytes sb = vad_frame_bytes s) by exact N.
    destruct (@vad_frames_spec (S (List.length (vad_buffer sb))) (is_speech w) sb)
      as (A & B & C); [lia | lia|].
    destruct (vad_frames (S (List.length (vad_buffer sb))) (is_speech w) sb)
      as [sc outc]. cbn [fst snd] in *.
    rewrite frames_of_app, PF. cbn [app]. rewrite <- Nb.
    split; [exact A|]. split; [exact C|]. intros _. rewrite B, <- PB. reflexivity.
  - cbn [fst snd]. rewrite PF, PB.
    split; [constructor|]. split; [exact Small | discriminate].
Qed.

Lemma stt_loop_iteration_frames (w : loop_answers) (s : SpeechToTextSystem.t) :
  (Z.of_nat (List.length (vad_buffer s)) < vad_frame_bytes s)%Z ->
  let r := stt_loop_iteration w s in
  Forall (fun frame => Z.of_nat (List.length frame) = vad_frame_bytes s)
    (frames_of (snd r))
  /\ (Z.of_nat (List.length (vad_buffer (fst r))) < vad_frame_bytes s)%Z
  /\ (forall chunk,
        fetch w s = Some (Some chunk) -> chunk <> [] -> vad s = true ->
        List.concat (frames_of (snd r)) ++ vad_buffer (fst r) = vad_buffer s ++ chunk).
Proof.
  intros Small. cbv zeta. unfold stt_loop_iteration.
  destruct (fetch w s) as [[chunk|]|].
  - pose proof (@chunk_frames w chunk s Small) as B. cbv zeta in B. cbv zeta.
    match type of B with
    | Forall _ (frames_of (snd ?t)) /\ _ => remember t as body eqn:Hb
    end.
    clear Hb. destruct body as [s1 out1].
    cbn [fst snd] in B. destruct B as (A & C & D).
    destruct chunk as [|b chunk].
    + cbn [nonempty negb andb].
      assert (G : forall q : bool,
                 let r := if q then
                            let (s2, out2) := finalize (FinalResult w) s1 in
                            let (s3, out3) := end_of_speech s2 in
                            (set_vad_buffer [] s3, out1 ++ out2 ++ out3)
                          else (s1, out1) in
                 Forall (fun frame => Z.of_nat (List.length frame) = vad_frame_bytes s)
                   (frames_of (snd r))
                 /\ (Z.of_nat (List.length (vad_buffer (fst r)))
                     < vad_frame_bytes s)%Z).
      { intros [|]; cbv zeta; [|split; assumption].
        pose proof (finalize_frames (FinalResult w) s1) as F.
        destruct (finalize (FinalResult w) s1) as [s2 out2].
        pose proof (end_of_speech_frames s2) as E.
        destruct (end_of_speech s2) as [s3 out3]. cbn [fst snd] in *.
        rewrite !frames_of_app, F, E, !app_nil_r. split; [exact A | cbn; lia]. }
      destruct (negb (String.eqb (active_source s) "none")).
      * destruct (G ((vad s1 && is_currently_speaking_vad s1
                      && silence_timeout_exceeded w)
                     || (negb (vad s1) && silence_timeout_exceeded w))) as (G1 & G2).
        split; [exact G1|]. split; [exact G2|].
        intros c Q Ne. injection Q as <-. contradiction.
      * split; [exact A|]. split; [exact C|].
        intros c Q Ne. injection Q as <-. contradiction.
    + cbn [nonempty negb andb]. split; [exact A|]. split; [exact C|].
      intros c Q _ Vad. injection Q as <-. apply D, Vad.
  - assert (G : forall q : bool,
               let r := if q then
                          let (s2, out2) := finalize (FinalResult w) s in
                          let (s3, out3) := end_of_speech s2 in
                          (set_vad_buffer [] s3, [] ++ out2 ++ out3)
                        else (s, []) in
               Forall (fun frame => Z.of_nat (List.length frame) = vad_frame_bytes s)
                 (frames_of (snd r))
               /\ (Z.of_nat (List.length (vad_buffer (fst r)))
                   < vad_frame_bytes s)%Z).
    { intros [|]; cbv zeta; [|split; [constructor | assumption]].
      pose proof (finalize_frames (FinalResult w) s) as F.
      destruct (finalize (FinalResult w) s) as [s2 out2].
      pose proof (end_of_speech_frames s2) as E.
      destruct (end_of_speech s2) as [s3 out3]. cbn [fst snd] in *.
      rewrite !frames_of_app, F, E. split; [constructor | cbn; lia]. }
    cbn [andb].
    destruct (negb (String.eqb (active_source s) "none")).
    + destruct (G ((vad s && is_currently_speaking_vad s
                    && silence_timeout_exceeded w)
                   || (negb (vad s) && silence_timeout_exceeded w))) as (G1 & G2).
      split; [exact G1|]. split; [exact G2|]. discriminate.
    + split; [constructor|]. split; [exact Small | discriminate].
  - split; [constructor|]. split; [exact Small | discriminate].
Qed.

(** The buffer holds less than a frame of [n] bytes. *)
Definition framed (n : Z) (s : SpeechToTextSystem.t) : Prop :=
  vad_frame_bytes s = n /\ (Z.of_nat (List.length (vad_buffer s)) < n)%Z.

Lemma framed_kept (n : Z) (s s' : SpeechToTextSystem.t) :
  framed n s -> vad_frame_bytes s' = vad_frame_bytes s ->
  vad_buffer s' = vad_buffer s \/ vad_buffer s' = [] ->
  framed n s'.
Proof.
  intros (N & B) E K. split; [congruence|].
  destruct K as [K | K]; rewrite K; [exact B | cbn; lia].
Qed.

Lemma step_frames (n : Z) (ev : event) (s : SpeechToTextSystem.t) :
  framed n s ->
  framed n (fst (step ev s))
  /\ Forall (fun frame => Z.of_nat (List.length frame) = n) (frames_of (snd (step ev s))).
Proof.
  intros J. pose proof J as (N & B).
  destruct ev as [name m_old m_new f|m|m f1 f2|w]; cbn [step].
  - destruct (set_audio_source_frames name m_old m_new f s) as (F & K).
    destruct (RecognitionLifecycle.set_audio_source_inv name m_old m_new f s)
      as ((_ & _ & _ & E & _) & _).
    rewrite F. split; [exact (@framed_kept n s _ J E K) | constructor].
  - unfold start. destruct (is_running s); [split; [exact J | constructor]|].
    destruct (audio_processor s); [|split; [exact J | constructor]].
    pose proof (activate_frames m s) as A.
    destruct (negb (String.eqb (active_source s) "none")).
    + destruct (activate_current_source_if_needed m s) as [ok out].
      cbn [snd] in A. destruct ok; cbn [negb fst snd]; rewrite A;
        (split; [exact J | constructor]).
    + cbn. split; [exact J | constructor].
  - destruct (stop_frames m f1 f2 s) as (F & K). rewrite F.
    split; [|constructor]. refine (@framed_kept n s _ J _ K).
    unfold stop. destruct (negb (is_running s)); [reflexivity|]. cbv zeta.
    set (s1 := set_running false true (processing_thread s) s).
    assert (X : vad_frame_bytes (fst (if processing_thread s1
                                      then stt_loop_exit f1 s1 else (s1, [])))
                = vad_frame_bytes s).
    { destruct (processing_thread s1); [|reflexivity].
      destruct (RecognitionLifecycle.stt_loop_exit_control f1 s1)
        as (((_ & _ & _ & E & _) & _) & _). exact E. }
    destruct (if processing_thread s1 then stt_loop_exit f1 s1 else (s1, []))
      as [s2 out2].
    destruct (RecognitionLifecycle.finalize_control f2 (set_running false true false s2))
      as (((_ & _ & _ & E & _) & _) & _).
    destruct (finalize f2 (set_running false true false s2)) as [s4 out4].
    cbn [fst] in *. rewrite E. exact X.
  - destruct (processing_thread s && is_running s && negb (stop_event s));
      [|split; [exact J | constructor]].
    assert (Small : (Z.of_nat (List.length (vad_buffer s)) < vad_frame_bytes s)%Z)
      by (rewrite N; exact B).
    destruct (@stt_loop_iteration_frames w s Small) as (A & C & _).
    destruct (RecognitionLifecycle.stt_loop_iteration_control w s)
      as ((_ & _ & _ & E & _) & _).
    rewrite N in A, C. split; [split; [congruence | exact C] | exact A].
Qed.

Lemma run_frames (n : Z) (evs : list event) (s : SpeechToTextSystem.t) :
  framed n s ->
  framed n (fst (run evs s))
  /\ Forall (fun frame => Z.of_nat (List.length frame) = n) (frames_of (snd (run evs s))).
Proof.
  revert s. induction evs as [|ev rest IH]; intros s J; cbn [run].
  - split; [exact J | constructor].
  - destruct (@step_frames n ev s J) as (J1 & F1). destruct (step ev s) as [s1 out1].
    cbn [fst snd] in *. destruct (IH s1 J1) as (J2 & F2).
    destruct (run rest s1) as [s2 out2]. cbn [fst snd] in *.
    split; [exact J2|]. rewrite frames_of_app. apply Forall_app. split; assumption.
Qed.

(** X23. With the VAD and a positive frame size, after the constructor
    and any sequence of calls and loop iterations, every frame given to
    [vad.is_speech] has exactly [vad_frame_bytes] bytes, and the VAD buffer
    holds less than one frame. *)
Theorem voice_detector_gets_whole_frames
    (text_cb mic queue speech_cb partial_cb : bool) (default_source : string)
    (frame_bytes : Z) (evs : list event) :
  (0 < frame_bytes)%Z ->
  let r := run evs (SpeechToTextSystem.init text_cb mic queue speech_cb partial_cb
                      default_source true frame_bytes) in
  Forall (fun frame => Z.of_nat (List.length frame) = frame_bytes) (frames_of (snd r))
  /\ (Z.of_nat (List.length (vad_buffer (fst r))) < frame_bytes)%Z.
Proof.
  intros Pos r.
  assert (J : framed frame_bytes
                (SpeechToTextSystem.init text_cb mic queue speech_cb partial_cb
                   default_source true frame_bytes)).
  { unfold SpeechToTextSystem.init, set_initial_source.
    repeat match goal with
           | |- context [if ?c then _ else _] => destruct c
           end; split; cbn; auto. }
  destruct (@run_frames frame_bytes evs _ J) as ((_ & B) & F). split; assumption.
Qed.

(** X24. With the VAD, in a loop iteration that obtains a chunk that is
    not empty, the frames given to [vad.is_speech], in order, followed by
    what is left in the VAD buffer, are the bytes that were in the buffer
    followed by the chunk: nothing is lost, repeated or reordered.  The
    number of frames is the length of these bytes divided by the frame
    size. *)
Theorem no_audio_lost_before_the_voice_detector
    (w : loop_answers) (s : SpeechToTextSystem.t) (chunk : bytes) :
  vad s = true ->
  (Z.of_nat (List.length (vad_buffer s)) < vad_frame_bytes s)%Z ->
  fetch w s = Some (Some chunk) ->
  chunk <> [] ->
  let r := stt_loop_iteration w s in
  List.concat (frames_of (snd r)) ++ vad_buffer (fst r) = vad_buffer s ++ chunk
  /\ List.length (frames_of (snd r))
     = Z.to_nat ((Z.of_nat (List.length (vad_buffer s ++ chunk))) / vad_frame_bytes s).
Proof.
  intros Vad Small Fetch Ne r.
  destruct (@stt_loop_iteration_frames w s Small) as (A & C & D). fold r in A, C, D.
  specialize (D chunk Fetch Ne Vad). split; [exact D|].
  assert (L : List.length (List.concat (frames_of (snd r)))
              = (List.length (frames_of (snd r)) * Z.to_nat (vad_frame_bytes s))%nat).
  { clear D. induction A as [|frame l Hf Q IH]; [reflexivity|].
    cbn [List.concat List.length]. rewrite length_app, IH. lia. }
  apply (f_equal (@List.length Byte.byte)) in D. rewrite length_app, L in D.
  rewrite <- D.
  set (k := List.length (frames_of (snd r))) in *.
  set (rest := List.length (vad_buffer (fst r))) in *.
  assert (Pos : (0 < vad_frame_bytes s)%Z) by lia.
  rewrite Nat2Z.inj_add, Nat2Z.inj_mul, Z2Nat.id by lia.
  rewrite Z.div_add_l by lia. rewrite Z.div_small by lia. lia.
Qed.

Lemma voice_detector_gets_whole_frames_witness :
  (0 < 2)%Z
  /\ frames_of (snd (run VoiceActivity.listening
                       (SpeechToTextSystem.init true true false true true "local"
                          true 2)))
     = [[Byte.x01; Byte.x02]; [Byte.x03; Byte.x04]]
  /\ Forall (fun frame => Z.of_nat (List.length frame) = 2%Z)
       (frames_of (snd (run VoiceActivity.listening
                          (SpeechToTextSystem.init true true false true true "local"
                             true 2)))).
Proof.
  split; [reflexivity|]. split; [reflexivity|].
  exact (proj1 (@voice_detector_gets_whole_frames true true false true true "local"
                  2 VoiceActivity.listening eq_refl)).
Defined.

Lemma no_audio_lost_before_the_voice_detector_witness :
  let s := fst (run [Start VoiceActivity.ready]
                  (SpeechToTextSystem.init true true false true true "local" true 2)) in
  let w := VoiceActivity.hears [Byte.x01; Byte.x02; Byte.x03] true in
  vad s = true
  /\ fetch w s = Some (Some [Byte.x01; Byte.x02; Byte.x03])
  /\ List.concat (frames_of (snd (stt_loop_iteration w s)))
     ++ vad_buffer (fst (stt_loop_iteration w s))
     = vad_buffer s ++ [Byte.x01; Byte.x02; Byte.x03].
Proof.
  cbv zeta. split; [reflexivity|]. split; [reflexivity|].
  refine (proj1 (@no_audio_lost_before_the_voice_detector
                   (VoiceActivity.hears [Byte.x01; Byte.x02; Byte.x03] true)
                   (fst (run [Start VoiceActivity.ready]
                           (SpeechToTextSystem.init true true false true true "local"
                              true 2)))
                   [Byte.x01; Byte.x02; Byte.x03] eq_refl eq_refl eq_refl _)).
  discriminate.
Defined.

End VoiceActivityFrames.

Module RecognitionStart.

Import Re AudioProcessor SpeechToTextSystem RecognitionLifecycle.

(** X25. After the constructor and any sequence of calls and loop
    iterations, [start] returns [False] only when the system is not
    running, the active source is the local microphone, and the microphone
    does not come up: either its capture thread is alive but its stream is
    not active (nothing is called), or [start_capture] is called and
    returns [False] or leaves the stream inactive.  With the robot queue
    or no source, [start] always succeeds. *)
Theorem start_fails_only_on_the_local_microphone
    (text_cb mic queue speech_cb partial_cb : bool) (default_source : string)
    (with_vad : bool) (frame_bytes : Z) (evs : list event) (m : mic_answers) :
  let s := fst (run evs (SpeechToTextSystem.init text_cb mic queue speech_cb
                           partial_cb default_source with_vad frame_bytes)) in
  snd (start m s) = false ->
  get_is_running s = false
  /\ active_source s = "local"%string
  /\ mic = true
  /\ (if is_capture_thread_alive m
      then is_stream_active m = false /\ snd (fst (start m s)) = []
      else snd (fst (start m s)) = [start_capture]
           /\ (start_capture_result m = false
               \/ is_stream_active_after_start m = false)).
Proof.
  intros s.
  destruct (init_sound text_cb mic queue speech_cb partial_cb
              default_source with_vad frame_bytes) as (I & IM & IQ).
  destruct (run_sound evs I) as ((S & _) & P).
  fold s in S, P. destruct P as (P1 & P2 & _ & _ & P5).
  assert (M : local_mic_handler s = mic) by congruence.
  assert (A : audio_processor s <> None).
  { intros N. apply P5 in N. revert N.
    unfold SpeechToTextSystem.init, set_initial_source.
    repeat match goal with
           | |- context [if ?c then _ else _] => destruct c
           end; discriminate. }
  clearbody s. clear I IM IQ P1 P2 P5.
  unfold get_is_running, start.
  destruct (is_running s); [discriminate|].
  destruct (audio_processor s) as [p|]; [clear A | contradiction].
  unfold source_ok in S. unfold activate_current_source_if_needed.
  destruct S as [(S & L) | [(S & Q) | S]]; rewrite S; cbn [String.eqb Ascii.eqb Bool.eqb negb].
  - rewrite L. intros F. split; [reflexivity|]. split; [reflexivity|].
    split; [congruence|].
    destruct (is_capture_thread_alive m); cbn [negb] in *.
    + destruct (is_stream_active m); cbn in *; [discriminate | auto].
    + destruct (start_capture_result m); cbn in *.
      * destruct (is_stream_active_after_start m); cbn in *; [discriminate | auto].
      * auto.
  - rewrite Q. cbn. discriminate.
  - cbn. discriminate.
Qed.

Lemma start_fails_only_on_the_local_microphone_witness :
  let m := {| is_capture_thread_alive := false; is_stream_active := false;
              start_capture_result := false; is_stream_active_after_start := false |} in
  let s := SpeechToTextSystem.init true true true true true "local" true 960 in
  snd (start m s) = false /\ active_source s = "local"%string.
Proof.
  cbv zeta.
  assert (F : snd (start {| is_capture_thread_alive := false; is_stream_active := false;
                            start_capture_result := false;
                            is_stream_active_after_start := false |}
                     (SpeechToTextSystem.init true true true true true "local" true 960))
              = false) by reflexivity.
  split; [exact F|].
  exact (proj1 (proj2 (@start_fails_only_on_the_local_microphone
                         true true true true true "local" true 960 [] _ F))).
Defined.

End RecognitionStart.

(** ** The text shown on the tablet *)

Module ShownText.

Import Re ReFacts SystemComposer StripFacts.

(** [lstrip] and [rstrip] cut a text at one end. *)
Lemma lstrip_suffix (s : str) : exists pre, s = pre ++ lstrip s.
Proof.
  induction s as [|c t (pre & IH)]; [exists []; reflexivity|]. cbn.
  destruct (isspace c); [|exists []; reflexivity].
  exists (c :: pre). cbn. f_equal. exact IH.
Qed.

Lemma rstrip_prefix (s : str) : exists post, s = rstrip s ++ post.
Proof.
  unfold rstrip. destruct (lstrip_suffix (rev s)) as (pre & E).
  exists (rev pre). rewrite <- rev_app_distr, <- E. symmetry. apply rev_involutive.
Qed.

Lemma strip_infix (s : str) : exists pre post, s = pre ++ strip s ++ post.
Proof.
  unfold strip. destruct (lstrip_suffix s) as (pre & E).
  destruct (rstrip_prefix (lstrip s)) as (post & F).
  exists pre, post. rewrite <- F. exact E.
Qed.

(** [squeeze true] starts with no space. *)
Lemma squeeze_in_run_head (s : str) (l : str) : squeeze true s <> 32%N :: l.
Proof.
  induction s as [|c t IH]; cbn; [discriminate|].
  destruct (isspace c) eqn:E; [exact IH|].
  intros [= -> _]. vm_compute in E. discriminate.
Qed.

Lemma squeeze_single_spaces (in_run : bool) (s l1 l2 : str) :
  squeeze in_run s <> l1 ++ 32%N :: 32%N :: l2.
Proof.
  revert in_run l1. induction s as [|c t IH]; intros in_run l1; cbn.
  - destruct l1; discriminate.
  - destruct (isspace c) eqn:E.
    + destruct in_run; [apply IH|].
      destruct l1 as [|a l1]; cbn.
      * intros [= H]. exact (squeeze_in_run_head _ H).
      * intros [= _ H]. exact (IH _ _ H).
    + destruct l1 as [|a l1]; cbn.
      * intros [= -> _]. vm_compute in E. discriminate.
      * intros [= _ H]. exact (IH _ _ H).
Qed.

Lemma squeeze_spaces (in_run : bool) (s : str) (c : char) :
  In c (squeeze in_run s) -> isspace c = true -> c = 32%N.
Proof.
  revert in_run. induction s as [|d t IH]; intros in_run; cbn; [intros []|].
  destruct (isspace d) eqn:E.
  - destruct in_run; [apply IH|]. intros [<- | H]; [reflexivity | exact (IH _ H)].
  - intros [<- | H]; [congruence | exact (IH _ H)].
Qed.

(** A text without caret holds no animation tag. *)
Lemma no_caret_no_tag (s : str) :
  ~ In 94%N s -> match_here animation_tag_pattern s = None.
Proof.
  intros N. unfold match_here. rewrite Orchestrator.code_matches.
  destruct (lstrip_suffix s) as (pre & E).
  destruct (lstrip s) as [|c u] eqn:L; [reflexivity|].
  change (after (py "^") (c :: u)) with (if N.eqb 94 c then Some u else None).
  destruct (N.eqb_spec 94 c) as [C|C]; [|reflexivity].
  exfalso. apply N. rewrite E. apply in_or_app. right. left. symmetry. exact C.
Qed.

Lemma sub_without_caret (fuel : nat) (repl s : str) :
  ~ In 94%N s -> sub_from fuel animation_tag_pattern repl s = s.
Proof.
  revert s. induction fuel as [|fuel IH]; intros s N; [reflexivity|].
  cbn [sub_from]. rewrite (no_caret_no_tag s N).
  destruct s as [|c t]; [reflexivity|].
  f_equal. apply IH. intros H. apply N. right. exact H.
Qed.

(** X26. The text that [_strip_animation_tags] gives for the tablet
    holds no white space but the space character, never two spaces in a
    row, and no space at its start or end.  A text without caret holds no
    tag: it is shown as it is, up to its white space. *)
Theorem text_shown_is_single_spaced (annotated : str) :
  let shown := strip_animation_tags annotated in
  (forall c, In c shown -> isspace c = true -> c = 32%N)
  /\ (forall l1 l2, shown <> l1 ++ 32%N :: 32%N :: l2)
  /\ headed shown /\ ended shown
  /\ (~ In 94%N annotated -> shown = collapse_whitespace annotated).
Proof.
  intros shown.
  pose (cleaned := match annotated with
                   | [] => []
                   | _ => sub animation_tag_pattern (py " ") annotated
                   end).
  assert (E : shown = strip (squeeze false cleaned)).
  { unfold shown, cleaned, strip_animation_tags.
    destruct annotated as [|c t]; [reflexivity|].
    unfold sub at 1. rewrite Orchestrator.sub_whitespace_run by lia. reflexivity. }
  destruct (strip_infix (squeeze false cleaned)) as (pre & post & F).
  rewrite <- E in F.
  split; [|split; [|split; [|split]]].
  - intros c H. apply (@squeeze_spaces false cleaned c).
    rewrite F. apply in_or_app. right. apply in_or_app. left. exact H.
  - intros l1 l2 H. apply (@squeeze_single_spaces false cleaned (pre ++ l1) (l2 ++ post)).
    rewrite F, H, <- !app_assoc. reflexivity.
  - rewrite E. apply strip_headed.
  - rewrite E. apply strip_ended.
  - intros N. rewrite E. unfold collapse_whitespace, cleaned.
    destruct annotated as [|c t]; [reflexivity|].
    unfold sub. rewrite sub_without_caret by exact N. reflexivity.
Qed.

End ShownText.

(** ** The conversation manager over its life *)

Module ConversationLifecycle.

Import Re ConversationManager ConversationControl.

(** The client, when there is one, is of the kind of the backend. *)
Definition client_of_backend (s : ConversationManager.t) : Prop :=
  match active_ai_client s with
  | Some (GPTAPIClient _) => current_ai_backend_type s = openai_gpt
  | Some (LocalLlamaClient _) => current_ai_backend_type s = local_gguf
  | None => True
  end.

(** Without client the backend is [none]. *)
Definition off_without_client (s : ConversationManager.t) : Prop :=
  active_ai_client s = None -> current_ai_backend_type s = none.

Lemma set_active_ai_model_spec (model_type : string) (config : model_config)
    (s : ConversationManager.t) :
  let r := set_active_ai_model model_type config s in
  current_conversation_id (fst r) = current_conversation_id s
  /\ prompt_builder (fst r) = prompt_builder s
  /\ (snd r <> raises BaseException -> client_of_backend (fst r))
  /\ (snd r = returns true ->
      off_without_client (fst r)
      /\ backend_name (current_ai_backend_type (fst r)) = py model_type)
  /\ (snd r = returns false -> active_ai_client (fst r) = None)
  /\ (snd r = raises BaseException -> fst r = s)
  /\ snd r <> raises Exception.
Proof.
  cbv zeta. unfold set_active_ai_model, client_of_backend, off_without_client.
  destruct (String.eqb model_type "openai_gpt") eqn:E1.
  { apply String.eqb_eq in E1. subst model_type.
    destruct (client_built config) as [m|[|]]; cbn;
      repeat split; intros; try discriminate; try reflexivity; try congruence; auto. }
  destruct (String.eqb model_type "local_gguf") eqn:E2.
  { apply String.eqb_eq in E2. subst model_type.
    destruct (model_gguf_path_exists config); cbn [negb];
      [destruct (client_built config) as [m|[|]]|]; cbn;
      repeat split; intros; try discriminate; try reflexivity; try congruence; auto. }
  destruct (String.eqb model_type "none") eqn:E3.
  { apply String.eqb_eq in E3. subst model_type. cbn.
    repeat split; intros; try discriminate; try reflexivity; try congruence; auto. }
  cbn. repeat split; intros; try discriminate; try reflexivity; try congruence; auto.
Qed.

Lemma set_active_personality_spec (data : personalities) (key : string)
    (s : ConversationManager.t) :
  let r := set_active_personality data key s in
  current_conversation_id (fst r) = current_conversation_id s
  /\ active_ai_client (fst r) = active_ai_client s
  /\ current_ai_backend_type (fst r) = current_ai_backend_type s
  /\ (snd r = returns true -> prompt_builder (fst r) = true)
  /\ snd r <> raises Exception.
Proof.
  cbv zeta. unfold set_active_personality.
  destruct (lookup key data) as [cfg|]; [|cbn; repeat split; discriminate].
  destruct (system_prompt cfg); cbn [negb]; [|cbn; repeat split; discriminate].
  destruct (prompt_builder_built cfg) as [u|[|]]; cbn; repeat split; discriminate.
Qed.

Lemma start_new_db_conversation_spec (started : outcome (option Z))
    (s : ConversationManager.t) :
  let r := start_new_db_conversation started s in
  prompt_builder (fst r) = prompt_builder s
  /\ active_ai_client (fst r) = active_ai_client s
  /\ current_ai_backend_type (fst r) = current_ai_backend_type s.
Proof. destruct started as [[id|]|x]; repeat split. Qed.

Lemma step_backend (data : personalities) (ev : event) (s : ConversationManager.t) :
  client_of_backend s -> client_of_backend (step data ev s).
Proof.
  intros C. destruct ev as [model_type config|key|started|]; cbn [step].
  - destruct (set_active_ai_model_spec model_type config s) as (_ & _ & A & _ & _ & B & _).
    destruct (snd (set_active_ai_model model_type config s)) as [ok|[|]] eqn:R.
    + apply A. discriminate.
    + apply A. discriminate.
    + rewrite (B eq_refl). exact C.
  - destruct (set_active_personality_spec data key s) as (_ & A & B & _).
    unfold client_of_backend in *. rewrite A, B. exact C.
  - unfold start_new_conversation.
    destruct (start_new_db_conversation_spec started s) as (_ & A & B).
    destruct (start_new_db_conversation started s) as [s1 [u|x]]; cbn [fst] in *;
      unfold client_of_backend in *; rewrite A, B; exact C.
  - unfold end_current_conversation.
    destruct (truthy (current_conversation_id s)); exact C.
Qed.

Lemma run_backend (data : personalities) (evs : list event) (s : ConversationManager.t) :
  client_of_backend s -> client_of_backend (run data evs s).
Proof.
  revert s. induction evs as [|ev rest IH]; intros s C; [exact C|].
  apply IH, step_backend, C.
Qed.

(** What the constructor establishes. *)
Record constructed (s : ConversationManager.t) : Prop := {
  has_conversation : current_conversation_id s <> None;
  has_prompt_builder : prompt_builder s = true;
  has_client_of_backend : client_of_backend s;
  is_off_without_client : off_without_client s
}.

Lemma init_personality_spec (a : init_args) (s s1 : ConversationManager.t) :
  init_personality a s = returns s1 ->
  prompt_builder s1 = true
  /\ active_ai_client s1 = active_ai_client s
  /\ current_ai_backend_type s1 = current_ai_backend_type s.
Proof.
  unfold init_personality.
  assert (G : forall key,
             (let (s1', loaded) := set_active_personality (personalities_data a) key s in
              match loaded with
              | raises x => raises x
              | returns loaded_pers_ok =>
                  if negb loaded_pers_ok || negb (prompt_builder s1') then
                    match fallback_prompt_builder_built a with
                    | returns _ => returns (set_prompt_builder true s1')
                    | raises x => raises x
                    end
                  else returns s1'
              end) = returns s1 ->
             prompt_builder s1 = true
             /\ active_ai_client s1 = active_ai_client s
             /\ current_ai_backend_type s1 = current_ai_backend_type s).
  { intros key.
    destruct (set_active_personality_spec (personalities_data a) key s)
      as (_ & A & B & _).
    destruct (set_active_personality (personalities_data a) key s) as [s' [ok|x]];
      [|discriminate]. cbn [fst] in *.
    destruct (negb ok || negb (prompt_builder s')) eqn:N.
    - destruct (fallback_prompt_builder_built a); [|discriminate].
      intros [= <-]. cbn. auto.
    - intros [= <-]. apply orb_false_iff in N. destruct N as (_ & N).
      apply negb_false_iff in N. auto. }
  destruct (lookup (default_personality_key a) (personalities_data a)); [apply G|].
  destruct (personalities_data a) as [|[first_key cfg] rest] eqn:D.
  - cbn. destruct (fallback_prompt_builder_built a); [|discriminate].
    intros [= <-]. cbn. auto.
  - apply G.
Qed.

Lemma init_backend_spec (a : init_args) (s s2 : ConversationManager.t) :
  init_backend a s = returns s2 ->
  prompt_builder s2 = prompt_builder s
  /\ client_of_backend s2 /\ off_without_client s2
  /\ (active_ai_client s2 <> None ->
      exists model, client_built (initial_model_config a) = returns model
                    /\ backend_name (current_ai_backend_type s2)
                       = py (default_ai_backend_type a)).
Proof.
  unfold init_backend.
  set (s1 := set_backend None (current_ai_backend_type s) s).
  assert (G : forall model_type,
             default_ai_backend_type a = model_type ->
             model_type = "openai_gpt"%string \/ model_type = "local_gguf"%string ->
             (let (s2', active) :=
                set_active_ai_model model_type (initial_model_config a) s1 in
              match active with
              | raises x => raises x
              | returns active_backend_set =>
                  if negb active_backend_set
                     && negb (String.eqb (default_ai_backend_type a) "none")
                  then returns (set_backend (active_ai_client s2') none s2')
                  else returns s2'
              end) = returns s2 ->
             prompt_builder s2 = prompt_builder s
             /\ client_of_backend s2 /\ off_without_client s2
             /\ (active_ai_client s2 <> None ->
                 exists model, client_built (initial_model_config a) = returns model
                               /\ backend_name (current_ai_backend_type s2)
                                  = py (default_ai_backend_type a))).
  { intros model_type D K. rewrite D.
    unfold set_active_ai_model, client_of_backend, off_without_client.
    destruct K as [-> | ->]; cbn [String.eqb Ascii.eqb Bool.eqb andb negb].
    - destruct (client_built (initial_model_config a)) as [m|[|]]; cbn;
        intros [= <-]; cbn; repeat split; try discriminate; auto; try congruence.
      intros _. exists m. split; reflexivity.
    - destruct (model_gguf_path_exists (initial_model_config a)); cbn [negb];
        [destruct (client_built (initial_model_config a)) as [m|[|]]|]; cbn;
        intros [= <-]; cbn; repeat split; try discriminate; auto; try congruence.
      intros _. exists m. split; reflexivity. }
  assert (Off : forall s',
                active_ai_client s' = None ->
                current_ai_backend_type s' = none ->
                prompt_builder s' = prompt_builder s ->
                prompt_builder s' = prompt_builder s
                /\ client_of_backend s' /\ off_without_client s'
                /\ (active_ai_client s' <> None ->
                    exists model,
                      client_built (initial_model_config a) = returns model
                      /\ backend_name (current_ai_backend_type s')
                         = py (default_ai_backend_type a))).
  { intros s' K T P. unfold client_of_backend, off_without_client. rewrite K.
    repeat split; auto. congruence. }
  destruct (String.eqb (default_ai_backend_type a) "openai_gpt") eqn:E1.
  { apply String.eqb_eq in E1.
    destruct (openai_api_key a); cbn [negb]; [apply (G _ E1); auto|].
    assert (N : String.eqb (default_ai_backend_type a) "none" = false)
      by (rewrite E1; reflexivity).
    rewrite N. cbn. intros [= <-]. apply Off; reflexivity. }
  destruct (String.eqb (default_ai_backend_type a) "local_gguf") eqn:E2.
  { apply String.eqb_eq in E2.
    destruct (initial_gguf_config a); [apply (G _ E2); auto|].
    assert (N : String.eqb (default_ai_backend_type a) "none" = false)
      by (rewrite E2; reflexivity).
    rewrite N. cbn. intros [= <-]. apply Off; reflexivity. }
  destruct (String.eqb (default_ai_backend_type a) "none") eqn:E3.
  { cbn. intros [= <-]. apply Off; reflexivity. }
  cbn. intros [= <-]. apply Off; reflexivity.
Qed.

Lemma init_conversation_spec (a : init_args) (s s3 : ConversationManager.t) :
  init_conversation a s = returns s3 ->
  current_conversation_id s3 <> None
  /\ prompt_builder s3 = prompt_builder s
  /\ active_ai_client s3 = active_ai_client s
  /\ current_ai_backend_type s3 = current_ai_backend_type s.
Proof.
  unfold init_conversation.
  destruct (truthy (initial_conversation_id a) && conversation_exists a).
  - cbn. destruct (initial_conversation_id a); [|discriminate].
    intros [= <-]. cbn. repeat split. discriminate.
  - destruct (start_new_db_conversation_spec (conversation_started a)
                (set_conversation None s)) as (A & B & C).
    destruct (start_new_db_conversation _ _) as [s2 [u|x]]; [|discriminate].
    cbn [fst] in *. destruct (current_conversation_id s2) eqn:K; [|discriminate].
    intros [= <-]. rewrite K. repeat split; auto. discriminate.
Qed.

Lemma init_ready (a : init_args) (s : ConversationManager.t) :
  init a = returns s ->
  constructed s
  /\ (active_ai_client s <> None ->
      exists model, client_built (initial_model_config a) = returns model
                    /\ backend_name (current_ai_backend_type s)
                       = py (default_ai_backend_type a)).
Proof.
  unfold init.
  destruct (init_personality a _) as [s1|x] eqn:P; [|discriminate].
  destruct (init_backend a s1) as [s2|x] eqn:B; [|discriminate].
  intros C.
  apply init_personality_spec in P. destruct P as (P1 & _).
  apply init_backend_spec in B. destruct B as (B1 & B2 & B3 & B4).
  apply init_conversation_spec in C. destruct C as (C1 & C2 & C3 & C4).
  split; [constructor|].
  - exact C1.
  - congruence.
  - unfold client_of_backend in *. rewrite C3, C4. exact B2.
  - unfold off_without_client in *. rewrite C3, C4. exact B3.
  - rewrite C3, C4. exact B4.
Qed.

Lemma ready_answers (s : ConversationManager.t) (e : ConversationManager.env)
    (user_input src : str) (images : list str) :
  constructed s ->
  Orchestrator.proceeds s = true
  \/ get_ai_response s e user_input src images
     = (returns (py "El modo de IA esta desactivado."), []).
Proof.
  intros [C P K O]. unfold Orchestrator.proceeds, get_ai_response.
  unfold client_of_backend, off_without_client in *.
  destruct (current_conversation_id s); [|congruence]. rewrite P. cbn [negb].
  destruct (active_ai_client s) as [[m|p]|].
  - rewrite K. left. reflexivity.
  - rewrite K. left. reflexivity.
  - rewrite (O eq_refl). right. reflexivity.
Qed.

(** X27. A conversation manager whose constructor returns has an active
    conversation and a prompt builder; it has no AI client exactly when
    its backend is [none], and a client is of the kind of the backend.  It
    has a client only if the client of the default backend could be built.
    Hence its first request either gets past the validations of
    [get_ai_response] or is answered that the AI mode is switched off, with
    nothing stored: none of the three error replies can be given. *)
Theorem constructed_manager_is_ready (a : init_args) (s : ConversationManager.t) :
  init a = returns s ->
  get_current_conversation_id s <> None
  /\ prompt_builder s = true
  /\ (active_ai_client s = None <-> current_ai_backend_type s = none)
  /\ client_of_backend s
  /\ (active_ai_client s <> None ->
      exists model, client_built (initial_model_config a) = returns model
                    /\ backend_name (current_ai_backend_type s)
                       = py (default_ai_backend_type a))
  /\ (forall e user_input src images,
        Orchestrator.proceeds s = true
        \/ get_ai_response s e user_input src images
           = (returns (py "El modo de IA esta desactivado."), [])).
Proof.
  intros I. destruct (init_ready a I) as (R & M). pose proof R as [C P K O].
  split; [exact C|]. split; [exact P|]. split; [|split; [exact K|split; [exact M|]]].
  - split; [exact O|]. intros T. unfold client_of_backend in K.
    destruct (active_ai_client s) as [[m|p]|]; [congruence | congruence | reflexivity].
  - intros e user_input src images. apply ready_answers, R.
Qed.

(** A manager built with the OpenAI backend, one personality and a new
    conversation. *)
Definition with_openai : init_args :=
  {| personalities_data :=
       [("ume_asistente"%string,
         {| system_prompt := true; prompt_builder_built := returns tt |})];
     default_personality_key := "ume_asistente";
     fallback_prompt_builder_built := returns tt;
     default_ai_backend_type := "openai_gpt";
     openai_api_key := true;
     initial_gguf_config := false;
     initial_model_config :=
       {| model_gguf_path_exists := false; client_built := returns (py "gpt-4o") |};
     initial_conversation_id := None;
     conversation_exists := false;
     conversation_started := returns (Some 1%Z) |}.

Lemma constructed_manager_is_ready_witness :
  init with_openai = returns Orchestrator.chatting
  /\ prompt_builder Orchestrator.chatting = true.
Proof.
  assert (I : init with_openai = returns Orchestrator.chatting) by reflexivity.
  split; [exact I|].
  exact (proj1 (proj2 (constructed_manager_is_ready with_openai I))).
Defined.

Lemma stored_model (s : ConversationManager.t) (e : ConversationManager.env)
    (user_input src : str) (images : list str) (i : interaction) :
  client_of_backend s ->
  In i (snd (get_ai_response s e user_input src images)) ->
  interaction_role i = assistant ->
  model_used (interaction_content i) = Some (py "fallback_empty")
  \/ (exists model, active_ai_client s = Some (GPTAPIClient model)
                    /\ model_used (interaction_content i)
                       = Some (py "openai_gpt_" ++ model))
  \/ (exists path, active_ai_client s = Some (LocalLlamaClient path)
                   /\ model_used (interaction_content i)
                      = Some (py "local_gguf_" ++ path)).
Proof.
  unfold client_of_backend, get_ai_response. intros K.
  destruct (current_conversation_id s) as [conv|]; [|intros []].
  destruct (prompt_builder s); cbn [negb]; [|intros []].
  destruct (active_ai_client s) as [[model|path]|]; try rewrite K.
  - destruct (build_messages_for_chat_api e) as [u|[|]]; try (intros []).
    destruct (generate_response e) as [[[|c rest]|]|[|]];
      destruct (user_interaction_stored e), (assistant_interaction_stored e);
      cbn; intros H R; repeat (destruct H as [<- | H]); try contradiction;
      try discriminate;
      first [left; reflexivity | right; left; exists model; split; reflexivity].
  - destruct (build_messages_for_chat_api e) as [u|[|]]; try (intros []).
    destruct (generate_response e) as [[[|c rest]|]|[|]];
      destruct (user_interaction_stored e), (assistant_interaction_stored e);
      cbn; intros H R; repeat (destruct H as [<- | H]); try contradiction;
      try discriminate;
      first [left; reflexivity | right; right; exists path; split; reflexivity].
  - destruct (current_ai_backend_type s); intros [].
Qed.

Lemma nothing_stored_without_client (s : ConversationManager.t)
    (e : ConversationManager.env) (user_input src : str) (images : list str) :
  active_ai_client s = None ->
  snd (get_ai_response s e user_input src images) = []
  /\ Orchestrator.proceeds s = false.
Proof.
  intros K. unfold get_ai_response, Orchestrator.proceeds. rewrite K.
  destruct (current_conversation_id s); [|split; reflexivity].
  destruct (prompt_builder s); cbn [negb];
    destruct (current_ai_backend_type s); split; reflexivity.
Qed.

(** X28. After the constructor and any sequence of calls of
    [set_active_ai_model], [set_active_personality],
    [start_new_conversation] and [end_current_conversation], a client is
    of the kind of the backend, so that an assistant's turn is stored with
    [model_used] either [fallback_empty], or [openai_gpt_] followed by the
    model of the GPT client, or [local_gguf_] followed by the base name of
    the model file of the local client.  A call of [set_active_ai_model]
    that returns [False] leaves no client, and the next request stores
    nothing; one that returns [True] leaves the requested backend, without
    client exactly for [none]; a name that is not one of the three returns
    [False] and keeps the backend type while dropping the client. *)
Theorem backend_and_client_stay_consistent
    (a : init_args) (s0 : ConversationManager.t) (evs : list event) :
  init a = returns s0 ->
  let s := run (personalities_data a) evs s0 in
  client_of_backend s
  /\ (forall e user_input src images i,
        In i (snd (get_ai_response s e user_input src images)) ->
        interaction_role i = assistant ->
        model_used (interaction_content i) = Some (py "fallback_empty")
        \/ (exists model, active_ai_client s = Some (GPTAPIClient model)
                          /\ model_used (interaction_content i)
                             = Some (py "openai_gpt_" ++ model))
        \/ (exists path, active_ai_client s = Some (LocalLlamaClient path)
                         /\ model_used (interaction_content i)
                            = Some (py "local_gguf_" ++ path)))
  /\ (forall model_type config,
        let r := set_active_ai_model model_type config s in
        (snd r = returns false ->
         active_ai_client (fst r) = None
         /\ forall e user_input src images,
              snd (get_ai_response (fst r) e user_input src images) = [])
        /\ (snd r = returns true ->
            (active_ai_client (fst r) = None <-> model_type = "none"%string)
            /\ backend_name (current_ai_backend_type (fst r)) = py model_type)
        /\ (model_type <> "openai_gpt"%string -> model_type <> "local_gguf"%string ->
            model_type <> "none"%string ->
            snd r = returns false
            /\ current_ai_backend_type (fst r) = current_ai_backend_type s)).
Proof.
  intros I s.
  destruct (init_ready a I) as ([_ _ K _] & _).
  pose proof (@run_backend (personalities_data a) evs s0 K) as C. fold s in C.
  clearbody s. split; [exact C|]. split.
  - intros e user_input src images i. apply stored_model, C.
  - intros model_type config r.
    destruct (set_active_ai_model_spec model_type config s)
      as (_ & _ & B & T & F & _). fold r in B, T, F.
    split; [|split].
    + intros R. split; [exact (F R)|].
      intros e user_input src images.
      apply nothing_stored_without_client, F, R.
    + intros R. destruct (T R) as (O & N). split; [|exact N].
      assert (Bk : client_of_backend (fst r)) by (apply B; rewrite R; discriminate).
      unfold client_of_backend, off_without_client in *. split.
      * intros Z. specialize (O Z). rewrite O in N.
        unfold r, set_active_ai_model in *.
        destruct (String.eqb model_type "openai_gpt") eqn:E1.
        { destruct (client_built config) as [m|[|]]; cbn in Z; discriminate. }
        destruct (String.eqb model_type "local_gguf") eqn:E2.
        { destruct (model_gguf_path_exists config); cbn [negb] in *;
            [destruct (client_built config) as [m|[|]]|]; cbn in *; discriminate. }
        destruct (String.eqb model_type "none") eqn:E3;
          [apply String.eqb_eq, E3 | cbn in R; discriminate].
      * intros ->. reflexivity.
    + intros N1 N2 N3. unfold r, set_active_ai_model.
      apply String.eqb_neq in N1, N2, N3. rewrite N1, N2, N3. split; reflexivity.
Qed.

Lemma backend_and_client_stay_consistent_witness :
  init with_openai = returns Orchestrator.chatting
  /\ client_of_backend
       (run (personalities_data with_openai)
          [SetActiveAiModel "local_gguf"
             {| model_gguf_path_exists := true; client_built := returns (py "umebot.gguf") |};
           EndCurrentConversation]
          Orchestrator.chatting).
Proof.
  assert (I : init with_openai = returns Orchestrator.chatting) by reflexivity.
  split; [exact I|].
  exact (proj1 (@backend_and_client_stay_consistent with_openai Orchestrator.chatting
                  [SetActiveAiModel "local_gguf"
                     {| model_gguf_path_exists := true;
                        client_built := returns (py "umebot.gguf") |};
                   EndCurrentConversation] I)).
Defined.

Lemma stored_conversation (s : ConversationManager.t) (e : ConversationManager.env)
    (user_input src : str) (images : list str) (i : interaction) :
  In i (snd (get_ai_response s e user_input src images)) ->
  current_conversation_id s = Some (conversation_id i).
Proof.
  unfold get_ai_response.
  destruct (current_conversation_id s) as [conv|]; [|intros []].
  destruct (prompt_builder s); cbn [negb]; [|intros []].
  destruct (active_ai_client s) as [client|];
    destruct (current_ai_backend_type s); try (intros []);
    (destruct (build_messages_for_chat_api e) as [u|[|]]; try (intros []);
     destruct (generate_response e) as [[[|c rest]|]|[|]];
     destruct (user_interaction_stored e), (assistant_interaction_stored e);
     cbn; intros H; repeat (destruct H as [<- | H]); try contradiction; reflexivity).
Qed.

(** X29. Every interaction stored by [get_ai_response] carries the id of
    the current conversation.  When [start_new_conversation] returns, it
    returns the id under which the next request stores its interactions:
    the new id, or, when the database gave none, the id of the
    conversation that was current, which goes on.
    [end_current_conversation] leaves no current conversation, after which
    a request is answered with the error for a missing conversation and
    stores nothing; a conversation with id 0 is not ended. *)
Theorem interactions_go_to_the_current_conversation (s : ConversationManager.t) :
  (forall e user_input src images i,
     In i (snd (get_ai_response s e user_input src images)) ->
     get_current_conversation_id s = Some (conversation_id i))
  /\ (forall started r,
        snd (start_new_conversation started s) = returns r ->
        r = get_current_conversation_id (fst (start_new_conversation started s))
        /\ (started = returns None -> r = get_current_conversation_id s)
        /\ (forall new_id, started = returns (Some new_id) -> r = Some new_id)
        /\ forall e user_input src images i,
             In i (snd (get_ai_response (fst (start_new_conversation started s))
                          e user_input src images)) ->
             r = Some (conversation_id i))
  /\ (get_current_conversation_id s <> Some 0%Z ->
      get_current_conversation_id (end_current_conversation s) = None
      /\ forall e user_input src images,
           get_ai_response (end_current_conversation s) e user_input src images
           = (returns (py "^runTag(error)Error: No hay una conversacion activa."), []))
  /\ (get_current_conversation_id s = Some 0%Z -> end_current_conversation s = s).
Proof.
  unfold get_current_conversation_id. split; [|split; [|split]].
  - intros e user_input src images i. apply stored_conversation.
  - intros started r. unfold start_new_conversation, start_new_db_conversation.
    destruct started as [[new_id|]|x]; cbn [fst snd]; intros [= <-].
    + split; [reflexivity|]. split; [discriminate|].
      split; [intros id [= <-]; reflexivity|].
      intros e user_input src images i H. apply stored_conversation in H. exact H.
    + split; [reflexivity|]. split; [reflexivity|]. split; [discriminate|].
      intros e user_input src images i H. apply stored_conversation in H. exact H.
  - intros N. unfold end_current_conversation, truthy.
    destruct (current_conversation_id s) as [id|] eqn:C.
    + destruct (Z.eqb_spec id 0) as [->|Ne]; [congruence|]. cbn. split; reflexivity.
    + cbn. split; [exact C|]. intros e user_input src images.
      unfold get_ai_response. rewrite C. reflexivity.
  - intros Z. unfold end_current_conversation, truthy. rewrite Z. reflexivity.
Qed.

End ConversationLifecycle.
